(** * HTTrojan: a shallow embedding of the bitstream lexer, the frame mapper
      and the differential detector, with the properties of the
      specification that concern them.

    The development follows the Python sources module by module:

    - [analysis/frame_rules.py]            : [DeviceConstants], [FrameAddress],
                                             [BlockType], [ColumnClassification]
    - [analysis/assembler/column_mapper.py]: [ColumnMapper]
    - [analysis/assembler/frame_mapper.py] : [FrameMapper]
    - [src/parser/payload_lexer.py]        : [FrameLexer]
    - [src/mapping/integration/*.py]       : [FrameDataExtractor], [LoadedBitstream]
    - [src/detector/baseline/*.py]         : [GoldenBaseline]
    - [src/detector/differential/*.py]     : [AnomalyReport], [Detector]

    Conventions.  Python integers are [Z]; bit operations are [Z.land],
    [Z.lor], [Z.shiftl] and [Z.shiftr].  [bytes] values are [list byte].
    A [dict] is a [gmap], a [set] is a [gset]; iterating over a Python set
    is rendered by [elements], whose order is as unspecified as Python's.
    A Python exception is the [Raise] branch of [result].  Fields that are
    only printed (identifiers, hexadecimal renderings, free-text reasons,
    time stamps, floating-point confidences) are left out of the records:
    no branch of the modelled code reads them. *)

From Stdlib Require Import ZArith List Lia Bool.
From Stdlib Require Import Strings.Byte.
From stdpp Require Import gmap strings list pretty sorting.

Local Open Scope Z_scope.

(* ===================================================================== *)
(** * Exceptions                                                          *)
(* ===================================================================== *)

Inductive exn : Set :=
| NameError | ValueError | IndexError | TypeError | RuntimeError.

Inductive result (A : Type) : Type :=
| Ok (a : A)
| Raise (e : exn).
Arguments Ok {A} a.
Arguments Raise {A} e.

Definition rbind {A B} (k : A → result B) (m : result A) : result B :=
  match m with
  | Ok a => k a
  | Raise e => Raise e
  end.

#[global] Instance result_ret : MRet result := λ A a, Ok a.
#[global] Instance result_bind : MBind result := λ A B k m, rbind k m.
#[global] Instance result_fmap : FMap result :=
  λ A B f m, rbind (λ a, Ok (f a)) m.

(** [for x in l: acc.extend(f x)] where [f] may raise. *)
Fixpoint collectM {A B} (f : A → result (list B)) (l : list A)
  : result (list B) :=
  match l with
  | [] => Ok []
  | x :: l' =>
      ys ← f x;
      zs ← collectM f l';
      Ok (ys ++ zs)
  end.

Definition is_ok {A} (m : result A) : bool :=
  match m with Ok _ => true | Raise _ => false end.

(* ===================================================================== *)
(** * analysis/frame_rules.py                                             *)
(* ===================================================================== *)

Module DeviceConstants.
Definition WORDS_PER_FRAME : Z := 41.
Definition FRAME_WORD_SIZE : Z := 32.
Definition BITS_PER_FRAME : Z := WORDS_PER_FRAME * FRAME_WORD_SIZE.
Definition BYTES_PER_FRAME : Z := BITS_PER_FRAME / 8.
Definition TOTAL_ROWS : Z := 2.
Definition TOTAL_COLUMNS : Z := 48.
Definition TILES_PER_ROW : Z := 20.
Definition TOTAL_TILE_ROWS : Z := 160.
End DeviceConstants.

Module BlockType.
Definition CLB : Z := 0.
Definition IOB : Z := 1.
Definition BRAM_CONTENT : Z := 2.
Definition BRAM_INT : Z := 3.
Definition DSP : Z := 4.
Definition CLK : Z := 5.
Definition CFG : Z := 6.
Definition RESERVED : Z := 7.

(** The entries of [PROPERTIES] that the mapper reads. *)
Record props := {
  name : string;
  p_contains_routing : bool;
  p_contains_logic : bool;
  p_frames_per_column : Z;
}.

Definition PROPERTIES : gmap Z props :=
  <[CLB := {| name := "CLB"; p_contains_routing := true;
              p_contains_logic := true; p_frames_per_column := 36 |}]>
 (<[IOB := {| name := "IOB"; p_contains_routing := true;
              p_contains_logic := false; p_frames_per_column := 54 |}]>
 (<[BRAM_CONTENT := {| name := "BRAM"; p_contains_routing := false;
              p_contains_logic := true; p_frames_per_column := 64 |}]>
 (<[BRAM_INT := {| name := "BRAM_INT"; p_contains_routing := true;
              p_contains_logic := false; p_frames_per_column := 28 |}]>
 (<[CLK := {| name := "CLK"; p_contains_routing := true;
              p_contains_logic := false; p_frames_per_column := 4 |}]>
   ∅)))).

Definition get_name (block_type : Z) : string :=
  match PROPERTIES !! block_type with
  | Some p => name p
  | None => "UNKNOWN"
  end.

Definition get_properties (block_type : Z) : option props :=
  PROPERTIES !! block_type.

(** [props.get('contains_routing', False)] on the (possibly empty) dict. *)
Definition contains_routing (block_type : Z) : bool :=
  from_option p_contains_routing false (get_properties block_type).

Definition contains_logic (block_type : Z) : bool :=
  from_option p_contains_logic false (get_properties block_type).
End BlockType.

Module ColumnClassification.
Inductive col_type := COL_TYPE_CLB | COL_TYPE_IOB | COL_TYPE_BRAM
                    | COL_TYPE_CLK | COL_TYPE_UNKNOWN.

Record entry := {
  e_type : col_type;
  e_tile_types : list string;
  e_frames : Z;
  e_routing_frames : Z;
  e_logic_frames : Z;
}.

Definition iob (t : string) : entry :=
  {| e_type := COL_TYPE_IOB; e_tile_types := [t; "INT"];
     e_frames := 54; e_routing_frames := 54; e_logic_frames := 0 |}.
Definition clb (t : string) : entry :=
  {| e_type := COL_TYPE_CLB; e_tile_types := [t; "INT"];
     e_frames := 36; e_routing_frames := 22; e_logic_frames := 14 |}.
Definition bram : entry :=
  {| e_type := COL_TYPE_BRAM; e_tile_types := ["BRAM"; "BRAM_INT"];
     e_frames := 92; e_routing_frames := 28; e_logic_frames := 64 |}.
Definition clk : entry :=
  {| e_type := COL_TYPE_CLK; e_tile_types := ["HCLK"; "INT"];
     e_frames := 4; e_routing_frames := 4; e_logic_frames := 0 |}.

(** [COLUMN_MAP], columns 0 to 47 in order. *)
Definition COLUMN_LIST : list entry :=
  [ iob "LIOI";  clb "CLBLL"; clb "CLBLM"; clb "CLBLL";
    bram;        clb "CLBLL"; clb "CLBLM"; clb "CLBLL";
    bram;        clb "CLBLL"; clb "CLBLM"; clb "CLBLL";
    bram;        clb "CLBLL"; clb "CLBLM"; clb "CLBLL";
    bram;        clb "CLBLL"; clb "CLBLM"; clb "CLBLL";
    bram;        clb "CLBLL"; clb "CLBLM"; clk;
    clk;         clb "CLBLL"; clb "CLBLM"; clb "CLBLL";
    bram;        clb "CLBLL"; clb "CLBLM"; clb "CLBLL";
    bram;        clb "CLBLL"; clb "CLBLM"; clb "CLBLL";
    bram;        clb "CLBLL"; clb "CLBLM"; clb "CLBLL";
    bram;        clb "CLBLL"; clb "CLBLM"; clb "CLBLL";
    bram;        clb "CLBLL"; clb "CLBLM"; iob "RIOI" ].

Definition COLUMN_MAP : gmap Z entry :=
  list_to_map (zip (seqZ 0 48) COLUMN_LIST).

Definition get_column_type (major : Z) : col_type :=
  from_option e_type COL_TYPE_UNKNOWN (COLUMN_MAP !! major).

Definition get_tile_types_in_column (major : Z) : list string :=
  from_option e_tile_types [] (COLUMN_MAP !! major).

Definition get_frames_per_column (major : Z) : Z :=
  from_option e_frames 0 (COLUMN_MAP !! major).

Definition get_routing_frames_count (major : Z) : Z :=
  from_option e_routing_frames 0 (COLUMN_MAP !! major).

Definition get_logic_frames_count (major : Z) : Z :=
  from_option e_logic_frames 0 (COLUMN_MAP !! major).

Definition is_routing_frame (major minor : Z) : bool :=
  bool_decide (minor < get_routing_frames_count major).
End ColumnClassification.

Module FrameAddress.
Definition BLOCK_TYPE_START : Z := 23.
Definition TOP_BIT : Z := 22.
Definition MAJOR_START : Z := 17.
Definition MINOR_START : Z := 0.

Definition MAX_BLOCK_TYPE : Z := 7.
Definition MAX_MAJOR : Z := DeviceConstants.TOTAL_COLUMNS - 1.

Record fields := {
  block_type : Z;
  top_bottom : Z;
  major : Z;
  minor : Z;
}.

Definition decode (far_value : Z) : fields :=
  {| block_type := Z.land (Z.shiftr far_value BLOCK_TYPE_START) 0x7;
     top_bottom := Z.land (Z.shiftr far_value TOP_BIT) 0x1;
     major := Z.land (Z.shiftr far_value MAJOR_START) 0x3F;
     minor := Z.land (Z.shiftr far_value MINOR_START) 0x1FFFF |}.

Definition encode (block_type top_bottom major minor : Z) : Z :=
  let far_value := 0 in
  let far_value :=
    Z.lor far_value (Z.shiftl (Z.land block_type 0x7) BLOCK_TYPE_START) in
  let far_value :=
    Z.lor far_value (Z.shiftl (Z.land top_bottom 0x1) TOP_BIT) in
  let far_value :=
    Z.lor far_value (Z.shiftl (Z.land major 0x3F) MAJOR_START) in
  let far_value :=
    Z.lor far_value (Z.shiftl (Z.land minor 0x1FFFF) MINOR_START) in
  far_value.

(** [validate] returns [(is_valid, message)]; only the flag is kept. *)
Definition validate (far_value : Z) : bool :=
  let f := decode far_value in
  if bool_decide (block_type f > MAX_BLOCK_TYPE) then false
  else if bool_decide (major f > MAX_MAJOR) then false
  else match ColumnClassification.get_column_type (major f) with
       | ColumnClassification.COL_TYPE_UNKNOWN => false
       | _ =>
           let max_frames :=
             ColumnClassification.get_frames_per_column (major f) in
           if bool_decide (minor f >= max_frames) then false else true
       end.
End FrameAddress.

(** ** Section E of [frame_rules.py]: frame coverage *)

Module FrameCoverage.
Definition TILES_PER_FRAME_HEIGHT : Z := 20.
Definition TILES_PER_HALF : Z := 80.
Definition TOTAL_TILE_ROWS : Z := 160.

Definition get_tiles_configured_by_frame (far_value : Z) : list string :=
  let fields := FrameAddress.decode far_value in
  let top_bottom := FrameAddress.top_bottom fields in
  let major := FrameAddress.major fields in
  let minor := FrameAddress.minor fields in
  let tile_types := ColumnClassification.get_tile_types_in_column major in
  match tile_types with
  | [] => []
  | _ =>
      let tiles_per_frame := TILES_PER_FRAME_HEIGHT in
      let y_base := if decide (top_bottom = 1) then TILES_PER_HALF else 0 in
      let y_start := y_base + minor * tiles_per_frame in
      let y_end := y_start + tiles_per_frame in
      tile_type ← tile_types;
      y ← seqZ y_start (Z.min y_end TOTAL_TILE_ROWS - y_start);
      [tile_type +:+ "_X" +:+ pretty major +:+ "Y" +:+ pretty y]
  end.
End FrameCoverage.

(** ** Section F of [frame_rules.py]: bit regions *)

Module BitRegions.
Definition REGION_TYPE_ROUTING : string := "routing".
Definition REGION_TYPE_LOGIC : string := "logic".
Definition REGION_TYPE_CONTROL : string := "control".
Definition REGION_TYPE_RESERVED : string := "reserved".
Definition REGION_TYPE_UNKNOWN : string := "unknown".

(** The region dictionaries, in insertion order. *)
Definition CLB_BIT_REGIONS : list (string * (Z * Z)) :=
  [ ("interconnect_routing", (0, 704));
    ("clb_routing", (704, 832));
    ("lut_init", (832, 1088));
    ("ff_init", (1088, 1120));
    ("mux_config", (1120, 1200));
    ("carry_config", (1200, 1250));
    ("control_signals", (1250, 1312)) ].

Definition IOB_BIT_REGIONS : list (string * (Z * Z)) :=
  [ ("io_routing", (0, 800));
    ("io_standard", (800, 850));
    ("drive_strength", (850, 900));
    ("iodelay_config", (900, 1100));
    ("io_registers", (1100, 1200));
    ("control", (1200, 1312)) ].

(** [needle in hay] on strings. *)
Fixpoint str_contains (needle hay : string) : bool :=
  String.prefix needle hay
  || match hay with
     | EmptyString => false
     | String _ hay' => str_contains needle hay'
     end.

(** The loop over [CLB_BIT_REGIONS.items()]: the first region that holds
    [bit_offset] decides; [None] when the loop ends without a [return]. *)
Fixpoint clb_region_loop (regions : list (string * (Z * Z)))
    (bit_offset : Z) : option string :=
  match regions with
  | [] => None
  | (region_name, (start, end_)) :: regions' =>
      if bool_decide (start <= bit_offset) && bool_decide (bit_offset < end_)
      then Some (if str_contains "routing" region_name
                 then REGION_TYPE_ROUTING
                 else if str_contains "lut" region_name
                         || str_contains "ff" region_name
                 then REGION_TYPE_LOGIC
                 else REGION_TYPE_CONTROL)
      else clb_region_loop regions' bit_offset
  end.

Fixpoint iob_region_loop (regions : list (string * (Z * Z)))
    (bit_offset : Z) : option string :=
  match regions with
  | [] => None
  | (region_name, (start, end_)) :: regions' =>
      if bool_decide (start <= bit_offset) && bool_decide (bit_offset < end_)
      then Some (if str_contains "routing" region_name
                 then REGION_TYPE_ROUTING
                 else REGION_TYPE_LOGIC)
      else iob_region_loop regions' bit_offset
  end.

Definition get_bit_region_type (far_value bit_offset : Z) : string :=
  let fields := FrameAddress.decode far_value in
  let block_type := FrameAddress.block_type fields in
  if decide (block_type = BlockType.CLB) then
    default REGION_TYPE_UNKNOWN (clb_region_loop CLB_BIT_REGIONS bit_offset)
  else if decide (block_type = BlockType.IOB) then
    default REGION_TYPE_UNKNOWN (iob_region_loop IOB_BIT_REGIONS bit_offset)
  else if decide (block_type = BlockType.BRAM_CONTENT) then
    REGION_TYPE_LOGIC
  else if decide (block_type = BlockType.BRAM_INT) then REGION_TYPE_ROUTING
  else if decide (block_type = BlockType.CLK) then REGION_TYPE_ROUTING
  else REGION_TYPE_UNKNOWN.

Definition get_routing_bits_in_frame (far_value : Z) : list Z :=
  let fields := FrameAddress.decode far_value in
  let block_type := FrameAddress.block_type fields in
  if decide (block_type = BlockType.CLB) then seqZ 0 832
  else if decide (block_type = BlockType.IOB) then seqZ 0 800
  else if decide (block_type = BlockType.BRAM_INT) then seqZ 0 1312
  else if decide (block_type = BlockType.CLK) then seqZ 0 1312
  else [].

Definition get_logic_bits_in_frame (far_value : Z) : list Z :=
  let fields := FrameAddress.decode far_value in
  let block_type := FrameAddress.block_type fields in
  if decide (block_type = BlockType.CLB) then seqZ 832 (1200 - 832)
  else if decide (block_type = BlockType.BRAM_CONTENT) then seqZ 0 1312
  else [].
End BitRegions.

(** ** Section G of [frame_rules.py]: validation rules *)

Module ValidationRules.
(** [[int(b) for byte in frame for b in f'{byte:08b}']]: the bits of every
    byte, most significant first. *)
Definition bits_of_bytes (frame : list byte) : list bool :=
  byte ← frame;
  (λ k, Z.testbit (Z.of_N (Byte.to_N byte)) k) <$> [7; 6; 5; 4; 3; 2; 1; 0].

(** The keys of the dictionary that [detect_routing_modification] returns;
    [block_type] is the name of the block type. *)
Record modification := {
  m_far_value : Z;
  m_block_type : string;
  m_column : Z;
  m_minor : Z;
  routing_bits_modified : Z;
  logic_bits_modified : Z;
  other_bits_modified : Z;
  total_bits_modified : Z;
  routing_bit_positions : list Z;
  logic_bit_positions : list Z;
  severity_score : Z;
  m_is_suspicious : bool;
  m_tiles_affected : list string;
}.

(** The loop that sorts the differing bit positions into routing, logic
    and other differences. *)
Definition sort_differences (routing_bits logic_bits : list Z)
    (orig_bits mod_bits : list bool) : list Z * list Z * list Z :=
  foldl (λ '(routing_diffs, logic_diffs, other_diffs) i,
           if decide (orig_bits !! Z.to_nat i ≠ mod_bits !! Z.to_nat i) then
             if bool_decide (i ∈ routing_bits)
             then (routing_diffs ++ [i], logic_diffs, other_diffs)
             else if bool_decide (i ∈ logic_bits)
             then (routing_diffs, logic_diffs ++ [i], other_diffs)
             else (routing_diffs, logic_diffs, other_diffs ++ [i])
           else (routing_diffs, logic_diffs, other_diffs))
        ([], [], [])
        (seqZ 0 (Z.of_nat (length orig_bits `min` length mod_bits))).

(** [None] stands for the dictionary [{'error': 'Frame length mismatch'}]. *)
Definition detect_routing_modification
    (original_frame modified_frame : list byte) (far_value : Z)
  : option modification :=
  if decide (length original_frame ≠ length modified_frame) then None
  else
    let routing_bits := BitRegions.get_routing_bits_in_frame far_value in
    let logic_bits := BitRegions.get_logic_bits_in_frame far_value in
    let orig_bits := bits_of_bytes original_frame in
    let mod_bits := bits_of_bytes modified_frame in
    let '(routing_diffs, logic_diffs, other_diffs) :=
      sort_differences routing_bits logic_bits orig_bits mod_bits in
    let n_routing := Z.of_nat (length routing_diffs) in
    let n_logic := Z.of_nat (length logic_diffs) in
    let n_other := Z.of_nat (length other_diffs) in
    let severity := n_routing * 10 + n_logic * 5 + n_other * 1 in
    let is_suspicious :=
      bool_decide (n_routing > 0) && bool_decide (n_routing < 20) in
    let fields := FrameAddress.decode far_value in
    Some {| m_far_value := far_value;
            m_block_type :=
              BlockType.get_name (FrameAddress.block_type fields);
            m_column := FrameAddress.major fields;
            m_minor := FrameAddress.minor fields;
            routing_bits_modified := n_routing;
            logic_bits_modified := n_logic;
            other_bits_modified := n_other;
            total_bits_modified := n_routing + n_logic + n_other;
            routing_bit_positions := take 50 routing_diffs;
            logic_bit_positions := take 50 logic_diffs;
            severity_score := severity;
            m_is_suspicious := is_suspicious;
            m_tiles_affected :=
              FrameCoverage.get_tiles_configured_by_frame far_value |}.

Definition is_frame_in_used_region (far_value : Z) (used_tiles : gset string)
  : bool :=
  let frame_tiles : gset string :=
    list_to_set (FrameCoverage.get_tiles_configured_by_frame far_value) in
  bool_decide (frame_tiles ∩ used_tiles ≠ ∅).
End ValidationRules.

(* ===================================================================== *)
(** * analysis/assembler/column_mapper.py                                 *)
(* ===================================================================== *)

Module ColumnMapper.
Inductive ColumnType := CLB | IOB | BRAM | CLK | UNKNOWN.

#[global] Instance ColumnType_eq_dec : EqDecision ColumnType.
Proof. solve_decision. Defined.

Record ColumnDescriptor := {
  column_index : Z;
  column_type : ColumnType;
  tile_types : list string;
  frames_per_column : Z;
  routing_frame_count : Z;
  logic_frame_count : Z;
  contains_routing : bool;
  contains_logic : bool;
  block_type_default : Z;
  is_security_critical : bool;
}.

Definition get_block_type_for_minor (d : ColumnDescriptor) (minor : Z) : Z :=
  if decide (column_type d = BRAM) then
    if bool_decide (minor < 28) then BlockType.BRAM_INT
    else BlockType.BRAM_CONTENT
  else block_type_default d.

Definition is_minor_valid (d : ColumnDescriptor) (minor : Z) : bool :=
  bool_decide (0 <= minor) && bool_decide (minor < frames_per_column d).

Definition is_routing_frame (d : ColumnDescriptor) (minor : Z) : bool :=
  bool_decide (minor < routing_frame_count d).

(** [ColumnType(col_type_str)]. *)
Definition ColumnType_of (c : ColumnClassification.col_type) : ColumnType :=
  match c with
  | ColumnClassification.COL_TYPE_CLB => CLB
  | ColumnClassification.COL_TYPE_IOB => IOB
  | ColumnClassification.COL_TYPE_BRAM => BRAM
  | ColumnClassification.COL_TYPE_CLK => CLK
  | ColumnClassification.COL_TYPE_UNKNOWN => UNKNOWN
  end.

(** One iteration of the loop of [_build_column_descriptors]. *)
Definition build_descriptor (col_idx : Z) : ColumnDescriptor :=
  let col_type :=
    ColumnType_of (ColumnClassification.get_column_type col_idx) in
  let tile_types := ColumnClassification.get_tile_types_in_column col_idx in
  let total_frames := ColumnClassification.get_frames_per_column col_idx in
  let routing_frames :=
    ColumnClassification.get_routing_frames_count col_idx in
  let logic_frames := ColumnClassification.get_logic_frames_count col_idx in
  let '(block_type_default, is_critical) :=
    match col_type with
    | CLB => (BlockType.CLB, true)
    | BRAM => (BlockType.BRAM_CONTENT, true)
    | IOB => (BlockType.IOB, true)
    | CLK => (BlockType.CLK, true)
    | UNKNOWN => (BlockType.CLB, false)
    end in
  {| column_index := col_idx;
     column_type := col_type;
     tile_types := tile_types;
     frames_per_column := total_frames;
     routing_frame_count := routing_frames;
     logic_frame_count := logic_frames;
     contains_routing := bool_decide (routing_frames > 0);
     contains_logic := bool_decide (logic_frames > 0);
     block_type_default := block_type_default;
     is_security_critical := is_critical |}.

(** [self._column_descriptors], filled for
    [range(DeviceConstants.TOTAL_COLUMNS)]. *)
Definition _column_descriptors : gmap Z ColumnDescriptor :=
  list_to_map
    ((λ c, (c, build_descriptor c))
       <$> seqZ 0 DeviceConstants.TOTAL_COLUMNS).

Definition get_column_descriptor (column_index : Z)
  : option ColumnDescriptor :=
  _column_descriptors !! column_index.
Definition get_column_type (column_index : Z) : ColumnType :=
  from_option column_type UNKNOWN (get_column_descriptor column_index).

Definition get_block_type (column_index minor : Z) : option Z :=
  match get_column_descriptor column_index with
  | None => None
  | Some descriptor =>
      if negb (is_minor_valid descriptor minor) then None
      else Some (get_block_type_for_minor descriptor minor)
  end.

(** [validate_column_minor] returns [(is_valid, message)]; only the flag
    is kept. *)
Definition validate_column_minor (column_index minor : Z) : bool :=
  match get_column_descriptor column_index with
  | None => false
  | Some descriptor => is_minor_valid descriptor minor
  end.

(** [self._type_to_columns], as [_build_reverse_indices] fills and sorts
    it; it has no entry for [UNKNOWN]. *)
Definition _type_to_columns (ty : ColumnType) : option (list Z) :=
  match ty with
  | UNKNOWN => None
  | _ =>
      Some (merge_sort Z.le
              (filter (λ col_idx, get_column_type col_idx = ty)
                      (seqZ 0 DeviceConstants.TOTAL_COLUMNS)))
  end.

Definition get_columns_by_type (ty : ColumnType) : list Z :=
  default [] (_type_to_columns ty).

Definition get_adjacent_columns (column_index : Z)
    (column_type_filter : option ColumnType) (max_distance : Z) : list Z :=
  let adjacent :=
    filter
      (λ target_col,
         bool_decide (target_col ≠ column_index)
         && bool_decide (0 <= target_col)
         && bool_decide (target_col < DeviceConstants.TOTAL_COLUMNS)
         && match get_column_descriptor target_col with
            | None => false
            | Some descriptor =>
                match column_type_filter with
                | None => true
                | Some ty => bool_decide (column_type descriptor = ty)
                end
            end = true)
      ((λ offset, column_index + offset)
         <$> seqZ (- max_distance) (max_distance + 1 - (- max_distance))) in
  merge_sort Z.le adjacent.

Definition is_security_critical_column (column_index : Z) : bool :=
  from_option is_security_critical false (get_column_descriptor column_index).
End ColumnMapper.

(* ===================================================================== *)
(** * analysis/assembler/frame_mapper.py                                  *)
(* ===================================================================== *)

Module FrameMapper.
Inductive ResourceCategory :=
| ROUTING | LOGIC | MEMORY | CLOCK | IO | CONTROL | UNKNOWN.

#[global] Instance ResourceCategory_eq_dec : EqDecision ResourceCategory.
Proof. solve_decision. Defined.

Definition ResourceCategory_to_nat (c : ResourceCategory) : nat :=
  match c with
  | ROUTING => 0 | LOGIC => 1 | MEMORY => 2 | CLOCK => 3
  | IO => 4 | CONTROL => 5 | UNKNOWN => 6
  end%nat.

Definition ResourceCategory_of_nat (n : nat) : option ResourceCategory :=
  match n with
  | 0 => Some ROUTING | 1 => Some LOGIC | 2 => Some MEMORY
  | 3 => Some CLOCK | 4 => Some IO | 5 => Some CONTROL
  | 6 => Some UNKNOWN | _ => None
  end%nat.

#[global] Program Instance ResourceCategory_countable
  : Countable ResourceCategory :=
  inj_countable ResourceCategory_to_nat ResourceCategory_of_nat _.
Next Obligation. by intros []. Qed.

(** The fields of the frozen dataclass [FrameCoverage] that the detector
    and the properties below read. *)
Record FrameCoverage := {
  far_value : Z;
  block_type_id : Z;
  column : Z;
  minor : Z;
  top_bottom : Z;
  tiles_affected : list string;
  y_range : Z * Z;
  resource_categories : gset ResourceCategory;
  is_routing_frame : bool;
  is_logic_frame : bool;
  is_memory_frame : bool;
  is_clock_frame : bool;
  is_io_frame : bool;
  is_valid : bool;
}.

Record TileRange := {
  x_coordinate : Z;
  y_start : Z;
  y_end : Z;
  tr_tile_types : list string;
}.

Definition _calculate_tile_range (column minor top_bottom : Z)
    (column_desc : ColumnMapper.ColumnDescriptor) : TileRange :=
  let tiles_per_frame := DeviceConstants.TILES_PER_ROW in
  let y_base := if decide (top_bottom = 1) then 80 else 0 in
  let y_start := y_base + minor * tiles_per_frame in
  let y_end := y_start + tiles_per_frame in
  let y_end := Z.min y_end DeviceConstants.TOTAL_TILE_ROWS in
  {| x_coordinate := column;
     y_start := y_start;
     y_end := y_end;
     tr_tile_types := ColumnMapper.tile_types column_desc |}.

(** [f"{tile_type}_X{x}Y{y}"]. *)
Definition tile_name (tile_type : string) (x y : Z) : string :=
  tile_type +:+ "_X" +:+ pretty x +:+ "Y" +:+ pretty y.

(** [range(a, b)] is empty when [b <= a]. *)
Definition range (a b : Z) : list Z := seqZ a (b - a).

Definition _generate_tile_names (tile_range : TileRange) : list string :=
  tile_type ← tr_tile_types tile_range;
  y ← range (y_start tile_range) (y_end tile_range);
  [tile_name tile_type (x_coordinate tile_range) y].

Definition _classify_resources (block_type : Z)
    (column_desc : ColumnMapper.ColumnDescriptor) (minor : Z)
  : gset ResourceCategory :=
  let categories : gset ResourceCategory := ∅ in
  let categories :=
    if BlockType.contains_routing block_type
    then categories ∪ {[ROUTING]} else categories in
  let categories :=
    if BlockType.contains_logic block_type
    then categories ∪ {[LOGIC]} else categories in
  let categories :=
    if decide (block_type = BlockType.CLB) then
      if ColumnMapper.is_routing_frame column_desc minor
      then categories ∪ {[ROUTING]}
      else categories ∪ {[LOGIC]}
    else if decide (block_type = BlockType.IOB) then
      categories ∪ {[IO]} ∪ {[ROUTING]}
    else if decide (block_type = BlockType.BRAM_CONTENT) then
      categories ∪ {[MEMORY]}
    else if decide (block_type = BlockType.BRAM_INT) then
      categories ∪ {[ROUTING]}
    else if decide (block_type = BlockType.CLK) then
      categories ∪ {[CLOCK]} ∪ {[ROUTING]}
    else categories in
  let categories :=
    if bool_decide
         (block_type ∈ [BlockType.CLB; BlockType.IOB; BlockType.CLK])
    then categories ∪ {[CONTROL]} else categories in
  if decide (categories = ∅) then {[UNKNOWN]} else categories.

Definition _create_invalid_coverage (far_value : Z) : FrameCoverage :=
  {| far_value := far_value;
     block_type_id := -1;
     column := -1;
     minor := -1;
     top_bottom := -1;
     tiles_affected := [];
     y_range := (0, 0);
     resource_categories := {[UNKNOWN]};
     is_routing_frame := false;
     is_logic_frame := false;
     is_memory_frame := false;
     is_clock_frame := false;
     is_io_frame := false;
     is_valid := false |}.

(** [map_frame]: the [lru_cache] only memoises a pure function. *)
Definition map_frame (far_value : Z) : FrameCoverage :=
  let is_valid := FrameAddress.validate far_value in
  let fields := FrameAddress.decode far_value in
  let block_type_id := FrameAddress.block_type fields in
  let top_bottom := FrameAddress.top_bottom fields in
  let major := FrameAddress.major fields in
  let minor := FrameAddress.minor fields in
  match ColumnMapper.get_column_descriptor major with
  | None => _create_invalid_coverage far_value
  | Some column_desc =>
      let expected_block :=
        ColumnMapper.get_block_type_for_minor column_desc minor in
      let block_warning := bool_decide (expected_block ≠ block_type_id) in
      let tile_range :=
        _calculate_tile_range major minor top_bottom column_desc in
      let tiles := _generate_tile_names tile_range in
      let categories :=
        _classify_resources block_type_id column_desc minor in
      {| far_value := far_value;
         block_type_id := block_type_id;
         column := major;
         minor := minor;
         top_bottom := top_bottom;
         tiles_affected := tiles;
         y_range := (y_start tile_range, y_end tile_range);
         resource_categories := categories;
         is_routing_frame := bool_decide (ROUTING ∈ categories);
         is_logic_frame := bool_decide (LOGIC ∈ categories);
         is_memory_frame := bool_decide (MEMORY ∈ categories);
         is_clock_frame := bool_decide (CLOCK ∈ categories);
         is_io_frame := bool_decide (IO ∈ categories);
         is_valid := is_valid && negb block_warning |}
  end.
Inductive TrojanRiskLevel := RISK_CRITICAL | RISK_HIGH | RISK_MEDIUM | RISK_LOW.

#[global] Instance TrojanRiskLevel_eq_dec : EqDecision TrojanRiskLevel.
Proof. solve_decision. Defined.

(** [(routing_ranges, logic_ranges)]. *)
Definition _get_bit_semantics (block_type minor : Z)
    (column_desc : ColumnMapper.ColumnDescriptor)
  : list (Z * Z) * list (Z * Z) :=
  if decide (block_type = BlockType.CLB) then
    if ColumnMapper.is_routing_frame column_desc minor
    then ([(0, 832)], [])
    else ([], [(832, 1200)])
  else if decide (block_type = BlockType.IOB) then
    ([(0, 800)], [(800, 1312)])
  else if decide (block_type = BlockType.BRAM_CONTENT) then
    ([], [(0, 1312)])
  else if decide (block_type = BlockType.BRAM_INT) then ([(0, 1312)], [])
  else if decide (block_type = BlockType.CLK) then ([(0, 1312)], [])
  else ([], []).

Definition _assess_trojan_risk (block_type : Z)
    (column_desc : ColumnMapper.ColumnDescriptor) (minor : Z)
    (categories : gset ResourceCategory)
  : TrojanRiskLevel * list string :=
  if bool_decide (CLOCK ∈ categories) then
    (RISK_CRITICAL, ["clock_network_tampering"; "timing_manipulation"])
  else if decide (ColumnMapper.column_type column_desc = ColumnMapper.IOB)
  then (RISK_CRITICAL, ["data_exfiltration"; "covert_channel_creation"])
  else if bool_decide (ROUTING ∈ categories)
          && bool_decide (block_type = BlockType.CLB)
  then (RISK_HIGH, ["routing_detour"; "minimal_modification_trojan";
                    "unused_region_routing"])
  else if decide (block_type = BlockType.BRAM_INT)
  then (RISK_HIGH, ["memory_access_interception";
                    "data_flow_manipulation"])
  else if bool_decide (LOGIC ∈ categories)
  then (RISK_MEDIUM, ["hidden_logic_insertion";
                      "lut_truth_table_modification"])
  else if bool_decide (MEMORY ∈ categories)
  then (RISK_MEDIUM, ["malicious_payload_storage"])
  else (RISK_LOW, []).

(** The [trojan_risk_level] and [attack_vectors] that [map_frame] stores
    in the coverage of [far_value]. *)
Definition trojan_risk (far_value : Z) : TrojanRiskLevel * list string :=
  let fields := FrameAddress.decode far_value in
  let block_type_id := FrameAddress.block_type fields in
  let major := FrameAddress.major fields in
  let minor := FrameAddress.minor fields in
  match ColumnMapper.get_column_descriptor major with
  | None => (RISK_LOW, [])
  | Some column_desc =>
      _assess_trojan_risk block_type_id column_desc minor
        (_classify_resources block_type_id column_desc minor)
  end.

(** The [routing_bit_ranges] and [logic_bit_ranges] that [map_frame]
    stores in the coverage of [far_value]. *)
Definition bit_ranges (far_value : Z) : list (Z * Z) * list (Z * Z) :=
  let fields := FrameAddress.decode far_value in
  match ColumnMapper.get_column_descriptor (FrameAddress.major fields) with
  | None => ([], [])
  | Some column_desc =>
      _get_bit_semantics (FrameAddress.block_type fields)
        (FrameAddress.minor fields) column_desc
  end.

Definition get_tiles_for_frame (far_value : Z) : list string :=
  tiles_affected (map_frame far_value).

Definition get_resource_type (far_value : Z) : ResourceCategory :=
  let coverage := map_frame far_value in
  if is_routing_frame coverage then ROUTING
  else if is_logic_frame coverage then LOGIC
  else if is_memory_frame coverage then MEMORY
  else if is_clock_frame coverage then CLOCK
  else UNKNOWN.

Definition get_neighboring_frames (far_value distance : Z) : list Z :=
  let fields := FrameAddress.decode far_value in
  let same_column :=
    omap (λ minor_offset,
            if decide (minor_offset = 0) then None
            else
              let new_minor := FrameAddress.minor fields + minor_offset in
              if bool_decide (new_minor >= 0) then
                let new_far :=
                  FrameAddress.encode (FrameAddress.block_type fields)
                    (FrameAddress.top_bottom fields)
                    (FrameAddress.major fields) new_minor in
                if FrameAddress.validate new_far then Some new_far else None
              else None)
         (seqZ (- distance) (distance + 1 - (- distance))) in
  let adjacent_columns :=
    omap (λ col_offset,
            let new_col := FrameAddress.major fields + col_offset in
            if bool_decide (0 <= new_col)
               && bool_decide (new_col < DeviceConstants.TOTAL_COLUMNS) then
              match ColumnMapper.get_column_descriptor new_col with
              | None => None
              | Some col_desc =>
                  let new_block :=
                    ColumnMapper.get_block_type_for_minor col_desc
                      (FrameAddress.minor fields) in
                  let new_far :=
                    FrameAddress.encode new_block
                      (FrameAddress.top_bottom fields) new_col
                      (FrameAddress.minor fields) in
                  if FrameAddress.validate new_far then Some new_far
                  else None
              end
            else None)
         [-1; 1] in
  same_column ++ adjacent_columns.
End FrameMapper.

(* ===================================================================== *)
(** * src/mapping/integration/frame_obj_adapter.py                        *)
(* ===================================================================== *)

#[global] Instance byte_eq_dec : EqDecision byte := Byte.byte_eq_dec.

Definition byte_val (b : byte) : Z := Z.of_N (Byte.to_N b).

Module AdaptedFrame.
Record t := {
  far_value : Z;
  block_type : Z;
  top_bottom : Z;
  column : Z;
  major : Z;
  minor : Z;
  frame_data : list byte;
  frame_index : Z;
  data_word_count : Z;
}.
End AdaptedFrame.

Module FrameDataExtractor.
(** [frame_data[byte_index]] for a non-negative index. *)
Definition byte_at (frame_data : list byte) (byte_index : Z) : result Z :=
  match frame_data !! Z.to_nat byte_index with
  | Some b => Ok (byte_val b)
  | None => Raise IndexError
  end.

Definition extract_bit (frame_data : list byte) (bit_offset : Z)
  : result bool :=
  if negb (bool_decide (0 <= bit_offset) && bool_decide (bit_offset < 1312))
  then Raise ValueError
  else
    let byte_index := bit_offset / 8 in
    let bit_in_byte := 7 - bit_offset `mod` 8 in
    byte_val ← byte_at frame_data byte_index;
    Ok (negb (Z.land (Z.shiftr byte_val bit_in_byte) 1 =? 0)).

Definition compare_frames (frame1 frame2 : list byte) : result (list Z) :=
  if negb (bool_decide (length frame1 = length frame2))
  then Raise ValueError
  else
    collectM
      (λ bit_offset,
         bit1 ← extract_bit frame1 bit_offset;
         bit2 ← extract_bit frame2 bit_offset;
         Ok (if negb (eqb bit1 bit2) then [bit_offset] else []))
      (seqZ 0 1312).

(** [bin(byte).count('1')]. *)
Fixpoint ones (p : positive) : Z :=
  match p with
  | xH => 1
  | xO q => ones q
  | xI q => 1 + ones q
  end.

Definition bin_count_1 (v : Z) : Z :=
  match v with
  | Zpos p => ones p
  | _ => 0
  end.

Definition count_set_bits (frame_data : list byte) : Z :=
  foldr (λ b acc, bin_count_1 (byte_val b) + acc) 0 frame_data.
(** [extract_bits]: every set bit of the range is or-ed into [result] at
    position [end_bit - bit_offset - 1]. *)
Definition extract_bits (frame_data : list byte) (start_bit end_bit : Z)
  : result Z :=
  if bool_decide (start_bit >= end_bit) then Raise ValueError
  else
    foldl (λ acc bit_offset,
             result ← acc;
             bit_val ← extract_bit frame_data bit_offset;
             Ok (if bit_val : bool
                 then Z.lor result (Z.shiftl 1 (end_bit - bit_offset - 1))
                 else result))
          (Ok 0) (seqZ start_bit (end_bit - start_bit)).

Definition is_default_frame (frame_data : list byte) : bool :=
  bool_decide (frame_data = replicate 164 x00).
End FrameDataExtractor.

(* ===================================================================== *)
(** * src/mapping/integration/bitstream_loader.py                         *)
(* ===================================================================== *)

Module LoadedBitstream.
(** The per-column and per-block indices and the [info] statistics are
    not read by the detector and are left out. *)
Record t := {
  frames : list AdaptedFrame.t;
  _frame_by_far : gmap Z AdaptedFrame.t;
  _write_history : gmap Z (list AdaptedFrame.t);
}.

(** One iteration of the loop of [_build_indices]. *)
Definition index_frame (frame : AdaptedFrame.t)
    (acc : gmap Z AdaptedFrame.t * gmap Z (list AdaptedFrame.t))
  : gmap Z AdaptedFrame.t * gmap Z (list AdaptedFrame.t) :=
  let '(by_far, history) := acc in
  let far := AdaptedFrame.far_value frame in
  (<[far := frame]> by_far,
   <[far := default [] (history !! far) ++ [frame]]> history).

(** [LoadedBitstream(info, frames)]. *)
Definition __init__ (frames : list AdaptedFrame.t) : t :=
  let '(by_far, history) := foldl (flip index_frame) (∅, ∅) frames in
  {| frames := frames; _frame_by_far := by_far; _write_history := history |}.

Definition get_frame (self : t) (far_value : Z) : option AdaptedFrame.t :=
  _frame_by_far self !! far_value.

Definition get_write_history (self : t) (far_value : Z)
  : list AdaptedFrame.t :=
  default [] (_write_history self !! far_value).

(** [sorted(self._frame_by_far.keys())]. *)
Definition get_all_far_values (self : t) : list Z :=
  merge_sort Z.le (map_to_list (_frame_by_far self)).*1.

Definition __len__ (self : t) : Z := Z.of_nat (length (frames self)).
Definition get_write_history_bytes (self : t) (far_value : Z)
  : list (list byte) :=
  AdaptedFrame.frame_data <$> default [] (_write_history self !! far_value).

Definition get_first_nonmatching_write (self : t) (far_value : Z)
    (reference_data : list byte) : option AdaptedFrame.t :=
  head (filter (λ frame, AdaptedFrame.frame_data frame ≠ reference_data)
               (default [] (_write_history self !! far_value))).
End LoadedBitstream.

(* ===================================================================== *)
(** * src/detector/baseline/golden_baseline.py, baseline_builder.py       *)
(* ===================================================================== *)

Module GoldenBaseline.
(** Fingerprints, per-column and per-block statistics and the validation
    flags are not read by the detector and are left out. *)
Record t := {
  _frames : gmap Z AdaptedFrame.t;
  _write_history : gmap Z (list (list byte));
  configured_fars : gset Z;
  used_tiles : gset string;
}.

Definition __init__ : t :=
  {| _frames := ∅; _write_history := ∅;
     configured_fars := ∅; used_tiles := ∅ |}.

Definition add_frame (self : t) (frame : AdaptedFrame.t) : t :=
  let far := AdaptedFrame.far_value frame in
  {| _frames := <[far := frame]> (_frames self);
     _write_history := _write_history self;
     configured_fars := configured_fars self ∪ {[far]};
     used_tiles := used_tiles self |}.

Definition add_frames (self : t) (frames : list AdaptedFrame.t) : t :=
  foldl add_frame self frames.

Definition set_write_history (self : t) (far_value : Z)
    (history : list (list byte)) : t :=
  match history with
  | [] => self
  | _ =>
      {| _frames := _frames self;
         _write_history := <[far_value := history]> (_write_history self);
         configured_fars := configured_fars self;
         used_tiles := used_tiles self |}
  end.

Definition set_bulk_write_history (self : t)
    (history_map : gmap Z (list (list byte))) : t :=
  map_fold (λ far history acc, set_write_history acc far history)
           self history_map.

Definition set_used_tiles (self : t) (tiles : gset string) : t :=
  {| _frames := _frames self;
     _write_history := _write_history self;
     configured_fars := configured_fars self;
     used_tiles := tiles |}.

Definition has_frame (self : t) (far_value : Z) : bool :=
  bool_decide (is_Some (_frames self !! far_value)).

Definition get_frame (self : t) (far_value : Z) : option AdaptedFrame.t :=
  _frames self !! far_value.

Definition get_write_history (self : t) (far_value : Z)
  : list (list byte) :=
  default [] (_write_history self !! far_value).

Definition is_tile_used (self : t) (tile_name : string) : bool :=
  bool_decide (tile_name ∈ used_tiles self).

Definition get_expected_frames (self : t) : gset Z := configured_fars self.

Definition __len__ (self : t) : Z := Z.of_nat (size (_frames self)).

(** [GoldenBaselineBuilder.build_from_loaded], without the file hash. *)
Definition build_from_loaded (loaded_bitstream : LoadedBitstream.t) : t :=
  let golden := __init__ in
  let golden := add_frames golden (LoadedBitstream.frames loaded_bitstream) in
  set_bulk_write_history golden
    ((λ history : list AdaptedFrame.t, AdaptedFrame.frame_data <$> history)
       <$> LoadedBitstream._write_history loaded_bitstream).
Definition get_frame_data (self : t) (far_value : Z) : option (list byte) :=
  AdaptedFrame.frame_data <$> get_frame self far_value.

Definition verify_frame (self : t) (far_value : Z) (suspect_data : list byte)
  : bool :=
  match get_frame_data self far_value with
  | None => false
  | Some golden_data => bool_decide (golden_data = suspect_data)
  end.

(** [None] when the frame is not in the golden baseline. *)
Definition find_differences (self : t) (far_value : Z)
    (suspect_data : list byte) : result (option (list Z)) :=
  match get_frame_data self far_value with
  | None => Ok None
  | Some golden_data =>
      if decide (golden_data = suspect_data) then Ok (Some [])
      else Some <$> FrameDataExtractor.compare_frames golden_data suspect_data
  end.
End GoldenBaseline.

(** ** The other methods of [GoldenBaselineBuilder] *)

Module GoldenBaselineBuilder.
(** The statistics of [compare_baselines] that are integers. *)
Record comparison := {
  frames_in_1 : Z;
  frames_in_2 : Z;
  common_frames : Z;
  only_in_1 : Z;
  only_in_2 : Z;
  data_differences : Z;
}.

Definition compare_baselines (golden1 golden2 : GoldenBaseline.t)
  : comparison :=
  let fars1 := GoldenBaseline.get_expected_frames golden1 in
  let fars2 := GoldenBaseline.get_expected_frames golden2 in
  let common_fars := fars1 ∩ fars2 in
  let only_in_1 := fars1 ∖ fars2 in
  let only_in_2 := fars2 ∖ fars1 in
  let data_differences :=
    filter (λ far, GoldenBaseline.get_frame_data golden1 far
                   ≠ GoldenBaseline.get_frame_data golden2 far)
           (elements common_fars) in
  {| frames_in_1 := GoldenBaseline.__len__ golden1;
     frames_in_2 := GoldenBaseline.__len__ golden2;
     common_frames := Z.of_nat (size common_fars);
     only_in_1 := Z.of_nat (size only_in_1);
     only_in_2 := Z.of_nat (size only_in_2);
     data_differences := Z.of_nat (length data_differences) |}.

(** The body of the inner loop of [merge_baselines]. *)
Definition merge_frame (baseline merged : GoldenBaseline.t) (far : Z)
  : GoldenBaseline.t :=
  if negb (GoldenBaseline.has_frame merged far) then
    match GoldenBaseline.get_frame baseline far with
    | Some frame => GoldenBaseline.add_frame merged frame
    | None => merged
    end
  else merged.

Definition merge_baselines (baselines : list GoldenBaseline.t)
  : GoldenBaseline.t :=
  let merged := GoldenBaseline.__init__ in
  let merged :=
    foldl (λ merged baseline,
             foldl (merge_frame baseline) merged
                   (elements (GoldenBaseline.get_expected_frames baseline)))
          merged baselines in
  let all_used_tiles :=
    foldl (λ all_used_tiles baseline,
             all_used_tiles ∪ GoldenBaseline.used_tiles baseline)
          (∅ : gset string) baselines in
  GoldenBaseline.set_used_tiles merged all_used_tiles.

Definition create_minimal_baseline (fars : list Z) : GoldenBaseline.t :=
  foldl (λ golden far,
           let fields := FrameAddress.decode far in
           let empty_data := replicate 164 x00 in
           let frame :=
             {| AdaptedFrame.far_value := far;
                AdaptedFrame.block_type := FrameAddress.block_type fields;
                AdaptedFrame.top_bottom := FrameAddress.top_bottom fields;
                AdaptedFrame.column := FrameAddress.major fields;
                AdaptedFrame.major := FrameAddress.major fields;
                AdaptedFrame.minor := FrameAddress.minor fields;
                AdaptedFrame.frame_data := empty_data;
                AdaptedFrame.frame_index := 0;
                AdaptedFrame.data_word_count := 41 |} in
           GoldenBaseline.add_frame golden frame)
        GoldenBaseline.__init__ fars.
End GoldenBaselineBuilder.

(* ===================================================================== *)
(** * src/detector/differential/frame_anomaly.py                          *)
(* ===================================================================== *)

Inductive AnomalyType :=
| FRAME_ADDED | FRAME_REMOVED | FRAME_MODIFIED | UNUSED_REGION_MOD
| ROUTING_CHANGE | LOGIC_CHANGE | CLOCK_CHANGE | IO_CHANGE.

#[global] Instance AnomalyType_eq_dec : EqDecision AnomalyType.
Proof. solve_decision. Defined.

(** [anomaly_type.value]. *)
Definition AnomalyType_value (t : AnomalyType) : string :=
  match t with
  | FRAME_ADDED => "frame_added"
  | FRAME_REMOVED => "frame_removed"
  | FRAME_MODIFIED => "frame_modified"
  | UNUSED_REGION_MOD => "unused_region_mod"
  | ROUTING_CHANGE => "routing_change"
  | LOGIC_CHANGE => "logic_change"
  | CLOCK_CHANGE => "clock_change"
  | IO_CHANGE => "io_change"
  end.

Inductive SeverityLevel := CRITICAL | HIGH | MEDIUM | LOW | INFO.

#[global] Instance SeverityLevel_eq_dec : EqDecision SeverityLevel.
Proof. solve_decision. Defined.

Module FrameAnomaly.
Record t := {
  anomaly_type : AnomalyType;
  severity : SeverityLevel;
  far_value : Z;
  block_type : Z;
  column : Z;
  minor : Z;
  top_bottom : Z;
  tiles_affected : list string;
  tiles_used : list string;
  tiles_unused : list string;
  bits_changed : Z;
  changed_bit_positions : list Z;
  is_routing_frame : bool;
  is_logic_frame : bool;
  is_clock_frame : bool;
  is_io_frame : bool;
  golden_data : option (list byte);
  suspect_data : option (list byte);
  attack_vectors : list string;
  transient : bool;
}.

Definition is_in_unused_region (self : t) : bool :=
  bool_decide (length (tiles_used self) < length (tiles_unused self))%nat.

(** The assignments made to an anomaly after its construction. *)
Definition set_attack_vectors (self : t) (v : list string) : t :=
  {| anomaly_type := anomaly_type self; severity := severity self;
     far_value := far_value self; block_type := block_type self;
     column := column self; minor := minor self;
     top_bottom := top_bottom self;
     tiles_affected := tiles_affected self;
     tiles_used := tiles_used self; tiles_unused := tiles_unused self;
     bits_changed := bits_changed self;
     changed_bit_positions := changed_bit_positions self;
     is_routing_frame := is_routing_frame self;
     is_logic_frame := is_logic_frame self;
     is_clock_frame := is_clock_frame self;
     is_io_frame := is_io_frame self;
     golden_data := golden_data self; suspect_data := suspect_data self;
     attack_vectors := v; transient := transient self |}.

Definition set_tiles (self : t) (used unused : list string) : t :=
  {| anomaly_type := anomaly_type self; severity := severity self;
     far_value := far_value self; block_type := block_type self;
     column := column self; minor := minor self;
     top_bottom := top_bottom self;
     tiles_affected := tiles_affected self;
     tiles_used := used; tiles_unused := unused;
     bits_changed := bits_changed self;
     changed_bit_positions := changed_bit_positions self;
     is_routing_frame := is_routing_frame self;
     is_logic_frame := is_logic_frame self;
     is_clock_frame := is_clock_frame self;
     is_io_frame := is_io_frame self;
     golden_data := golden_data self; suspect_data := suspect_data self;
     attack_vectors := attack_vectors self; transient := transient self |}.

Definition set_anomaly_type (self : t) (ty : AnomalyType) : t :=
  {| anomaly_type := ty; severity := severity self;
     far_value := far_value self; block_type := block_type self;
     column := column self; minor := minor self;
     top_bottom := top_bottom self;
     tiles_affected := tiles_affected self;
     tiles_used := tiles_used self; tiles_unused := tiles_unused self;
     bits_changed := bits_changed self;
     changed_bit_positions := changed_bit_positions self;
     is_routing_frame := is_routing_frame self;
     is_logic_frame := is_logic_frame self;
     is_clock_frame := is_clock_frame self;
     is_io_frame := is_io_frame self;
     golden_data := golden_data self; suspect_data := suspect_data self;
     attack_vectors := attack_vectors self; transient := transient self |}.

Definition set_severity (self : t) (sev : SeverityLevel)
    (vectors : list string) : t :=
  {| anomaly_type := anomaly_type self; severity := sev;
     far_value := far_value self; block_type := block_type self;
     column := column self; minor := minor self;
     top_bottom := top_bottom self;
     tiles_affected := tiles_affected self;
     tiles_used := tiles_used self; tiles_unused := tiles_unused self;
     bits_changed := bits_changed self;
     changed_bit_positions := changed_bit_positions self;
     is_routing_frame := is_routing_frame self;
     is_logic_frame := is_logic_frame self;
     is_clock_frame := is_clock_frame self;
     is_io_frame := is_io_frame self;
     golden_data := golden_data self; suspect_data := suspect_data self;
     attack_vectors := vectors; transient := transient self |}.
End FrameAnomaly.

Module AnomalyReport.
(** [anomalies] holds the anomaly objects themselves: what the detector
    later assigns to an anomaly is seen through the report, whereas the
    counters are integers computed when [add_anomaly] runs. *)
Record t := {
  anomalies : list FrameAnomaly.t;
  total_frames_compared : Z;
  frames_with_differences : Z;
  total_bits_changed : Z;
  critical_count : Z;
  high_count : Z;
  medium_count : Z;
  low_count : Z;
  type_counts : gmap string Z;
  trojan_detected : bool;
  summary_verdict : string;
}.

Definition __init__ : t :=
  {| anomalies := [];
     total_frames_compared := 0;
     frames_with_differences := 0;
     total_bits_changed := 0;
     critical_count := 0; high_count := 0;
     medium_count := 0; low_count := 0;
     type_counts := ∅;
     trojan_detected := false;
     summary_verdict := "" |}.

Definition add_anomaly (self : t) (anomaly : FrameAnomaly.t) : t :=
  let sev := FrameAnomaly.severity anomaly in
  let type_str := AnomalyType_value (FrameAnomaly.anomaly_type anomaly) in
  let type_counts :=
    match type_counts self !! type_str with
    | None => <[type_str := 0]> (type_counts self)
    | Some _ => type_counts self
    end in
  {| anomalies := anomalies self ++ [anomaly];
     total_frames_compared := total_frames_compared self;
     frames_with_differences :=
       if bool_decide (FrameAnomaly.bits_changed anomaly > 0)
       then frames_with_differences self + 1
       else frames_with_differences self;
     total_bits_changed :=
       total_bits_changed self + FrameAnomaly.bits_changed anomaly;
     critical_count :=
       if decide (sev = CRITICAL) then critical_count self + 1
       else critical_count self;
     high_count :=
       if decide (sev = HIGH) then high_count self + 1
       else high_count self;
     medium_count :=
       if decide (sev = MEDIUM) then medium_count self + 1
       else medium_count self;
     low_count :=
       if decide (sev = LOW) then low_count self + 1
       else low_count self;
     type_counts :=
       <[type_str := default 0 (type_counts !! type_str) + 1]> type_counts;
     trojan_detected := trojan_detected self;
     summary_verdict := summary_verdict self |}.

Definition get_routing_anomalies (self : t) : list FrameAnomaly.t :=
  filter (λ a, FrameAnomaly.is_routing_frame a = true) (anomalies self).

(** The verdict on the first line of [_generate_summary]. *)
Definition _generate_summary (self : t) : string :=
  let routing_mods := length (get_routing_anomalies self) in
  if trojan_detected self then "TROJAN DETECTED"
  else if bool_decide (high_count self > 0)
          || bool_decide (medium_count self > 0)
  then "SUSPICIOUS MODIFICATIONS FOUND"
  else if bool_decide (0 < length (anomalies self))%nat
          || bool_decide (0 < routing_mods)%nat
          || bool_decide (total_bits_changed self > 0)
  then "MODIFICATIONS DETECTED"
  else "NO SIGNIFICANT ANOMALIES".

Definition set_total_frames_compared (self : t) (n : Z) : t :=
  {| anomalies := anomalies self;
     total_frames_compared := n;
     frames_with_differences := frames_with_differences self;
     total_bits_changed := total_bits_changed self;
     critical_count := critical_count self;
     high_count := high_count self;
     medium_count := medium_count self;
     low_count := low_count self;
     type_counts := type_counts self;
     trojan_detected := trojan_detected self;
     summary_verdict := summary_verdict self |}.

(** In-place mutation of the anomaly objects held by the report. *)
Definition update_anomalies (self : t)
    (f : list FrameAnomaly.t → list FrameAnomaly.t) : t :=
  {| anomalies := f (anomalies self);
     total_frames_compared := total_frames_compared self;
     frames_with_differences := frames_with_differences self;
     total_bits_changed := total_bits_changed self;
     critical_count := critical_count self;
     high_count := high_count self;
     medium_count := medium_count self;
     low_count := low_count self;
     type_counts := type_counts self;
     trojan_detected := trojan_detected self;
     summary_verdict := summary_verdict self |}.

Definition finalize (self : t) : t :=
  let detected :=
    bool_decide (critical_count self > 0)
    || bool_decide (high_count self >= 3) in
  let self' :=
    {| anomalies := anomalies self;
       total_frames_compared := total_frames_compared self;
       frames_with_differences := frames_with_differences self;
       total_bits_changed := total_bits_changed self;
       critical_count := critical_count self;
       high_count := high_count self;
       medium_count := medium_count self;
       low_count := low_count self;
       type_counts := type_counts self;
       trojan_detected := detected;
       summary_verdict := summary_verdict self |} in
  {| anomalies := anomalies self';
     total_frames_compared := total_frames_compared self';
     frames_with_differences := frames_with_differences self';
     total_bits_changed := total_bits_changed self';
     critical_count := critical_count self';
     high_count := high_count self';
     medium_count := medium_count self';
     low_count := low_count self';
     type_counts := type_counts self';
     trojan_detected := trojan_detected self';
     summary_verdict := _generate_summary self' |}.
End AnomalyReport.

(* ===================================================================== *)
(** * src/detector/differential/frame_differential_detector.py            *)
(* ===================================================================== *)

Module FrameDifferentialDetector.
Record t := {
  min_bits_for_significance : Z;
}.

Definition __init__ : t := {| min_bits_for_significance := 5 |}.

(** Evaluating a name that is bound neither locally nor globally. *)
Definition unbound_name {A} : result A := Raise NameError.

Definition _create_added_frame_anomaly (far : Z)
    (suspect : LoadedBitstream.t) : option FrameAnomaly.t :=
  match LoadedBitstream.get_frame suspect far with
  | None => None
  | Some suspect_frame =>
      let coverage := FrameMapper.map_frame far in
      Some
        {| FrameAnomaly.anomaly_type := FRAME_ADDED;
           FrameAnomaly.severity := MEDIUM;
           FrameAnomaly.far_value := far;
           FrameAnomaly.block_type := AdaptedFrame.block_type suspect_frame;
           FrameAnomaly.column := AdaptedFrame.column suspect_frame;
           FrameAnomaly.minor := AdaptedFrame.minor suspect_frame;
           FrameAnomaly.top_bottom := AdaptedFrame.top_bottom suspect_frame;
           FrameAnomaly.tiles_affected := FrameMapper.tiles_affected coverage;
           FrameAnomaly.tiles_used := [];
           FrameAnomaly.tiles_unused := [];
           FrameAnomaly.bits_changed :=
             FrameDataExtractor.count_set_bits
               (AdaptedFrame.frame_data suspect_frame);
           FrameAnomaly.changed_bit_positions := [];
           FrameAnomaly.is_routing_frame :=
             FrameMapper.is_routing_frame coverage;
           FrameAnomaly.is_logic_frame := FrameMapper.is_logic_frame coverage;
           FrameAnomaly.is_clock_frame := FrameMapper.is_clock_frame coverage;
           FrameAnomaly.is_io_frame := FrameMapper.is_io_frame coverage;
           FrameAnomaly.golden_data := None;
           FrameAnomaly.suspect_data :=
             Some (AdaptedFrame.frame_data suspect_frame);
           FrameAnomaly.attack_vectors := [];
           FrameAnomaly.transient := false |}
  end.

(** The keyword arguments of [FrameAnomaly(...)] are evaluated in order;
    [golden_data=reference] names a variable that this function never
    binds (it is a local of [_create_modified_frame_anomaly]). *)
Definition _create_removed_frame_anomaly (far : Z)
    (golden : GoldenBaseline.t) : result (option FrameAnomaly.t) :=
  match GoldenBaseline.get_frame golden far with
  | None => Ok None
  | Some golden_frame =>
      let coverage := FrameMapper.map_frame far in
      reference ← unbound_name;
      Ok (Some
        {| FrameAnomaly.anomaly_type := FRAME_REMOVED;
           FrameAnomaly.severity := LOW;
           FrameAnomaly.far_value := far;
           FrameAnomaly.block_type := AdaptedFrame.block_type golden_frame;
           FrameAnomaly.column := AdaptedFrame.column golden_frame;
           FrameAnomaly.minor := AdaptedFrame.minor golden_frame;
           FrameAnomaly.top_bottom := AdaptedFrame.top_bottom golden_frame;
           FrameAnomaly.tiles_affected := FrameMapper.tiles_affected coverage;
           FrameAnomaly.tiles_used := [];
           FrameAnomaly.tiles_unused := [];
           FrameAnomaly.bits_changed :=
             FrameDataExtractor.count_set_bits
               (AdaptedFrame.frame_data golden_frame);
           FrameAnomaly.changed_bit_positions := [];
           FrameAnomaly.is_routing_frame :=
             FrameMapper.is_routing_frame coverage;
           FrameAnomaly.is_logic_frame := FrameMapper.is_logic_frame coverage;
           FrameAnomaly.is_clock_frame := FrameMapper.is_clock_frame coverage;
           FrameAnomaly.is_io_frame := FrameMapper.is_io_frame coverage;
           FrameAnomaly.golden_data := reference;
           FrameAnomaly.suspect_data := None;
           FrameAnomaly.attack_vectors := [];
           FrameAnomaly.transient := false |})
  end.

(** [set(suspect.get_all_far_values())]. *)
Definition suspect_far_set (suspect : LoadedBitstream.t) : gset Z :=
  list_to_set (LoadedBitstream.get_all_far_values suspect).

Definition _detect_structural_differences (golden : GoldenBaseline.t)
    (suspect : LoadedBitstream.t) : result (list FrameAnomaly.t) :=
  let golden_fars := GoldenBaseline.get_expected_frames golden in
  let suspect_fars := suspect_far_set suspect in
  let added_fars := suspect_fars ∖ golden_fars in
  let added :=
    omap (λ far, _create_added_frame_anomaly far suspect)
         (elements added_fars) in
  let removed_fars := golden_fars ∖ suspect_fars in
  removed ←
    collectM (λ far, option_list <$> _create_removed_frame_anomaly far golden)
             (elements removed_fars);
  Ok (added ++ removed).

Definition _create_modified_frame_anomaly (self : t)
    (golden_frame suspect_frame : AdaptedFrame.t)
    (is_transient : bool) (reference_data : option (list byte))
  : result (option FrameAnomaly.t) :=
  let far := AdaptedFrame.far_value golden_frame in
  let reference :=
    match reference_data with
    | Some d => d
    | None => AdaptedFrame.frame_data golden_frame
    end in
  diff_bits ←
    FrameDataExtractor.compare_frames
      reference (AdaptedFrame.frame_data suspect_frame);
  if bool_decide (Z.of_nat (length diff_bits) < min_bits_for_significance self)
  then Ok None
  else
    let coverage := FrameMapper.map_frame far in
    let anomaly_type :=
      if FrameMapper.is_routing_frame coverage then ROUTING_CHANGE
      else if FrameMapper.is_logic_frame coverage then LOGIC_CHANGE
      else if FrameMapper.is_clock_frame coverage then CLOCK_CHANGE
      else if FrameMapper.is_io_frame coverage then IO_CHANGE
      else FRAME_MODIFIED in
    let anomaly :=
      {| FrameAnomaly.anomaly_type := anomaly_type;
         FrameAnomaly.severity := MEDIUM;
         FrameAnomaly.far_value := far;
         FrameAnomaly.block_type := AdaptedFrame.block_type golden_frame;
         FrameAnomaly.column := AdaptedFrame.column golden_frame;
         FrameAnomaly.minor := AdaptedFrame.minor golden_frame;
         FrameAnomaly.top_bottom := AdaptedFrame.top_bottom golden_frame;
         FrameAnomaly.tiles_affected := FrameMapper.tiles_affected coverage;
         FrameAnomaly.tiles_used := [];
         FrameAnomaly.tiles_unused := [];
         FrameAnomaly.bits_changed := Z.of_nat (length diff_bits);
         FrameAnomaly.changed_bit_positions := take 100 diff_bits;
         FrameAnomaly.is_routing_frame :=
           FrameMapper.is_routing_frame coverage;
         FrameAnomaly.is_logic_frame := FrameMapper.is_logic_frame coverage;
         FrameAnomaly.is_clock_frame := FrameMapper.is_clock_frame coverage;
         FrameAnomaly.is_io_frame := FrameMapper.is_io_frame coverage;
         FrameAnomaly.golden_data := Some reference;
         FrameAnomaly.suspect_data :=
           Some (AdaptedFrame.frame_data suspect_frame);
         FrameAnomaly.attack_vectors := [];
         FrameAnomaly.transient := is_transient |} in
    let anomaly :=
      if is_transient then
        if bool_decide
             ("transient_payload" ∈ FrameAnomaly.attack_vectors anomaly)
        then anomaly
        else FrameAnomaly.set_attack_vectors anomaly
               (FrameAnomaly.attack_vectors anomaly ++ ["transient_payload"])
      else anomaly in
    Ok (Some anomaly).

Definition _detect_transient_history_mismatches (self : t)
    (golden_frame : AdaptedFrame.t)
    (suspect_history : list AdaptedFrame.t)
    (golden_history : list (list byte)) : result (list FrameAnomaly.t) :=
  (* [for idx in range(min(len(suspect_history), len(golden_history)))] *)
  mismatches ←
    collectM
      (λ '(suspect_frame, expected_data),
         if decide (AdaptedFrame.frame_data suspect_frame ≠ expected_data)
         then option_list <$>
                _create_modified_frame_anomaly self golden_frame
                  suspect_frame true (Some expected_data)
         else Ok [])
      (zip suspect_history golden_history);
  (* [for idx in range(zipped, len(suspect_history))], which is empty
     unless the suspect history is the longer one *)
  extras ←
    collectM
      (λ suspect_frame,
         option_list <$>
           _create_modified_frame_anomaly self golden_frame suspect_frame
             true (Some (AdaptedFrame.frame_data golden_frame)))
      (drop (length golden_history) suspect_history);
  Ok (mismatches ++ extras).

(** The body of the loop of [_detect_data_differences] for one FAR. *)
Definition compare_common_frame (self : t) (golden : GoldenBaseline.t)
    (suspect : LoadedBitstream.t) (far : Z) : result (list FrameAnomaly.t) :=
  match GoldenBaseline.get_frame golden far,
        LoadedBitstream.get_frame suspect far with
  | Some golden_frame, Some suspect_frame =>
      if decide (AdaptedFrame.frame_data golden_frame
                 ≠ AdaptedFrame.frame_data suspect_frame)
      then option_list <$>
             _create_modified_frame_anomaly self golden_frame suspect_frame
               false None
      else
        let golden_history := GoldenBaseline.get_write_history golden far in
        let suspect_history :=
          LoadedBitstream.get_write_history suspect far in
        match golden_history, suspect_history with
        | _ :: _, _ :: _ =>
            _detect_transient_history_mismatches self golden_frame
              suspect_history golden_history
        | _, _ => Ok []
        end
  | _, _ => Ok []
  end.

Definition _detect_data_differences (self : t) (golden : GoldenBaseline.t)
    (suspect : LoadedBitstream.t) : result (list FrameAnomaly.t) :=
  let golden_fars := GoldenBaseline.get_expected_frames golden in
  let suspect_fars := suspect_far_set suspect in
  let common_fars := golden_fars ∩ suspect_fars in
  collectM (compare_common_frame self golden suspect) (elements common_fars).

Definition classify_anomaly (golden : GoldenBaseline.t)
    (anomaly : FrameAnomaly.t) : FrameAnomaly.t :=
  let tiles_used :=
    filter (λ tile, GoldenBaseline.is_tile_used golden tile = true)
           (FrameAnomaly.tiles_affected anomaly) in
  let tiles_unused :=
    filter (λ tile, GoldenBaseline.is_tile_used golden tile ≠ true)
           (FrameAnomaly.tiles_affected anomaly) in
  let anomaly := FrameAnomaly.set_tiles anomaly tiles_used tiles_unused in
  if bool_decide (length tiles_used < length tiles_unused)%nat then
    if decide (FrameAnomaly.anomaly_type anomaly = FRAME_MODIFIED)
    then FrameAnomaly.set_anomaly_type anomaly UNUSED_REGION_MOD
    else anomaly
  else anomaly.

Definition _classify_anomalies (anomalies : list FrameAnomaly.t)
    (golden : GoldenBaseline.t) : list FrameAnomaly.t :=
  classify_anomaly golden <$> anomalies.

Definition _calculate_severity (anomaly : FrameAnomaly.t)
  : SeverityLevel * list string :=
  let '(severity, attack_vectors) :=
    if FrameAnomaly.is_clock_frame anomaly then
      (CRITICAL, ["clock_manipulation"; "timing_attack"])
    else if FrameAnomaly.is_io_frame anomaly
            && FrameAnomaly.is_in_unused_region anomaly then
      (CRITICAL, ["data_exfiltration"; "covert_channel"])
    else if FrameAnomaly.is_routing_frame anomaly
            && FrameAnomaly.is_in_unused_region anomaly then
      if bool_decide (5 <= FrameAnomaly.bits_changed anomaly)
         && bool_decide (FrameAnomaly.bits_changed anomaly <= 50)
      then (CRITICAL, ["routing_detour"; "hidden_routing_trojan";
                       "minimal_footprint_trojan"])
      else (HIGH, ["routing_detour"; "hidden_routing_trojan"])
    else if FrameAnomaly.is_routing_frame anomaly
            && bool_decide (0 < length (FrameAnomaly.tiles_used anomaly))%nat
    then (HIGH, ["routing_detour"; "path_manipulation"])
    else if FrameAnomaly.is_logic_frame anomaly
            && FrameAnomaly.is_in_unused_region anomaly then
      (MEDIUM, ["hidden_logic"; "trojan_payload"])
    else if decide (FrameAnomaly.anomaly_type anomaly = FRAME_ADDED) then
      if FrameAnomaly.is_in_unused_region anomaly
      then (MEDIUM, ["unauthorized_configuration"])
      else (LOW, [])
    else if decide (FrameAnomaly.anomaly_type anomaly = FRAME_REMOVED) then
      (LOW, [])
    else (LOW, []) in
  if FrameAnomaly.transient anomaly then
    let attack_vectors :=
      if bool_decide ("transient_payload" ∈ attack_vectors)
      then attack_vectors
      else attack_vectors ++ ["transient_payload"] in
    if bool_decide (severity ∈ [LOW; MEDIUM])
    then (HIGH, attack_vectors)
    else (severity, attack_vectors)
  else (severity, attack_vectors).

Definition assess_anomaly (anomaly : FrameAnomaly.t) : FrameAnomaly.t :=
  let '(severity, vectors) := _calculate_severity anomaly in
  FrameAnomaly.set_severity anomaly severity vectors.

Definition _assess_severity (anomalies : list FrameAnomaly.t)
  : list FrameAnomaly.t :=
  assess_anomaly <$> anomalies.

Definition detect (self : t) (golden : GoldenBaseline.t)
    (suspect : LoadedBitstream.t) : result AnomalyReport.t :=
  let report := AnomalyReport.__init__ in
  (* Step 1 *)
  structural_anomalies ← _detect_structural_differences golden suspect;
  let report := foldl AnomalyReport.add_anomaly report structural_anomalies in
  (* Step 2 *)
  data_anomalies ← _detect_data_differences self golden suspect;
  let report := foldl AnomalyReport.add_anomaly report data_anomalies in
  (* Step 3 *)
  let report :=
    AnomalyReport.update_anomalies report
      (λ anomalies, _classify_anomalies anomalies golden) in
  (* Step 4 *)
  let report := AnomalyReport.update_anomalies report _assess_severity in
  (* Finalize *)
  let report :=
    AnomalyReport.set_total_frames_compared report
      (GoldenBaseline.__len__ golden + LoadedBitstream.__len__ suspect) in
  Ok (AnomalyReport.finalize report).
End FrameDifferentialDetector.

(* ===================================================================== *)
(** * src/parser/payload_lexer.py                                         *)
(* ===================================================================== *)

Module FrameLexer.
(** [opcode], keyed by the two-bit rendering [f"{_op:02b}"] of [_op]. *)
Definition opcode (_op : Z) : option string :=
  match _op with
  | 0 => Some "NOP"
  | 1 => Some "READ"
  | 2 => Some "WRITE"
  | 3 => Some "SYNC"
  | _ => None
  end.

Definition MajorMinors : gmap Z Z :=
  list_to_map
    [ (0, 36); (1, 36); (2, 36); (3, 30); (4, 36); (5, 28); (6, 36);
      (7, 54); (8, 36); (9, 30); (10, 36); (11, 28); (12, 36); (13, 54);
      (14, 36) ].

Definition Blocks : gmap Z string :=
  list_to_map [ (0, "CLB"); (1, "BRAM"); (3, "DSP"); (4, "IO") ].

Definition Blocks_Majors : gmap string (list Z) :=
  list_to_map
    [ ("CLB", [0; 1; 2; 4; 6; 8; 10; 12; 14]);
      ("BRAM", [3; 9]);
      ("DSP", [5; 11]);
      ("IO", [7; 13]) ].

(** A four-byte slice of the payload. *)
Definition word := list byte.

Inductive Packet :=
| FAR (op : option string) (reg_address word_count : Z)
      (value : option word)
| FDRI (op : option string) (word_count : Z) (payload : list (list word)).

Record FrameObj := {
  far_raw : Z;          (* rendered as [f"{far_int:08X}"] in the source *)
  block_type : Z;
  top_bottom : Z;
  column : Z;
  major : Z;
  minor : Z;
  data_words : list word;
  idx : Z;
}.

(** [start_fields]: the list [[block, top_bottom, column, major, minor]]. *)
Record far_fields := {
  f_block : Z;
  f_top_bottom : Z;
  f_column : Z;
  f_major : Z;
  f_minor : Z;
}.

Record t := {
  payload : list byte;
  toks : list Packet;
  result_frames : list FrameObj;     (* [self.result] *)
  pos : nat;
  last_far : option far_fields;
}.

Definition __init__ (payload : list byte) : t :=
  {| payload := payload; toks := []; result_frames := [];
     pos := 0; last_far := None |}.

Definition set_pos (self : t) (p : nat) : t :=
  {| payload := payload self; toks := toks self;
     result_frames := result_frames self;
     pos := p; last_far := last_far self |}.

Definition advance (self : t) : t * option word :=
  if bool_decide (pos self + 4 ≤ length (payload self))%nat
  then (set_pos self (pos self + 4),
        Some (take 4 (drop (pos self) (payload self))))
  else (self, None).

Definition nextPacket (self : t) : t * option word := advance self.

Definition max_minor (column : Z) : Z := default (-1) (MajorMinors !! column).

(** [int.from_bytes(b, 'big')], also [struct.unpack(">I", b)[0]]. *)
Definition from_bytes_big (b : list byte) : Z :=
  foldl (λ acc x, acc * 256 + byte_val x) 0 b.

Definition pack_far (block top_bottom column minor : Z) : Z :=
  let major :=
    Z.lor (Z.shiftl (Z.land top_bottom 0x1) 5) (Z.land column 0x1F) in
  Z.lor (Z.lor (Z.shiftl (Z.land block 0x7) 29)
               (Z.shiftl (Z.land major 0x3F) 23))
        (Z.shiftl (Z.land minor 0x3F) 17).

Definition interpret_far (far : option word) : result far_fields :=
  match far with
  | None => Raise ValueError
  | Some far =>
      let far_hex := from_bytes_big far in
      let block := Z.land (Z.shiftr far_hex 29) 7 in
      let major := Z.land (Z.shiftr far_hex 23) 63 in
      let top_bottom := Z.land (Z.shiftr major 5) 1 in
      let column := Z.land major 31 in
      let minor := Z.land (Z.shiftr far_hex 17) 63 in
      Ok {| f_block := block; f_top_bottom := top_bottom;
            f_column := column; f_major := major; f_minor := minor |}
  end.

(** [for _ in range(n): word = self.nextPacket(width); if word is None:
    break; _payload.append(word)].  Every successful read moves [pos] by
    four bytes, so [length payload] rounds of fuel cover the loop. *)
Fixpoint read_words (fuel : nat) (n : Z) (self : t) : t * list word :=
  match fuel with
  | O => (self, [])
  | S fuel' =>
      if bool_decide (n <= 0) then (self, [])
      else match nextPacket self with
           | (_, None) => (self, [])
           | (self', Some w) =>
               let '(self'', ws) := read_words fuel' (n - 1) self' in
               (self'', w :: ws)
           end
  end.

(** [[_payload[i:i+41] for i in range(0, len(_payload), 41)]]. *)
Fixpoint chunks (fuel : nat) (frame_size : nat) (l : list word)
  : list (list word) :=
  match fuel, l with
  | _, [] => []
  | O, _ => []
  | S fuel', _ => take frame_size l :: chunks fuel' frame_size (drop frame_size l)
  end.

Definition do_lexing (self : t) (packet : word) : t * option Packet :=
  let hdr := from_bytes_big packet in
  let _type := Z.land (Z.shiftr hdr 29) 0x7 in
  let _op := Z.land (Z.shiftr hdr 27) 0x3 in
  let op := opcode _op in
  if decide (_type = 1) then
    let reg_address := Z.land (Z.shiftr hdr 13) 0xFFFF in
    let word_count := Z.land hdr 0x1FFF in
    if bool_decide (op = Some "WRITE") && bool_decide (word_count = 1) then
      let '(self, value) := nextPacket self in
      (self, Some (FAR op reg_address word_count value))
    else (self, None)
  else if decide (_type = 2) then
    let word_count := Z.land hdr 0x1FFFFFF in
    let '(self, _payload) :=
      read_words (length (payload self)) word_count self in
    let temp := chunks (length _payload) 41 _payload in
    (self, Some (FDRI op word_count temp))
  else (self, None).

(** The walker of [generate_frames]: the loop variables that address the
    next frame. *)
Record walker := {
  w_block : Z;
  w_top_bottom : Z;
  w_column : Z;
  w_minor : Z;
  w_major_list : list Z;
  w_maj_idx : nat;
}.

Definition major_list_for_block (code : Z) : option (list Z) :=
  name ← Blocks !! code;
  Blocks_Majors !! name.

Fixpoint next_block_code_loop (tries : nat) (condidate : Z) : option Z :=
  match tries with
  | O => None
  | S tries' =>
      if bool_decide (is_Some (Blocks !! condidate)) then Some condidate
      else next_block_code_loop tries' (condidate + 1)
  end.

Definition next_block_code (code : Z) : option Z :=
  next_block_code_loop 10 (code + 1).

(** [major_list.index(column)]. *)
Fixpoint index_of (x : Z) (l : list Z) : option nat :=
  match l with
  | [] => None
  | y :: l' => if decide (y = x) then Some O else S <$> index_of x l'
  end.

(** [min(Blocks.keys())]: the keys are 0, 1, 3 and 4. *)
Definition min_block_code : Z := 0.

(** The part of the loop body of [generate_frames] that follows the
    emission of a frame (from [next_minor = minor + 1] on). *)
Definition walker_advance (w : walker) : result walker :=
  let next_minor := w_minor w + 1 in
  let max_m := max_minor (w_column w) in
  if decide (max_m = -1) then Raise ValueError
  else if bool_decide (next_minor < max_m) then
    Ok {| w_block := w_block w; w_top_bottom := w_top_bottom w;
          w_column := w_column w; w_minor := next_minor;
          w_major_list := w_major_list w; w_maj_idx := w_maj_idx w |}
  else
    let maj_idx := S (w_maj_idx w) in
    match w_major_list w !! maj_idx with
    | Some column =>
        (* [maj_idx < len(major_list)] *)
        Ok {| w_block := w_block w; w_top_bottom := w_top_bottom w;
              w_column := column; w_minor := 0;
              w_major_list := w_major_list w; w_maj_idx := maj_idx |}
    | None =>
        match next_block_code (w_block w) with
        | None =>
            let block := min_block_code in
            match major_list_for_block block with
            | Some ((column :: _) as major_list) =>
                Ok {| w_block := block;
                      w_top_bottom := Z.lxor (w_top_bottom w) 1;
                      w_column := column; w_minor := 0;
                      w_major_list := major_list; w_maj_idx := 0 |}
            | Some [] => Raise IndexError
            | None => Raise TypeError
            end
        | Some block =>
            match major_list_for_block block with
            | None => Raise ValueError
            | Some ((column :: _) as major_list) =>
                Ok {| w_block := block; w_top_bottom := w_top_bottom w;
                      w_column := column; w_minor := 0;
                      w_major_list := major_list; w_maj_idx := 0 |}
            | Some [] => Raise IndexError
            end
        end
    end.

Definition frame_at (w : walker) (chunk : list word) (idx : Z) : FrameObj :=
  let far_int :=
    pack_far (w_block w) (w_top_bottom w) (w_column w) (w_minor w) in
  let major :=
    Z.lor (Z.shiftl (w_top_bottom w) 5) (Z.land (w_column w) 0x1F) in
  {| far_raw := far_int; block_type := w_block w;
     top_bottom := w_top_bottom w; column := w_column w;
     major := major; minor := w_minor w;
     data_words := chunk; idx := idx |}.

(** [while created < total_needed and max_iter > 0]: one chunk of
    [payload_frames] is consumed per round, [rest] is what remains from
    index [created] on; [acc] collects the frames appended to
    [self.result]. *)
Fixpoint generate_loop (rest : list (list word)) (w : walker)
    (created max_iter start_idx : Z) (acc : list FrameObj)
  : result (Z * list FrameObj) :=
  match rest with
  | [] => Ok (created, acc)
  | chunk :: rest' =>
      if bool_decide (max_iter > 0) then
        let max_iter := max_iter - 1 in
        let frame := frame_at w chunk (start_idx + created) in
        let acc := acc ++ [frame] in
        let created := created + 1 in
        w' ← walker_advance w;
        generate_loop rest' w' created max_iter start_idx acc
      else Ok (created, acc)
  end.

Definition start_walker (start_fields : far_fields) : result walker :=
  let block := f_block start_fields in
  let column := f_column start_fields in
  match major_list_for_block block with
  | None => Raise ValueError
  | Some major_list =>
      match index_of column major_list with
      | Some maj_idx =>
          Ok {| w_block := block;
                w_top_bottom := f_top_bottom start_fields;
                w_column := column; w_minor := f_minor start_fields;
                w_major_list := major_list; w_maj_idx := maj_idx |}
      | None =>
          match major_list with
          | column :: _ =>
              Ok {| w_block := block;
                    w_top_bottom := f_top_bottom start_fields;
                    w_column := column; w_minor := f_minor start_fields;
                    w_major_list := major_list; w_maj_idx := 0 |}
          | [] => Raise IndexError
          end
      end
  end.

(** Returns the frames appended to [self.result] (with [created]). *)
Definition generate_frames (start_fields : far_fields)
    (payload_frames : list (list word)) (start_idx : Z)
  : result (Z * list FrameObj) :=
  let total_needed := Z.of_nat (length payload_frames) in
  w ← start_walker start_fields;
  let max_iter := total_needed * 4 + 1000 in
  '(created, frames) ← generate_loop payload_frames w 0 max_iter start_idx [];
  if decide (created ≠ total_needed) then Raise RuntimeError
  else Ok (created, frames).

(** One round of the loop of [lexer]; the caller has checked
    [self.pos + width <= len(self.payload)]. *)
Definition lexer_step (self : t) : result t :=
  match advance self with
  | (_, None) => Ok self
  | (self, Some packet) =>
      match do_lexing self packet with
      | (self, None) => Ok self
      | (self, Some res) =>
          let self :=
            {| payload := payload self; toks := toks self ++ [res];
               result_frames := result_frames self;
               pos := pos self; last_far := last_far self |} in
          match res with
          | FAR _ _ _ value =>
              far_tuple ← interpret_far value;
              Ok {| payload := payload self; toks := toks self;
                    result_frames := result_frames self;
                    pos := pos self; last_far := Some far_tuple |}
          | FDRI _ _ payload_frames =>
              match last_far self with
              | None => Raise ValueError
              | Some start_fields =>
                  let start_idx :=
                    Z.of_nat (length (result_frames self)) in
                  '(_, frames) ←
                    generate_frames start_fields payload_frames start_idx;
                  Ok {| payload := payload self; toks := toks self;
                        result_frames := result_frames self ++ frames;
                        pos := pos self; last_far := last_far self |}
              end
          end
      end
  end.

(** [while self.pos + width <= len(self.payload)]: every round moves
    [pos] by at least four bytes. *)
Fixpoint lexer_loop (fuel : nat) (self : t) : result t :=
  match fuel with
  | O => Ok self
  | S fuel' =>
      if bool_decide (pos self + 4 ≤ length (payload self))%nat then
        self' ← lexer_step self;
        lexer_loop fuel' self'
      else Ok self
  end.

Definition lexer (self : t) : result (list FrameObj) :=
  self' ← lexer_loop (length (payload self)) self;
  Ok (result_frames self').
End FrameLexer.

(* ===================================================================== *)
(** * src/parser/header_lexer.py, file_loader.py                          *)
(* ===================================================================== *)

Module HeaderLexer.
Record HeaderToken := {
  prefix : Z;
  tag : Z;
  length_field : Z;
  value : list byte;
}.

Record t := {
  header : list byte;
  toks : list HeaderToken;
  pos : nat;
}.

Definition __init__ (header : list byte) : t :=
  {| header := header; toks := []; pos := 0 |}.

Definition set_pos (self : t) (p : nat) : t :=
  {| header := header self; toks := toks self; pos := p |}.

Definition peek (self : t) : option Z :=
  byte_val <$> header self !! pos self.

Definition advance (self : t) : t * option Z :=
  match header self !! pos self with
  | Some c => (set_pos self (pos self + 1), Some (byte_val c))
  | None => (self, None)
  end.

(** [prefix] is assigned only when [c] is 0 or 1; building the token
    reads it, and raises [UnboundLocalError] (a [NameError]) when it was
    not assigned.  [self.pos + length - 1] raises [TypeError] when
    [advance] had nothing left to return. *)
Definition do_lexing (self : t) : result (t * option HeaderToken) :=
  let '(self, c) := advance self in
  let prefix : option Z :=
    match c with
    | Some c => if bool_decide (c ∈ [0; 1]) then Some c else None
    | None => None
    end in
  match peek self with
  | Some p =>
      if bool_decide (p ∈ [0x61; 0x62; 0x63; 0x64; 0x65]) then
        (* [advance] returns the byte that [peek] saw *)
        let '(self, tag) := advance self in
        let tag := default p tag in
        if decide (peek self = Some 0) then
          let self := set_pos self (pos self + 1) in
          let '(self, length) := advance self in
          match length with
          | Some length =>
              let value :=
                take (Z.to_nat (Z.of_nat (pos self) + length - 1)
                      - pos self)
                     (drop (pos self) (header self)) in
              match prefix with
              | Some prefix =>
                  Ok (self, Some {| prefix := prefix; tag := tag;
                                    length_field := length;
                                    value := value |})
              | None => Raise NameError
              end
          | None => Raise TypeError
          end
        else Ok (self, None)
      else Ok (self, None)
  | None => Ok (self, None)
  end.

(** [while self.pos < len(self.header)]: every round moves [pos] by at
    least one byte. *)
Fixpoint lexer_loop (fuel : nat) (self : t) : result t :=
  match fuel with
  | O => Ok self
  | S fuel' =>
      if bool_decide (pos self < length (header self))%nat then
        '(self, tok) ← do_lexing self;
        let self :=
          match tok with
          | Some tok =>
              {| header := header self; toks := toks self ++ [tok];
                 pos := pos self |}
          | None => self
          end in
        lexer_loop fuel' self
      else Ok self
  end.

Definition lexer (self : t) : result (list HeaderToken) :=
  toks <$> lexer_loop (length (header self)) self.
End HeaderLexer.

Module Header.
Record t := {
  design_name : option HeaderLexer.HeaderToken;
  device_name : option HeaderLexer.HeaderToken;
  build_date : option HeaderLexer.HeaderToken;
  build_time : option HeaderLexer.HeaderToken;
  meta : option HeaderLexer.HeaderToken;
}.

Definition __init__ : t :=
  {| design_name := None; device_name := None; build_date := None;
     build_time := None; meta := None |}.
End Header.

Module Parser.
Definition MARKER : list byte := [xaa; x99; x55; x66].

(** [data.find(marker)] from index [idx] on. *)
Fixpoint find (marker data : list byte) (idx : nat) : option nat :=
  if bool_decide (take (length marker) data = marker) then Some idx
  else match data with
       | [] => None
       | _ :: data' => find marker data' (S idx)
       end.

(** [split_on_marker] with its default arguments ([which="first"],
    [keep_marker=False]), on the bytes read from the file. *)
Definition split_on_marker (data : list byte)
  : list byte * list byte * option nat :=
  match find MARKER data 0 with
  | None => ([], data, None)
  | Some idx => (take idx data, drop (idx + length MARKER) data, Some idx)
  end.

(** The [match chr(tok.tag)] of [parse_header]. *)
Definition store_token (head : Header.t) (tok : HeaderLexer.HeaderToken)
  : Header.t :=
  let tag := HeaderLexer.tag tok in
  if decide (tag = 0x61) then
    {| Header.design_name := Some tok;
       Header.device_name := Header.device_name head;
       Header.build_date := Header.build_date head;
       Header.build_time := Header.build_time head;
       Header.meta := Header.meta head |}
  else if decide (tag = 0x62) then
    {| Header.design_name := Header.design_name head;
       Header.device_name := Some tok;
       Header.build_date := Header.build_date head;
       Header.build_time := Header.build_time head;
       Header.meta := Header.meta head |}
  else if decide (tag = 0x63) then
    {| Header.design_name := Header.design_name head;
       Header.device_name := Header.device_name head;
       Header.build_date := Some tok;
       Header.build_time := Header.build_time head;
       Header.meta := Header.meta head |}
  else if decide (tag = 0x64) then
    {| Header.design_name := Header.design_name head;
       Header.device_name := Header.device_name head;
       Header.build_date := Header.build_date head;
       Header.build_time := Some tok;
       Header.meta := Header.meta head |}
  else if decide (tag = 0x65) then
    {| Header.design_name := Header.design_name head;
       Header.device_name := Header.device_name head;
       Header.build_date := Header.build_date head;
       Header.build_time := Header.build_time head;
       Header.meta := Some tok |}
  else head.

Definition parse_header (header : list byte) : result Header.t :=
  header_tokens ← HeaderLexer.lexer (HeaderLexer.__init__ header);
  Ok (foldl store_token Header.__init__ header_tokens).

Definition parse_payload (payload : list byte)
  : result (list FrameLexer.FrameObj) :=
  FrameLexer.lexer (FrameLexer.__init__ payload).

(** [parse], on the bytes read from the file. *)
Definition parse (data : list byte)
  : result (Header.t * list FrameLexer.FrameObj) :=
  let '(header, payload, idx) := split_on_marker data in
  head ← parse_header header;
  config ← parse_payload payload;
  Ok (head, config).
End Parser.

(* ===================================================================== *)
(** * The adapter and the loader                                          *)
(* ===================================================================== *)

Module FrameObjAdapter.
(** The words that the lexer hands over are four-byte slices of the
    payload: they take the [memoryview] branch. *)
Definition _extract_frame_data (data_words : list FrameLexer.word)
  : result (list byte) :=
  let frame_bytes := concat data_words in
  if decide (length frame_bytes ≠ 164%nat) then Raise ValueError
  else Ok frame_bytes.

(** [adapt] catches every exception and returns [None]; [far_raw] is the
    eight-digit hexadecimal rendering of the FAR, which [int(_, 16)] reads
    back. *)
Definition adapt (frame_obj : FrameLexer.FrameObj) : option AdaptedFrame.t :=
  match _extract_frame_data (FrameLexer.data_words frame_obj) with
  | Raise _ => None
  | Ok frame_data =>
      Some {| AdaptedFrame.far_value := FrameLexer.far_raw frame_obj;
              AdaptedFrame.block_type := FrameLexer.block_type frame_obj;
              AdaptedFrame.top_bottom := FrameLexer.top_bottom frame_obj;
              AdaptedFrame.column := FrameLexer.column frame_obj;
              AdaptedFrame.major := FrameLexer.major frame_obj;
              AdaptedFrame.minor := FrameLexer.minor frame_obj;
              AdaptedFrame.frame_data := frame_data;
              AdaptedFrame.frame_index := FrameLexer.idx frame_obj;
              AdaptedFrame.data_word_count :=
                Z.of_nat (length (FrameLexer.data_words frame_obj)) |}
  end.

Definition adapt_batch (frame_objs : list FrameLexer.FrameObj)
  : list AdaptedFrame.t :=
  omap adapt frame_objs.

(** [validate_frame_data] returns [(is_valid, message)]; only the flag is
    kept. *)
Definition validate_frame_data (adapted : AdaptedFrame.t) : bool :=
  if decide (length (AdaptedFrame.frame_data adapted) ≠ 164%nat) then false
  else if decide (AdaptedFrame.data_word_count adapted ≠ 41) then false
  else if bool_decide (AdaptedFrame.block_type adapted > 7) then false
  else if negb (bool_decide (AdaptedFrame.top_bottom adapted ∈ [0; 1]))
  then false
  else if bool_decide (AdaptedFrame.column adapted > 47) then false
  else true.
End FrameObjAdapter.

Module BitstreamLoader.
Definition _validate_frames (frames : list AdaptedFrame.t)
  : list AdaptedFrame.t :=
  filter (λ frame, FrameObjAdapter.validate_frame_data frame = true) frames.

(** [load], on the bytes read from the file: every exception of the
    parser is caught and makes [load] return [None].  Without
    [capture_history] every history is cut down to its last write. *)
Definition load (data : list byte) (validate capture_history : bool)
  : option LoadedBitstream.t :=
  match Parser.parse data with
  | Raise _ => None
  | Ok (header, frame_objs) =>
      let adapted_frames := FrameObjAdapter.adapt_batch frame_objs in
      let adapted_frames :=
        if validate then _validate_frames adapted_frames
        else adapted_frames in
      let bitstream := LoadedBitstream.__init__ adapted_frames in
      if capture_history then Some bitstream
      else
        (* [{far: [frames[-1]] for far, frames in ...items()}] *)
        if bool_decide
             (map_Forall (λ _ frames, frames ≠ [])
                         (LoadedBitstream._write_history bitstream))
        then
          Some {| LoadedBitstream.frames := LoadedBitstream.frames bitstream;
                  LoadedBitstream._frame_by_far :=
                    LoadedBitstream._frame_by_far bitstream;
                  LoadedBitstream._write_history :=
                    (λ frames : list AdaptedFrame.t, option_list (last frames))
                      <$> LoadedBitstream._write_history bitstream |}
        else None
  end.
End BitstreamLoader.

(* ===================================================================== *)
(** * Notions used to state the properties                                *)
(* ===================================================================== *)

(** Bit [bit_offset] of a payload, most significant bit of each byte
    first; [false] beyond the end of the payload. *)
Definition bit_of (frame_data : list byte) (bit_offset : Z) : bool :=
  match frame_data !! Z.to_nat (bit_offset / 8) with
  | Some b => Z.testbit (byte_val b) (7 - bit_offset `mod` 8)
  | None => false
  end.

(** The bit positions of a 1312-bit frame at which two payloads differ. *)
Definition diff_positions (d1 d2 : list byte) : list Z :=
  filter (λ off, bit_of d1 off ≠ bit_of d2 off) (seqZ 0 1312).

Definition differing_bits (d1 d2 : list byte) : nat :=
  length (diff_positions d1 d2).

(** Number of set bits of a payload. *)
Definition popcount (d : list byte) : Z :=
  foldr (λ b acc, Z.of_nat (length (filter (Z.testbit (byte_val b))
                                           (seqZ 0 8))) + acc) 0 d.

(** Every payload has 164 bytes, and every stored frame sits under its own
    FAR: the invariants that the loader and the baseline builder
    establish. *)
Definition frame_ok (d : list byte) : Prop := length d = 164%nat.

Definition wf_suspect (s : LoadedBitstream.t) : Prop :=
  map_Forall (λ far f, AdaptedFrame.far_value f = far
                       ∧ frame_ok (AdaptedFrame.frame_data f))
             (LoadedBitstream._frame_by_far s)
  ∧ map_Forall (λ _ h, Forall (λ f, frame_ok (AdaptedFrame.frame_data f)) h)
               (LoadedBitstream._write_history s).

Definition wf_golden (g : GoldenBaseline.t) : Prop :=
  map_Forall (λ far f, AdaptedFrame.far_value f = far
                       ∧ frame_ok (AdaptedFrame.frame_data f))
             (GoldenBaseline._frames g)
  ∧ map_Forall (λ _ h, Forall frame_ok h) (GoldenBaseline._write_history g).

(** The FARs of the two inputs. *)
Definition golden_fars (g : GoldenBaseline.t) : gset Z :=
  GoldenBaseline.configured_fars g.
Definition suspect_fars (s : LoadedBitstream.t) : gset Z :=
  dom (LoadedBitstream._frame_by_far s).

(** The anomalies of a list that concern one FAR. *)
Definition anomalies_at (far : Z) (l : list FrameAnomaly.t)
  : list FrameAnomaly.t :=
  filter (λ a, FrameAnomaly.far_value a = far) l.

(** The anomalies of a list that have a given severity. *)
Definition count_severity (sev : SeverityLevel) (l : list FrameAnomaly.t) : Z :=
  Z.of_nat (length (filter (λ a, FrameAnomaly.severity a = sev) l)).

Definition severity_rank (s : SeverityLevel) : Z :=
  match s with
  | CRITICAL => 4 | HIGH => 3 | MEDIUM => 2 | LOW => 1 | INFO => 0
  end.

(** What a report says about severities: the final severity of each
    anomaly, the four counters and the verdict flag. *)
Definition severity_view (r : AnomalyReport.t)
  : list SeverityLevel * (Z * Z * Z * Z) * bool :=
  (FrameAnomaly.severity <$> AnomalyReport.anomalies r,
   (AnomalyReport.critical_count r, AnomalyReport.high_count r,
    AnomalyReport.medium_count r, AnomalyReport.low_count r),
   AnomalyReport.trojan_detected r).

(** The identity of an emitted frame write. *)
Definition frame_address (f : FrameLexer.FrameObj) : Z * Z * Z * Z :=
  (FrameLexer.block_type f, FrameLexer.top_bottom f,
   FrameLexer.column f, FrameLexer.minor f).

(** The column that follows [column] in the column list of [block]. *)
Definition next_column_in_block (block column : Z) : option Z :=
  major_list ← FrameLexer.major_list_for_block block;
  i ← FrameLexer.index_of column major_list;
  major_list !! S i.

(** The rule of the column walker, for a table [frames_per_column] of
    frames per column: successive frame writes stay in the column while the
    incremented minor is below the table entry, and otherwise restart at
    minor 0, in the next column of the same block when there is one. *)
Definition walker_rule (frames_per_column : Z → Z)
    (frames : list FrameLexer.FrameObj) : Prop :=
  ∀ (k : nat) f f',
    frames !! k = Some f → frames !! S k = Some f' →
    if bool_decide (FrameLexer.minor f + 1
                    < frames_per_column (FrameLexer.column f))
    then frame_address f'
         = (FrameLexer.block_type f, FrameLexer.top_bottom f,
            FrameLexer.column f, FrameLexer.minor f + 1)
    else FrameLexer.minor f' = 0
         ∧ ∀ c, next_column_in_block (FrameLexer.block_type f)
                                     (FrameLexer.column f) = Some c →
                FrameLexer.block_type f' = FrameLexer.block_type f
                ∧ FrameLexer.top_bottom f' = FrameLexer.top_bottom f
                ∧ FrameLexer.column f' = c.

(** The anomalies that Phase 1 builds for the added FARs. *)
Definition added_anomalies (g : GoldenBaseline.t) (s : LoadedBitstream.t)
  : list FrameAnomaly.t :=
  omap (λ far, FrameDifferentialDetector._create_added_frame_anomaly far s)
       (elements (suspect_fars s ∖ golden_fars g)).

(** What Phase 2 emits for a FAR is rated MEDIUM for the time being and
    carries that FAR. *)
Definition tentative (far : Z) (a : FrameAnomaly.t) : Prop :=
  FrameAnomaly.far_value a = far ∧ FrameAnomaly.severity a = MEDIUM.

(** The report of a run whose first two phases emitted [l]. *)
Definition report_of (g : GoldenBaseline.t) (s : LoadedBitstream.t)
    (l : list FrameAnomaly.t) : AnomalyReport.t :=
  AnomalyReport.finalize
    (AnomalyReport.set_total_frames_compared
       (AnomalyReport.update_anomalies
          (AnomalyReport.update_anomalies
             (foldl AnomalyReport.add_anomaly AnomalyReport.__init__ l)
             (λ anomalies,
                FrameDifferentialDetector._classify_anomalies anomalies g))
          FrameDifferentialDetector._assess_severity)
       (GoldenBaseline.__len__ g + LoadedBitstream.__len__ s)).

(** The frames that the loop of [generate_frames] emits from walker [w]
    for the chunks [rest], the first of them under index [idx]. *)
Fixpoint walk (w : FrameLexer.walker) (rest : list (list FrameLexer.word))
    (idx : Z) : result (list FrameLexer.FrameObj) :=
  match rest with
  | [] => Ok []
  | chunk :: rest' =>
      w' ← FrameLexer.walker_advance w;
      frames ← walk w' rest' (idx + 1);
      Ok (FrameLexer.frame_at w chunk idx :: frames)
  end.

(** The walker stands on a column of the column list of its block. *)
Definition wf_walker (w : FrameLexer.walker) : Prop :=
  FrameLexer.major_list_for_block (FrameLexer.w_block w)
  = Some (FrameLexer.w_major_list w)
  ∧ FrameLexer.w_major_list w !! FrameLexer.w_maj_idx w
    = Some (FrameLexer.w_column w).

Definition walker_address (w : FrameLexer.walker) : Z * Z * Z * Z :=
  (FrameLexer.w_block w, FrameLexer.w_top_bottom w,
   FrameLexer.w_column w, FrameLexer.w_minor w).

(** The column at which [generate_frames] emits its first frame: the
    column of the start FAR when the column list of the block has it
    ([major_list.index(column)]), the first column of that list
    otherwise. *)
Definition start_column (start_fields : FrameLexer.far_fields) : Z :=
  let major_list :=
    default [] (FrameLexer.major_list_for_block
                  (FrameLexer.f_block start_fields)) in
  if decide (FrameLexer.f_column start_fields ∈ major_list)
  then FrameLexer.f_column start_fields
  else default 0 (head major_list).

(** An emitted frame write carries the FAR that its fields pack to, and
    four-byte data words. *)
Definition emitted_ok (f : FrameLexer.FrameObj) : Prop :=
  FrameLexer.far_raw f
  = FrameLexer.pack_far (FrameLexer.block_type f) (FrameLexer.top_bottom f)
      (FrameLexer.column f) (FrameLexer.minor f)
  ∧ Forall (λ w : FrameLexer.word, length w = 4%nat) (FrameLexer.data_words f).

(** What [adapt] hands over for an emitted frame. *)
Definition loaded_ok (f : AdaptedFrame.t) : Prop :=
  frame_ok (AdaptedFrame.frame_data f)
  ∧ AdaptedFrame.data_word_count f = 41
  ∧ AdaptedFrame.far_value f
    = FrameLexer.pack_far (AdaptedFrame.block_type f)
        (AdaptedFrame.top_bottom f) (AdaptedFrame.column f)
        (AdaptedFrame.minor f).

(** The fields of a frame write lie in the ranges that
    [validate_frame_data] checks. *)
Definition emitted_in_range (f : FrameLexer.FrameObj) : Prop :=
  FrameLexer.block_type f ∈ [0; 1; 3; 4]
  ∧ FrameLexer.top_bottom f ∈ [0; 1]
  ∧ 0 <= FrameLexer.column f <= 14.

(** The state of the lexer between two rounds. *)
Definition lexer_in_range (self : FrameLexer.t) : Prop :=
  (∀ sf, FrameLexer.last_far self = Some sf →
         FrameLexer.f_top_bottom sf ∈ [0; 1])
  ∧ Forall emitted_in_range (FrameLexer.result_frames self).

#[global] Instance FrameAddress_fields_eq_dec : EqDecision FrameAddress.fields.
Proof. solve_decision. Defined.

#[global] Instance frame_ok_dec d : Decision (frame_ok d).
Proof. unfold frame_ok. apply _. Defined.
#[global] Instance wf_golden_dec g : Decision (wf_golden g).
Proof. unfold wf_golden. apply _. Defined.
#[global] Instance wf_suspect_dec s : Decision (wf_suspect s).
Proof. unfold wf_suspect. apply _. Defined.
#[global] Typeclasses Opaque frame_ok wf_golden wf_suspect.

(* ===================================================================== *)
(** * Concrete inputs                                                     *)
(* ===================================================================== *)

Module Scenario.
Definition zeros : list byte := replicate 164 x00.

(** A frame whose fields are the decoding of its FAR, as
    [create_minimal_baseline] builds them. *)
Definition frame (far : Z) (data : list byte) (index : Z) : AdaptedFrame.t :=
  let fields := FrameAddress.decode far in
  {| AdaptedFrame.far_value := far;
     AdaptedFrame.block_type := FrameAddress.block_type fields;
     AdaptedFrame.top_bottom := FrameAddress.top_bottom fields;
     AdaptedFrame.column := FrameAddress.major fields;
     AdaptedFrame.major := FrameAddress.major fields;
     AdaptedFrame.minor := FrameAddress.minor fields;
     AdaptedFrame.frame_data := data;
     AdaptedFrame.frame_index := index;
     AdaptedFrame.data_word_count := 41 |}.

Definition golden_of (frames : list AdaptedFrame.t) : GoldenBaseline.t :=
  GoldenBaseline.build_from_loaded (LoadedBitstream.__init__ frames).

Definition detector := FrameDifferentialDetector.__init__.

(** A clock frame: block CLK, column 23, minor 2. *)
Definition clk_far : Z := FrameAddress.encode BlockType.CLK 0 23 2.
(** A CLB frame of column 1 at minor 5 (routing) and at minor 30 (logic). *)
Definition clb_routing_far : Z := FrameAddress.encode BlockType.CLB 0 1 5.
Definition clb_logic_far : Z := FrameAddress.encode BlockType.CLB 0 1 30.
(** A BRAM content frame: column 4, minor 30. *)
Definition bram_content_far : Z :=
  FrameAddress.encode BlockType.BRAM_CONTENT 0 4 30.

(** Payloads with 1, 4, 5, 8 and 20 bits set, all in the first bytes. *)
Definition bits1 : list byte := x80 :: replicate 163 x00.
Definition bits4 : list byte := xf0 :: replicate 163 x00.
Definition bits5 : list byte := xf8 :: replicate 163 x00.
Definition bits8 : list byte := xff :: replicate 163 x00.
Definition bits20 : list byte := xff :: xff :: xf0 :: replicate 161 x00.

(** Clock frame, golden all zero, suspect with 20 bits flipped. *)
Definition clock_golden := golden_of [frame clk_far zeros 0].
Definition clock_suspect := LoadedBitstream.__init__ [frame clk_far bits20 0].

(** Golden has one frame, the suspect has none. *)
Definition removed_golden := golden_of [frame clb_routing_far bits8 0].
Definition removed_suspect := LoadedBitstream.__init__ [].

(** The suspect writes a frame that differs in one bit, then the golden
    payload. *)
Definition transient_golden := golden_of [frame clb_routing_far zeros 0].
Definition transient_suspect_1bit :=
  LoadedBitstream.__init__
    [frame clb_routing_far bits1 0; frame clb_routing_far zeros 1].
Definition transient_suspect_8bit :=
  LoadedBitstream.__init__
    [frame clb_routing_far bits8 0; frame clb_routing_far zeros 1].

(** Noise floor: the suspect differs in 4, resp. 5, bits. *)
Definition noise_suspect_4 :=
  LoadedBitstream.__init__ [frame clb_routing_far bits4 0].
Definition noise_suspect_5 :=
  LoadedBitstream.__init__ [frame clb_routing_far bits5 0].

(** The suspect has an extra, all-zero frame. *)
Definition added_suspect :=
  LoadedBitstream.__init__
    [frame clb_routing_far zeros 0; frame clb_logic_far zeros 1].

(** Two frames, the same on both sides. *)
Definition identity_frames : list AdaptedFrame.t :=
  [frame 0 (x04 :: replicate 163 x00) 0;
   frame 0x02A00000 (x00 :: x20 :: replicate 162 x00) 1].
Definition identity_golden := golden_of identity_frames.
Definition identity_suspect := LoadedBitstream.__init__ identity_frames.

(** A configuration stream: a one-word Type-1 write to the command
    register (address 4, not the FAR register), then a Type-2 write of
    2 x 41 words. *)
Definition word32 (b0 b1 b2 b3 : byte) : list byte := [b0; b1; b2; b3].
Definition cmd_write_header : list byte := word32 x30 x00 x80 x01.
(** Decodes, as a FAR, to block 0, column 0, minor 35. *)
Definition cmd_word : list byte := word32 x00 x46 x00 x00.
Definition fdri_header_82 : list byte := word32 x50 x00 x00 x52.
Definition stream : list byte :=
  cmd_write_header ++ cmd_word ++ fdri_header_82 ++ replicate (82 * 4) x00.

Definition chunk41 : list FrameLexer.word := replicate 41 (replicate 4 x00).
Definition start_col0_minor35 : FrameLexer.far_fields :=
  {| FrameLexer.f_block := 0; FrameLexer.f_top_bottom := 0;
     FrameLexer.f_column := 0; FrameLexer.f_major := 0;
     FrameLexer.f_minor := 35 |}.

(** The lexer in front of the Type-2 header of [stream], the FAR of
    [cmd_word] seen. *)
Definition fdri_state : FrameLexer.t :=
  {| FrameLexer.payload := stream; FrameLexer.toks := [];
     FrameLexer.result_frames := []; FrameLexer.pos := 8;
     FrameLexer.last_far := Some start_col0_minor35 |}.
End Scenario.

(* ===================================================================== *)
(** * General lemmas                                                      *)
(* ===================================================================== *)

Section filter.
Context {A : Type} (P : A → Prop) `{∀ x, Decision (P x)}.

Lemma filter_none (l : list A) : (∀ x, x ∈ l → ¬ P x) → filter P l = [].
Proof.
  induction l as [|x l IH]; intros HP; [done|].
  rewrite filter_cons_False by (apply HP; by left).
  apply IH. intros y Hy. apply HP. by right.
Qed.

Lemma filter_all (l : list A) : (∀ x, x ∈ l → P x) → filter P l = l.
Proof.
  induction l as [|x l IH]; intros HP; [done|].
  rewrite filter_cons_True by (apply HP; by left).
  f_equal. apply IH. intros y Hy. apply HP. by right.
Qed.
End filter.

Section collectM.
Context {A B : Type} (f : A → result (list B)).

Lemma collectM_cons_Ok x l ys zs :
  f x = Ok ys → collectM f l = Ok zs → collectM f (x :: l) = Ok (ys ++ zs).
Proof. intros Hx Hl. simpl. rewrite Hx. simpl. rewrite Hl. reflexivity. Qed.

Lemma collectM_cons_inv x l zs :
  collectM f (x :: l) = Ok zs →
  ∃ ys zs', f x = Ok ys ∧ collectM f l = Ok zs' ∧ zs = ys ++ zs'.
Proof.
  simpl. destruct (f x) as [ys|e]; simpl; [|discriminate].
  destruct (collectM f l) as [zs'|e]; simpl; [|discriminate].
  intros [= <-]. eauto.
Qed.

(** The loop returns as soon as every round does. *)
Lemma collectM_returns l :
  (∀ x, x ∈ l → ∃ ys, f x = Ok ys) → ∃ zs, collectM f l = Ok zs.
Proof.
  induction l as [|x l IH]; intros H; [by eexists|].
  destruct (H x) as [ys Hx]; [by left|].
  destruct IH as [zs Hzs]; [intros y Hy; apply H; by right|].
  exists (ys ++ zs). by apply collectM_cons_Ok.
Qed.

(** What the loop returns is made of what its rounds return. *)
Lemma collectM_elem_of l zs z :
  collectM f l = Ok zs →
  z ∈ zs ↔ ∃ x ys, x ∈ l ∧ f x = Ok ys ∧ z ∈ ys.
Proof.
  revert zs. induction l as [|x l IH]; intros zs H.
  - injection H as <-. split; [by intros ?%elem_of_nil|].
    by intros (? & ? & ?%elem_of_nil & _).
  - apply collectM_cons_inv in H as (ys & zs' & Hx & Hl & ->).
    rewrite elem_of_app, (IH _ Hl). split.
    + intros [Hz|(x' & ys' & Hin & Hf & Hz)].
      * exists x, ys. split; [by left|done].
      * exists x', ys'. split; [by right|done].
    + intros (x' & ys' & [->|Hin]%elem_of_cons & Hf & Hz).
      * left. congruence.
      * right. eauto.
Qed.

Lemma collectM_Forall (P : B → Prop) l zs :
  (∀ x ys, x ∈ l → f x = Ok ys → Forall P ys) →
  collectM f l = Ok zs → Forall P zs.
Proof.
  intros H Hl. apply Forall_forall. intros z Hz.
  apply (collectM_elem_of _ _ _ Hl) in Hz as (x & ys & Hin & Hf & Hz).
  eapply Forall_forall; [by eapply H|done].
Qed.

(** A round that raises makes the loop raise, when the rounds before it
    return or raise the same exception. *)
Lemma collectM_raises e l x :
  x ∈ l → f x = Raise e →
  (∀ y, y ∈ l → is_ok (f y) = true ∨ f y = Raise e) →
  collectM f l = Raise e.
Proof.
  induction l as [|y l IH]; intros Hin Hx Hall; [by apply elem_of_nil in Hin|].
  simpl. destruct (Hall y) as [Hok|Hy]; [by left| |by rewrite Hy].
  destruct (f y) as [ys|] eqn:Hfy; [|done]. simpl.
  apply elem_of_cons in Hin as [->|Hin]; [congruence|].
  rewrite IH; [done..|]. intros z Hz. apply Hall. by right.
Qed.

Lemma collectM_filter_none (P : B → Prop) `{∀ z, Decision (P z)} l zs :
  (∀ x ys z, x ∈ l → f x = Ok ys → z ∈ ys → ¬ P z) →
  collectM f l = Ok zs → filter P zs = [].
Proof.
  intros HP Hl. apply filter_none. intros z Hz.
  apply (collectM_elem_of _ _ _ Hl) in Hz as (x & ys & Hx & Hf & Hz).
  by eapply HP.
Qed.

(** With rounds keyed by distinct elements, the results that carry the
    key of [x0] are those of the round of [x0]. *)
Lemma collectM_filter_key `{EqDecision K} (key : B → K) (k : A → K)
    l zs x0 ys0 :
  NoDup l →
  (∀ x ys z, x ∈ l → f x = Ok ys → z ∈ ys → key z = k x) →
  (∀ x, x ∈ l → k x = k x0 → x = x0) →
  collectM f l = Ok zs →
  x0 ∈ l → f x0 = Ok ys0 →
  filter (λ z, key z = k x0) zs = ys0.
Proof.
  intros Hnd Hkey Hinj. revert zs.
  induction l as [|x l IH]; intros zs Hl Hin Hx0;
    [by apply elem_of_nil in Hin|].
  apply collectM_cons_inv in Hl as (ys & zs' & Hx & Hl & ->).
  apply NoDup_cons in Hnd as [Hnotin Hnd].
  rewrite filter_app.
  apply elem_of_cons in Hin as [<-|Hin].
  - assert (ys = ys0) as -> by congruence.
    rewrite (collectM_filter_none (λ z, key z = k x0) l zs'); [|  |done].
    + rewrite app_nil_r. apply filter_all.
      intros z Hz. eapply Hkey; [by left|done..].
    + intros x' ys' z Hx' Hf' Hz Hk. apply Hnotin.
      rewrite <-(Hinj x'); [done|by right|].
      rewrite <-Hk. symmetry. eapply Hkey; [by right|done..].
  - assert (x ≠ x0) as Hne by (intros ->; done).
    assert (filter (λ z, key z = k x0) ys = []) as ->.
    { apply filter_none. intros z Hz Hk.
      apply Hne, Hinj; [by left|].
      rewrite <-Hk. symmetry. eapply Hkey; [by left|done..]. }
    simpl. apply IH; try done.
    + intros x' ys' z Hx'. apply Hkey. by right.
    + intros x' Hx'. apply Hinj. by right.
Qed.
End collectM.

(* ===================================================================== *)
(** * The FAR codec of [frame_rules.py]                                   *)
(* ===================================================================== *)

(** The fields of [encode] overlap: [top_bottom] is written at bit 22 and
    [major] at bits 22 to 17.  On legal field tuples the round trip
    therefore succeeds exactly when [top_bottom] is bit 5 of [major]. *)
Lemma far_codec_roundtrip_iff bt tb major minor :
  0 <= bt <= 7 → 0 <= tb <= 1 → 0 <= major <= 47 →
  0 <= minor < ColumnClassification.get_frames_per_column major →
  FrameAddress.decode (FrameAddress.encode bt tb major minor)
  = {| FrameAddress.block_type := bt; FrameAddress.top_bottom := tb;
       FrameAddress.major := major; FrameAddress.minor := minor |}
  ↔ tb = major / 32.
Proof.
  intros Hbt Htb Hmajor Hminor.
  assert (Hall :
    Forall (λ bt, Forall (λ tb, Forall (λ major, Forall (λ minor,
      minor < ColumnClassification.get_frames_per_column major →
      FrameAddress.decode (FrameAddress.encode bt tb major minor)
      = {| FrameAddress.block_type := bt; FrameAddress.top_bottom := tb;
           FrameAddress.major := major; FrameAddress.minor := minor |}
      ↔ tb = major / 32)
      (seqZ 0 92)) (seqZ 0 48)) (seqZ 0 2)) (seqZ 0 8)).
  { apply (bool_decide_unpack _). vm_compute. exact I. }
  assert (minor < 92).
  { assert (Forall (λ major,
              ColumnClassification.get_frames_per_column major <= 92)
              (seqZ 0 48)) as Hfpc
      by (apply (bool_decide_unpack _); vm_compute; exact I).
    rewrite Forall_forall in Hfpc.
    specialize (Hfpc major). rewrite elem_of_seqZ in Hfpc. lia. }
  rewrite Forall_forall in Hall.
  specialize (Hall bt). rewrite elem_of_seqZ in Hall.
  specialize (Hall ltac:(lia)). rewrite Forall_forall in Hall.
  specialize (Hall tb). rewrite elem_of_seqZ in Hall.
  specialize (Hall ltac:(lia)). rewrite Forall_forall in Hall.
  specialize (Hall major). rewrite elem_of_seqZ in Hall.
  specialize (Hall ltac:(lia)). rewrite Forall_forall in Hall.
  specialize (Hall minor). rewrite elem_of_seqZ in Hall.
  apply Hall; lia.
Qed.

(** C3.  The FAR codec does not round-trip on every legal field tuple:
    [(block_type, top_bottom, major, minor) = (0, 1, 0, 0)] is legal
    (minor 0 is below the 54 frames of column 0), yet decoding its encoding
    yields major 32, because [encode] writes [top_bottom] into bit 22, which
    is also the top bit of the [major] field. *)
Theorem far_codec_roundtrip_fails_on_top_bottom :
  0 <= 7 ∧ (1 = 0 ∨ 1 = 1) ∧ 0 <= 47
  ∧ 0 < ColumnClassification.get_frames_per_column 0
  ∧ FrameAddress.encode 0 1 0 0 = 0x400000
  ∧ FrameAddress.decode (FrameAddress.encode 0 1 0 0)
    = {| FrameAddress.block_type := 0; FrameAddress.top_bottom := 1;
         FrameAddress.major := 32; FrameAddress.minor := 0 |}.
Proof. repeat split; try lia; try (by right); by vm_compute. Qed.

(* ===================================================================== *)
(** * The resource classification of the forward mapper                   *)
(* ===================================================================== *)

(** What [_classify_resources] computes, for each block type: the
    categories derived from [BlockType.PROPERTIES] come first and are never
    removed, so a CLB frame always carries both [ROUTING] and [LOGIC], and
    a BRAM content frame carries [LOGIC]. *)
Lemma classify_resources_clb d minor :
  FrameMapper._classify_resources BlockType.CLB d minor
  = {[FrameMapper.ROUTING; FrameMapper.LOGIC; FrameMapper.CONTROL]}.
Proof.
  unfold FrameMapper._classify_resources.
  destruct (ColumnMapper.is_routing_frame d minor); by vm_compute.
Qed.

Lemma classify_resources_iob d minor :
  FrameMapper._classify_resources BlockType.IOB d minor
  = {[FrameMapper.IO; FrameMapper.ROUTING; FrameMapper.CONTROL]}.
Proof. by vm_compute. Qed.

Lemma classify_resources_bram_content d minor :
  FrameMapper._classify_resources BlockType.BRAM_CONTENT d minor
  = {[FrameMapper.LOGIC; FrameMapper.MEMORY]}.
Proof. by vm_compute. Qed.

Lemma classify_resources_bram_int d minor :
  FrameMapper._classify_resources BlockType.BRAM_INT d minor
  = {[FrameMapper.ROUTING]}.
Proof. by vm_compute. Qed.

Lemma classify_resources_clk d minor :
  FrameMapper._classify_resources BlockType.CLK d minor
  = {[FrameMapper.CLOCK; FrameMapper.ROUTING; FrameMapper.CONTROL]}.
Proof. by vm_compute. Qed.

(** C5.  The forward mapper does not follow the classification matrix on
    CLB and BRAM content frames.  The FAR of block CLB, column 1, minor 30
    is valid and 30 is a logic minor of column 1, yet its categories are
    Routing, Logic and Control and it is flagged as a routing frame; the
    FAR of block BRAM_CONTENT, column 4, minor 30 is valid, yet its
    categories are Logic and Memory and it is flagged as a logic frame. *)
Theorem clb_logic_frame_classified_as_routing :
  FrameAddress.validate Scenario.clb_logic_far = true
  ∧ FrameAddress.decode Scenario.clb_logic_far
    = {| FrameAddress.block_type := BlockType.CLB;
         FrameAddress.top_bottom := 0;
         FrameAddress.major := 1; FrameAddress.minor := 30 |}
  ∧ ColumnClassification.is_routing_frame 1 30 = false
  ∧ FrameMapper.resource_categories
      (FrameMapper.map_frame Scenario.clb_logic_far)
    = {[FrameMapper.ROUTING; FrameMapper.LOGIC; FrameMapper.CONTROL]}
  ∧ FrameMapper.is_routing_frame
      (FrameMapper.map_frame Scenario.clb_logic_far) = true
  ∧ FrameAddress.validate Scenario.bram_content_far = true
  ∧ FrameAddress.block_type (FrameAddress.decode Scenario.bram_content_far)
    = BlockType.BRAM_CONTENT
  ∧ FrameMapper.resource_categories
      (FrameMapper.map_frame Scenario.bram_content_far)
    = {[FrameMapper.LOGIC; FrameMapper.MEMORY]}
  ∧ FrameMapper.is_logic_frame
      (FrameMapper.map_frame Scenario.bram_content_far) = true.
Proof. repeat split; by vm_compute. Qed.

(* ===================================================================== *)
(** * Frame data: bits, differences, set bits                             *)
(* ===================================================================== *)

#[global] Instance Ok_inj {A} : Inj (=) (=) (@Ok A).
Proof.
  intros a b H.
  exact (f_equal (λ m, match m with Ok x => x | Raise _ => a end) H).
Qed.

(** Unpacking [Ok (Some x) = Ok (Some y)] and [Some x = Some y] without
    normalising [x] and [y]. *)
Ltac ok_inj H :=
  cbv zeta in H;
  repeat (apply (inj Ok) in H || apply (inj Some) in H).

Lemma land_shiftr_1_testbit v k :
  0 <= k → negb (Z.land (Z.shiftr v k) 1 =? 0) = Z.testbit v k.
Proof.
  intros Hk.
  rewrite <-(Z.add_0_l k) at 2. rewrite <-Z.shiftr_spec by lia.
  rewrite Z.bit0_odd.
  change 1 with (Z.ones 1). rewrite Z.land_ones by lia.
  change (2 ^ 1) with 2. rewrite Zmod_odd.
  by destruct (Z.odd (Z.shiftr v k)).
Qed.

Lemma extract_bit_ok d off :
  0 <= off < 1312 → (164 ≤ length d)%nat →
  FrameDataExtractor.extract_bit d off = Ok (bit_of d off).
Proof.
  intros Hoff Hlen. unfold FrameDataExtractor.extract_bit, bit_of.
  rewrite !bool_decide_eq_true_2 by lia. simpl.
  unfold FrameDataExtractor.byte_at.
  assert (off / 8 < 164) by (apply Z.div_lt_upper_bound; lia).
  assert (0 <= off / 8) by (apply Z.div_pos; lia).
  destruct (lookup_lt_is_Some_2 d (Z.to_nat (off / 8)) ltac:(lia)) as [b Hb].
  rewrite Hb. simpl. f_equal. apply land_shiftr_1_testbit.
  pose proof (Z.mod_pos_bound off 8). lia.
Qed.

Lemma collectM_singletons {A} (P : A → bool) (f : A → result (list A)) l :
  (∀ x, x ∈ l → f x = Ok (if P x then [x] else [])) →
  collectM f l = Ok (filter (λ x, P x = true) l).
Proof.
  induction l as [|x l IH]; intros H; [done|].
  simpl. rewrite (H x) by (by left). simpl.
  rewrite IH by (intros y Hy; apply H; by right). simpl.
  destruct (P x) eqn:HP; simpl.
  - by rewrite filter_cons_True.
  - rewrite filter_cons_False; [done|congruence].
Qed.

(** On 164-byte payloads [compare_frames] returns, in increasing order,
    the positions at which the two payloads differ. *)
Lemma compare_frames_ok d1 d2 :
  frame_ok d1 → frame_ok d2 →
  FrameDataExtractor.compare_frames d1 d2 = Ok (diff_positions d1 d2).
Proof.
  unfold frame_ok. intros H1 H2. unfold FrameDataExtractor.compare_frames.
  rewrite bool_decide_eq_true_2 by congruence. cbn [negb].
  rewrite (collectM_singletons
             (λ off, negb (eqb (bit_of d1 off) (bit_of d2 off)))).
  - f_equal. unfold diff_positions. apply list_filter_iff. intros off.
    destruct (bit_of d1 off), (bit_of d2 off); simpl; naive_solver.
  - intros off [Hlo Hhi]%elem_of_seqZ.
    rewrite !extract_bit_ok by lia. reflexivity.
Qed.

Lemma diff_positions_same d : diff_positions d d = [].
Proof. unfold diff_positions. apply filter_none. intros off _ Hne. done. Qed.

Lemma differing_bits_pos_ne d1 d2 :
  (0 < differing_bits d1 d2)%nat → d1 ≠ d2.
Proof.
  intros Hpos ->. unfold differing_bits in Hpos.
  rewrite diff_positions_same in Hpos. simpl in Hpos. lia.
Qed.

(** [count_set_bits] is the number of set bits of the payload. *)
Lemma count_set_bits_popcount d :
  FrameDataExtractor.count_set_bits d = popcount d.
Proof.
  unfold FrameDataExtractor.count_set_bits, popcount.
  induction d as [|b d IH]; [done|]. simpl. rewrite IH. f_equal.
  by destruct b; vm_compute.
Qed.

(* ===================================================================== *)
(** * The phases of the detector                                          *)
(* ===================================================================== *)

Lemma suspect_far_set_dom s :
  FrameDifferentialDetector.suspect_far_set s = suspect_fars s.
Proof.
  unfold FrameDifferentialDetector.suspect_far_set, suspect_fars,
    LoadedBitstream.get_all_far_values.
  rewrite (list_to_set_perm_L _ _ (merge_sort_Permutation _ _)).
  symmetry. apply leibniz_equiv, dom_alt.
Qed.

Lemma suspect_fars_lookup s far :
  far ∈ suspect_fars s ↔ is_Some (LoadedBitstream._frame_by_far s !! far).
Proof. apply elem_of_dom. Qed.

Lemma report_anomalies_foldl r l :
  AnomalyReport.anomalies (foldl AnomalyReport.add_anomaly r l)
  = AnomalyReport.anomalies r ++ l.
Proof.
  revert r. induction l as [|a l IH]; intros r; simpl.
  - by rewrite app_nil_r.
  - rewrite IH. simpl. by rewrite <-app_assoc.
Qed.

(** ** Phase 3 and Phase 4 leave the identity of an anomaly alone *)

Lemma classify_far_value g a :
  FrameAnomaly.far_value (FrameDifferentialDetector.classify_anomaly g a)
  = FrameAnomaly.far_value a.
Proof.
  unfold FrameDifferentialDetector.classify_anomaly.
  case_bool_decide; [case_decide|]; reflexivity.
Qed.

Lemma classify_transient g a :
  FrameAnomaly.transient (FrameDifferentialDetector.classify_anomaly g a)
  = FrameAnomaly.transient a.
Proof.
  unfold FrameDifferentialDetector.classify_anomaly.
  case_bool_decide; [case_decide|]; reflexivity.
Qed.

Lemma classify_bits_changed g a :
  FrameAnomaly.bits_changed (FrameDifferentialDetector.classify_anomaly g a)
  = FrameAnomaly.bits_changed a.
Proof.
  unfold FrameDifferentialDetector.classify_anomaly.
  case_bool_decide; [case_decide|]; reflexivity.
Qed.

(** Phase 3 only retypes [FRAME_MODIFIED]. *)
Lemma classify_anomaly_type g a :
  FrameAnomaly.anomaly_type a ≠ FRAME_MODIFIED →
  FrameAnomaly.anomaly_type (FrameDifferentialDetector.classify_anomaly g a)
  = FrameAnomaly.anomaly_type a.
Proof.
  intros Hne. unfold FrameDifferentialDetector.classify_anomaly.
  case_bool_decide; [case_decide|]; try reflexivity.
  simpl in *. congruence.
Qed.

Lemma assess_far_value a :
  FrameAnomaly.far_value (FrameDifferentialDetector.assess_anomaly a)
  = FrameAnomaly.far_value a.
Proof.
  unfold FrameDifferentialDetector.assess_anomaly.
  by destruct (FrameDifferentialDetector._calculate_severity a).
Qed.

Lemma assess_transient a :
  FrameAnomaly.transient (FrameDifferentialDetector.assess_anomaly a)
  = FrameAnomaly.transient a.
Proof.
  unfold FrameDifferentialDetector.assess_anomaly.
  by destruct (FrameDifferentialDetector._calculate_severity a).
Qed.

Lemma assess_bits_changed a :
  FrameAnomaly.bits_changed (FrameDifferentialDetector.assess_anomaly a)
  = FrameAnomaly.bits_changed a.
Proof.
  unfold FrameDifferentialDetector.assess_anomaly.
  by destruct (FrameDifferentialDetector._calculate_severity a).
Qed.

Lemma assess_anomaly_type a :
  FrameAnomaly.anomaly_type (FrameDifferentialDetector.assess_anomaly a)
  = FrameAnomaly.anomaly_type a.
Proof.
  unfold FrameDifferentialDetector.assess_anomaly.
  by destruct (FrameDifferentialDetector._calculate_severity a).
Qed.

Lemma assess_severity a :
  FrameAnomaly.severity (FrameDifferentialDetector.assess_anomaly a)
  = (FrameDifferentialDetector._calculate_severity a).1.
Proof.
  unfold FrameDifferentialDetector.assess_anomaly.
  by destruct (FrameDifferentialDetector._calculate_severity a).
Qed.

(** The transient override: Phase 4 rates a transient anomaly HIGH or
    CRITICAL. *)
Lemma calculate_severity_transient a :
  FrameAnomaly.transient a = true →
  (FrameDifferentialDetector._calculate_severity a).1 = HIGH
  ∨ (FrameDifferentialDetector._calculate_severity a).1 = CRITICAL.
Proof.
  intros Ht. unfold FrameDifferentialDetector._calculate_severity.
  rewrite Ht.
  repeat (match goal with
          | |- context [if ?b then _ else _] => destruct b eqn:?
          end; cbn); auto;
    exfalso;
    match goal with
    | H : bool_decide _ = false |- _ =>
        apply bool_decide_eq_false in H; apply H; repeat constructor
    end.
Qed.

(** Phase 4 never rates an anomaly INFO. *)
Lemma calculate_severity_range a :
  1 <= severity_rank (FrameDifferentialDetector._calculate_severity a).1.
Proof.
  unfold FrameDifferentialDetector._calculate_severity.
  repeat match goal with
         | |- context [if ?b then _ else _] => destruct b
         end; cbn; lia.
Qed.

(** ** Phase 1: structural differences *)

(** A removed FAR whose golden frame is stored makes the constructor call
    raise; one without a stored frame is skipped. *)
Lemma create_removed_cases far g :
  FrameDifferentialDetector._create_removed_frame_anomaly far g
  = match GoldenBaseline._frames g !! far with
    | None => Ok None
    | Some _ => Raise NameError
    end.
Proof.
  unfold FrameDifferentialDetector._create_removed_frame_anomaly,
    GoldenBaseline.get_frame.
  by destruct (GoldenBaseline._frames g !! far).
Qed.

Lemma structural_Ok_inv g s st :
  FrameDifferentialDetector._detect_structural_differences g s = Ok st →
  st = added_anomalies g s
  ∧ ∀ far, far ∈ golden_fars g → far ∉ suspect_fars s →
           GoldenBaseline._frames g !! far = None.
Proof.
  unfold FrameDifferentialDetector._detect_structural_differences.
  rewrite suspect_far_set_dom.
  destruct (collectM _ _) as [removed|] eqn:Hrem; [|discriminate].
  simpl. intros [= <-].
  assert (Hnone : ∀ far, far ∈ golden_fars g → far ∉ suspect_fars s →
            GoldenBaseline._frames g !! far = None).
  { intros far Hg Hs.
    assert (far ∈ elements (golden_fars g ∖ suspect_fars s)) as Hin
      by (apply elem_of_elements; set_solver).
    destruct (GoldenBaseline._frames g !! far) eqn:Hf; [|done].
    exfalso.
    rewrite (collectM_raises _ NameError _ far) in Hrem; [done|done|..].
    - by rewrite create_removed_cases, Hf.
    - intros y _. rewrite create_removed_cases.
      destruct (GoldenBaseline._frames g !! y); [by right|by left]. }
  split; [|done].
  assert (removed = []) as ->; [|by rewrite app_nil_r].
  destruct removed as [|a removed]; [done|]. exfalso.
  assert (a ∈ a :: removed) as Ha by (by left).
  apply (collectM_elem_of _ _ _ _ Hrem) in Ha as (far & ys & Hfar & Hf & Ha).
  rewrite create_removed_cases in Hf.
  destruct (GoldenBaseline._frames g !! far); [done|].
  injection Hf as <-. by apply elem_of_nil in Ha.
Qed.

Lemma structural_returns g s :
  (∀ far, far ∈ golden_fars g → far ∉ suspect_fars s →
          GoldenBaseline._frames g !! far = None) →
  FrameDifferentialDetector._detect_structural_differences g s
  = Ok (added_anomalies g s).
Proof.
  intros Hnone.
  destruct (FrameDifferentialDetector._detect_structural_differences g s)
    as [st|e] eqn:Hst.
  - by apply structural_Ok_inv in Hst as [-> _].
  - exfalso. revert Hst.
    unfold FrameDifferentialDetector._detect_structural_differences.
    rewrite suspect_far_set_dom.
    destruct (collectM_returns
                (λ far, option_list <$>
                   FrameDifferentialDetector._create_removed_frame_anomaly
                     far g)
                (elements (GoldenBaseline.get_expected_frames g
                           ∖ suspect_fars s))) as [zs ->]; [|done].
    intros far Hfar. apply elem_of_elements in Hfar.
    rewrite create_removed_cases.
    rewrite Hnone; [by eexists|set_solver..].
Qed.

(** Every run with a removed frame stops with [NameError]. *)
Lemma structural_raises g s far gf :
  far ∈ golden_fars g → far ∉ suspect_fars s →
  GoldenBaseline._frames g !! far = Some gf →
  FrameDifferentialDetector._detect_structural_differences g s
  = Raise NameError.
Proof.
  intros Hg Hs Hf.
  destruct (FrameDifferentialDetector._detect_structural_differences g s)
    as [st|e] eqn:Hst.
  - apply structural_Ok_inv in Hst as [_ Hnone].
    rewrite Hnone in Hf; done.
  - revert Hst.
    unfold FrameDifferentialDetector._detect_structural_differences.
    rewrite suspect_far_set_dom.
    rewrite (collectM_raises _ NameError _ far); [by intros [= <-]|..].
    + apply elem_of_elements. set_solver.
    + by rewrite create_removed_cases, Hf.
    + intros y _. rewrite create_removed_cases.
      destruct (GoldenBaseline._frames g !! y); [by right|by left].
Qed.

Lemma elem_of_added_anomalies g s a :
  a ∈ added_anomalies g s ↔
  ∃ far, far ∈ suspect_fars s ∧ (far ∉ golden_fars g)
         ∧ FrameDifferentialDetector._create_added_frame_anomaly far s
           = Some a.
Proof.
  unfold added_anomalies. rewrite list_elem_of_omap.
  setoid_rewrite elem_of_elements. set_solver.
Qed.

Lemma create_added_Some far s sf :
  LoadedBitstream._frame_by_far s !! far = Some sf →
  ∃ a, FrameDifferentialDetector._create_added_frame_anomaly far s = Some a
       ∧ FrameAnomaly.far_value a = far
       ∧ FrameAnomaly.anomaly_type a = FRAME_ADDED
       ∧ FrameAnomaly.severity a = MEDIUM
       ∧ FrameAnomaly.transient a = false
       ∧ FrameAnomaly.bits_changed a
         = FrameDataExtractor.count_set_bits (AdaptedFrame.frame_data sf).
Proof.
  intros Hsf. unfold FrameDifferentialDetector._create_added_frame_anomaly,
    LoadedBitstream.get_frame.
  rewrite Hsf. eexists. split; [reflexivity|].
  split; [reflexivity|]. split; [reflexivity|]. split; [reflexivity|].
  split; reflexivity.
Qed.

Lemma create_added_inv far s a :
  FrameDifferentialDetector._create_added_frame_anomaly far s = Some a →
  FrameAnomaly.far_value a = far
  ∧ FrameAnomaly.anomaly_type a = FRAME_ADDED
  ∧ FrameAnomaly.severity a = MEDIUM
  ∧ FrameAnomaly.transient a = false.
Proof.
  unfold FrameDifferentialDetector._create_added_frame_anomaly.
  destruct (LoadedBitstream.get_frame s far); [|discriminate].
  intros H. ok_inj H. rewrite <-H.
  split; [reflexivity|]. split; [reflexivity|]. split; reflexivity.
Qed.

(** ** Phase 2: data differences *)

Section modified.
Variable self : FrameDifferentialDetector.t.

Lemma create_modified_inv gf sf tr ref a :
  FrameDifferentialDetector._create_modified_frame_anomaly self gf sf tr ref
  = Ok (Some a) →
  FrameAnomaly.far_value a = AdaptedFrame.far_value gf
  ∧ FrameAnomaly.severity a = MEDIUM
  ∧ FrameAnomaly.transient a = tr.
Proof.
  unfold FrameDifferentialDetector._create_modified_frame_anomaly.
  destruct (FrameDataExtractor.compare_frames _ _) as [diff|];
    [|discriminate].
  cbn -[FrameMapper.map_frame bool_decide].
  case_bool_decide; [discriminate|].
  destruct tr; [case_bool_decide|]; intros Ha; ok_inj Ha; rewrite <-Ha;
    (split; [reflexivity|]; split; reflexivity).
Qed.

(** On 164-byte payloads the constructor returns, and it returns an
    anomaly exactly when at least [min_bits_for_significance] bits
    differ. *)
Lemma create_modified_ok gf sf tr ref :
  let reference := default (AdaptedFrame.frame_data gf) ref in
  frame_ok reference → frame_ok (AdaptedFrame.frame_data sf) →
  ∃ o,
    FrameDifferentialDetector._create_modified_frame_anomaly
      self gf sf tr ref = Ok o
    ∧ (Z.of_nat (differing_bits reference (AdaptedFrame.frame_data sf))
       < FrameDifferentialDetector.min_bits_for_significance self →
       o = None)
    ∧ (¬ Z.of_nat (differing_bits reference (AdaptedFrame.frame_data sf))
         < FrameDifferentialDetector.min_bits_for_significance self →
       ∃ a, o = Some a
            ∧ FrameAnomaly.bits_changed a
              = Z.of_nat (differing_bits reference
                                         (AdaptedFrame.frame_data sf))).
Proof.
  intros reference Href Hsf.
  unfold FrameDifferentialDetector._create_modified_frame_anomaly.
  assert (match ref with
          | Some d => d
          | None => AdaptedFrame.frame_data gf
          end = reference) as -> by (by destruct ref).
  rewrite (compare_frames_ok _ _ Href Hsf).
  cbn -[FrameMapper.map_frame bool_decide diff_positions].
  fold (differing_bits reference (AdaptedFrame.frame_data sf)).
  case_bool_decide.
  - eexists. split; [reflexivity|]. split; [reflexivity|].
    intros Hn. by destruct Hn.
  - eexists. split; [reflexivity|]. split; [intros Hlt; by destruct H|].
    intros _. eexists. split; [reflexivity|].
    destruct tr; [case_bool_decide|]; reflexivity.
Qed.
End modified.

Lemma fmap_option_list_Ok {A} (m : result (option A)) ys :
  option_list <$> m = Ok ys →
  (m = Ok None ∧ ys = []) ∨ (∃ a, m = Ok (Some a) ∧ ys = [a]).
Proof.
  destruct m as [[a|]|e]; cbn; intros H; [| |discriminate];
    apply (inj Ok) in H; subst ys; eauto.
Qed.

Section data_phase.
Variable self : FrameDifferentialDetector.t.

Lemma transient_inv gf sh gh l :
  FrameDifferentialDetector._detect_transient_history_mismatches
    self gf sh gh = Ok l →
  Forall (λ a, tentative (AdaptedFrame.far_value gf) a
               ∧ FrameAnomaly.transient a = true) l.
Proof.
  unfold FrameDifferentialDetector._detect_transient_history_mismatches.
  destruct (collectM _ (zip sh gh)) as [ms|] eqn:Hms; [|discriminate].
  cbn -[collectM].
  destruct (collectM _ (drop _ sh)) as [es|] eqn:Hes; [|discriminate].
  cbn. intros Hq. apply (inj Ok) in Hq. subst l. apply Forall_app. split.
  - eapply collectM_Forall; [|exact Hms].
    intros [w expected] ys _. cbn -[option_list]. case_decide.
    + intros [[_ ->]|(a & Ha & ->)]%fmap_option_list_Ok; [constructor|].
      apply create_modified_inv in Ha as (? & ? & ?).
      repeat constructor; done.
    + intros Hq. apply (inj Ok) in Hq. subst ys. constructor.
  - eapply collectM_Forall; [|exact Hes].
    intros w ys _.
    intros [[_ ->]|(a & Ha & ->)]%fmap_option_list_Ok; [constructor|].
    apply create_modified_inv in Ha as (? & ? & ?).
    repeat constructor; done.
Qed.

Lemma transient_returns gf sh gh :
  frame_ok (AdaptedFrame.frame_data gf) →
  Forall (λ w, frame_ok (AdaptedFrame.frame_data w)) sh →
  Forall frame_ok gh →
  ∃ l, FrameDifferentialDetector._detect_transient_history_mismatches
         self gf sh gh = Ok l.
Proof.
  intros Hgf Hsh Hgh.
  unfold FrameDifferentialDetector._detect_transient_history_mismatches.
  destruct (collectM_returns
    (λ '(suspect_frame, expected_data),
       if decide (AdaptedFrame.frame_data suspect_frame ≠ expected_data)
       then option_list <$>
              FrameDifferentialDetector._create_modified_frame_anomaly
                self gf suspect_frame true (Some expected_data)
       else Ok [])
    (zip sh gh)) as [ms ->].
  { intros [w expected] Hin.
    apply elem_of_zip_l in Hin as Hw. apply elem_of_zip_r in Hin as He.
    cbn in Hw, He. rewrite Forall_forall in Hsh. rewrite Forall_forall in Hgh.
    case_decide; [|by eexists].
    destruct (create_modified_ok self gf w true (Some expected))
      as (o & -> & _); [by apply Hgh|by apply Hsh|]. by eexists. }
  cbn -[collectM].
  destruct (collectM_returns
    (λ suspect_frame,
       option_list <$>
         FrameDifferentialDetector._create_modified_frame_anomaly
           self gf suspect_frame true (Some (AdaptedFrame.frame_data gf)))
    (drop (length gh) sh)) as [es ->].
  { intros w Hin. rewrite Forall_forall in Hsh.
    destruct (create_modified_ok self gf w true
                (Some (AdaptedFrame.frame_data gf)))
      as (o & -> & _); [done| |by eexists].
    apply Hsh. by apply (subseteq_drop (length gh) sh). }
  by eexists.
Qed.

(** A suspect write that differs enough from its reference is
    reported. *)
Lemma transient_hit gf sh gh l (i : nat) w :
  0 < FrameDifferentialDetector.min_bits_for_significance self →
  frame_ok (AdaptedFrame.frame_data gf) →
  Forall (λ w, frame_ok (AdaptedFrame.frame_data w)) sh →
  Forall frame_ok gh →
  FrameDifferentialDetector._detect_transient_history_mismatches
    self gf sh gh = Ok l →
  sh !! i = Some w →
  ¬ Z.of_nat (differing_bits (default (AdaptedFrame.frame_data gf) (gh !! i))
                             (AdaptedFrame.frame_data w))
    < FrameDifferentialDetector.min_bits_for_significance self →
  ∃ a, a ∈ l.
Proof.
  intros Hmin Hgf Hsh Hgh Hl Hw Hdiff. revert Hl.
  unfold FrameDifferentialDetector._detect_transient_history_mismatches.
  destruct (collectM _ (zip sh gh)) as [ms|] eqn:Hms; [|discriminate].
  cbn -[collectM].
  destruct (collectM _ (drop _ sh)) as [es|] eqn:Hes; [|discriminate].
  cbn. intros Hq. apply (inj Ok) in Hq. subst l.
  rewrite Forall_forall in Hsh. rewrite Forall_forall in Hgh.
  assert (frame_ok (AdaptedFrame.frame_data w)) as Hwok
    by (apply Hsh; by eapply list_elem_of_lookup_2).
  destruct (gh !! i) as [expected|] eqn:Hgi; cbn in Hdiff.
  - assert (frame_ok expected) as Heok
      by (apply Hgh; by eapply list_elem_of_lookup_2).
    destruct (create_modified_ok self gf w true (Some expected))
      as (o & Ho & _ & Hsome); [done..|].
    destruct (Hsome Hdiff) as (a & -> & _).
    exists a. apply elem_of_app. left.
    apply (collectM_elem_of _ _ _ _ Hms).
    exists (w, expected), [a]. split; [|split; [|by left]].
    + eapply list_elem_of_lookup_2. apply lookup_zip_with_Some.
      exists w, expected. done.
    + cbn -[option_list]. rewrite decide_True.
      * by rewrite Ho.
      * intros Heq. symmetry in Heq. revert Heq.
        apply differing_bits_pos_ne. lia.
  - destruct (create_modified_ok self gf w true
                (Some (AdaptedFrame.frame_data gf)))
      as (o & Ho & _ & Hsome); [done..|].
    destruct (Hsome Hdiff) as (a & -> & _).
    exists a. apply elem_of_app. right.
    apply (collectM_elem_of _ _ _ _ Hes).
    exists w, [a]. split; [|split; [by rewrite Ho|by left]].
    apply lookup_ge_None in Hgi.
    eapply (list_elem_of_lookup_2 _ (i - length gh)%nat).
    rewrite lookup_drop. rewrite <-Hw. f_equal. lia.
Qed.

Section one_far.
Variables (g : GoldenBaseline.t) (s : LoadedBitstream.t).

Lemma golden_frame_ok far gf :
  wf_golden g →
  GoldenBaseline._frames g !! far = Some gf →
  AdaptedFrame.far_value gf = far ∧ frame_ok (AdaptedFrame.frame_data gf).
Proof. intros [Hf _] H. exact (Hf _ _ H). Qed.

Lemma suspect_frame_ok far sf :
  wf_suspect s →
  LoadedBitstream._frame_by_far s !! far = Some sf →
  AdaptedFrame.far_value sf = far ∧ frame_ok (AdaptedFrame.frame_data sf).
Proof. intros [Hf _] H. exact (Hf _ _ H). Qed.

Lemma golden_history_ok far :
  wf_golden g →
  Forall frame_ok (GoldenBaseline.get_write_history g far).
Proof.
  intros [_ Hh]. unfold GoldenBaseline.get_write_history.
  destruct (GoldenBaseline._write_history g !! far) eqn:E; [|constructor].
  exact (Hh _ _ E).
Qed.

Lemma suspect_history_ok far :
  wf_suspect s →
  Forall (λ w, frame_ok (AdaptedFrame.frame_data w))
         (LoadedBitstream.get_write_history s far).
Proof.
  intros [_ Hh]. unfold LoadedBitstream.get_write_history.
  destruct (LoadedBitstream._write_history s !! far) eqn:E;
    [|constructor].
  exact (Hh _ _ E).
Qed.

Lemma compare_common_inv far l :
  wf_golden g →
  FrameDifferentialDetector.compare_common_frame self g s far = Ok l →
  Forall (tentative far) l.
Proof.
  intros Hg. unfold FrameDifferentialDetector.compare_common_frame,
    GoldenBaseline.get_frame, LoadedBitstream.get_frame.
  destruct (GoldenBaseline._frames g !! far) as [gf|] eqn:Hgf;
    [|intros H; apply (inj Ok) in H; subst l; constructor].
  destruct (LoadedBitstream._frame_by_far s !! far) as [sf|] eqn:Hsf;
    [|intros H; apply (inj Ok) in H; subst l; constructor].
  destruct (golden_frame_ok _ _ Hg Hgf) as [Hfar _].
  case_decide.
  - intros [[_ ->]|(a & Ha & ->)]%fmap_option_list_Ok; [constructor|].
    apply create_modified_inv in Ha as (? & ? & ?).
    repeat constructor; congruence.
  - destruct (GoldenBaseline.get_write_history g far) as [|e gh];
      [intros H'; apply (inj Ok) in H'; subst l; constructor|].
    destruct (LoadedBitstream.get_write_history s far) as [|w sh];
      [intros H'; apply (inj Ok) in H'; subst l; constructor|].
    intros Hl%transient_inv. rewrite Hfar in Hl.
    eapply Forall_impl; [exact Hl|]. by intros a [? _].
Qed.

Lemma compare_common_returns far :
  wf_golden g → wf_suspect s →
  ∃ l, FrameDifferentialDetector.compare_common_frame self g s far = Ok l.
Proof.
  intros Hg Hs. unfold FrameDifferentialDetector.compare_common_frame,
    GoldenBaseline.get_frame, LoadedBitstream.get_frame.
  destruct (GoldenBaseline._frames g !! far) as [gf|] eqn:Hgf;
    [|by eexists].
  destruct (LoadedBitstream._frame_by_far s !! far) as [sf|] eqn:Hsf;
    [|by eexists].
  destruct (golden_frame_ok _ _ Hg Hgf) as [_ Hgok].
  destruct (suspect_frame_ok _ _ Hs Hsf) as [_ Hsok].
  case_decide.
  - destruct (create_modified_ok self gf sf false None)
      as (o & -> & _); [done..|]. by eexists.
  - pose proof (golden_history_ok far Hg) as Hgh.
    pose proof (suspect_history_ok far Hs) as Hsh.
    destruct (GoldenBaseline.get_write_history g far) as [|e gh];
      [by eexists|].
    destruct (LoadedBitstream.get_write_history s far) as [|w sh];
      [by eexists|].
    by apply transient_returns.
Qed.

Lemma data_returns :
  wf_golden g → wf_suspect s →
  ∃ da, FrameDifferentialDetector._detect_data_differences self g s
        = Ok da.
Proof.
  intros Hg Hs.
  unfold FrameDifferentialDetector._detect_data_differences.
  apply collectM_returns. intros far _.
  by apply compare_common_returns.
Qed.

(** The anomalies of Phase 2 at a common FAR are those of the round of
    that FAR. *)
Lemma data_at far da l :
  wf_golden g →
  FrameDifferentialDetector._detect_data_differences self g s = Ok da →
  far ∈ golden_fars g → far ∈ suspect_fars s →
  FrameDifferentialDetector.compare_common_frame self g s far = Ok l →
  anomalies_at far da = l.
Proof.
  unfold FrameDifferentialDetector._detect_data_differences.
  rewrite suspect_far_set_dom. intros Hg Hda Hing Hins Hl.
  unfold anomalies_at.
  apply (collectM_filter_key
           (FrameDifferentialDetector.compare_common_frame self g s)
           FrameAnomaly.far_value id
           (elements (GoldenBaseline.get_expected_frames g
                      ∩ suspect_fars s)) da far l);
    [apply NoDup_elements| |done|done| |done].
  - intros x ys z _ Hx Hz. apply compare_common_inv in Hx; [|done].
    rewrite Forall_forall in Hx. by destruct (Hx z Hz).
  - apply elem_of_elements. set_solver.
Qed.

Lemma data_inv da :
  wf_golden g →
  FrameDifferentialDetector._detect_data_differences self g s = Ok da →
  Forall (λ a, FrameAnomaly.severity a = MEDIUM
               ∧ FrameAnomaly.far_value a ∈ golden_fars g
               ∧ FrameAnomaly.far_value a ∈ suspect_fars s) da.
Proof.
  intros Hg.
  unfold FrameDifferentialDetector._detect_data_differences.
  rewrite suspect_far_set_dom.
  apply collectM_Forall. intros far ys Hfar Hys.
  apply elem_of_elements in Hfar.
  apply compare_common_inv in Hys; [|done].
  eapply Forall_impl; [exact Hys|].
  intros a [-> ?]. set_solver.
Qed.
End one_far.
End data_phase.

(** ** The report *)

Lemma detect_unfold self g s :
  FrameDifferentialDetector.detect self g s
  = (st ← FrameDifferentialDetector._detect_structural_differences g s;
     da ← FrameDifferentialDetector._detect_data_differences self g s;
     Ok (report_of g s (st ++ da))).
Proof.
  unfold FrameDifferentialDetector.detect, report_of.
  destruct (FrameDifferentialDetector._detect_structural_differences g s)
    as [st|]; [|reflexivity].
  cbn -[FrameDifferentialDetector._detect_data_differences].
  destruct (FrameDifferentialDetector._detect_data_differences self g s)
    as [da|]; [|reflexivity].
  cbn. by rewrite foldl_app.
Qed.

Lemma detect_Ok_inv self g s r :
  FrameDifferentialDetector.detect self g s = Ok r →
  ∃ da,
    FrameDifferentialDetector._detect_structural_differences g s
    = Ok (added_anomalies g s)
    ∧ FrameDifferentialDetector._detect_data_differences self g s = Ok da
    ∧ r = report_of g s (added_anomalies g s ++ da).
Proof.
  rewrite detect_unfold.
  destruct (FrameDifferentialDetector._detect_structural_differences g s)
    as [st|] eqn:Hst; [|discriminate].
  cbn -[FrameDifferentialDetector._detect_data_differences].
  destruct (FrameDifferentialDetector._detect_data_differences self g s)
    as [da|] eqn:Hda; [|discriminate].
  cbn. intros Hr. apply (inj Ok) in Hr.
  apply structural_Ok_inv in Hst as Hst'. destruct Hst' as [-> _].
  by exists da.
Qed.

Lemma report_of_anomalies g s l :
  AnomalyReport.anomalies (report_of g s l)
  = FrameDifferentialDetector.assess_anomaly
      <$> (FrameDifferentialDetector.classify_anomaly g <$> l).
Proof.
  unfold report_of. cbn.
  rewrite report_anomalies_foldl. reflexivity.
Qed.

(** The counters of the report count the severities the anomalies had when
    they were added. *)
Lemma tally_counts r l :
  let r' := foldl AnomalyReport.add_anomaly r l in
  AnomalyReport.critical_count r'
  = AnomalyReport.critical_count r + count_severity CRITICAL l
  ∧ AnomalyReport.high_count r'
    = AnomalyReport.high_count r + count_severity HIGH l
  ∧ AnomalyReport.medium_count r'
    = AnomalyReport.medium_count r + count_severity MEDIUM l
  ∧ AnomalyReport.low_count r'
    = AnomalyReport.low_count r + count_severity LOW l.
Proof.
  revert r. induction l as [|a l IH]; intros r.
  - cbn. unfold count_severity. cbn. lia.
  - cbn -[count_severity]. specialize (IH (AnomalyReport.add_anomaly r a)).
    cbn -[count_severity] in IH. destruct IH as (-> & -> & -> & ->).
    unfold count_severity. rewrite !filter_cons. cbn.
    repeat case_decide; cbn; repeat split; try lia; congruence.
Qed.

Lemma report_of_counts g s l :
  AnomalyReport.critical_count (report_of g s l) = count_severity CRITICAL l
  ∧ AnomalyReport.high_count (report_of g s l) = count_severity HIGH l
  ∧ AnomalyReport.medium_count (report_of g s l) = count_severity MEDIUM l
  ∧ AnomalyReport.low_count (report_of g s l) = count_severity LOW l
  ∧ AnomalyReport.trojan_detected (report_of g s l)
    = bool_decide (count_severity CRITICAL l > 0)
      || bool_decide (count_severity HIGH l >= 3).
Proof.
  destruct (tally_counts AnomalyReport.__init__ l) as (Hc & Hh & Hm & Hl).
  unfold report_of. cbn -[count_severity foldl] in *.
  rewrite Hc, Hh, Hm, Hl. repeat split; reflexivity.
Qed.

Lemma count_severity_none sev l :
  Forall (λ a, FrameAnomaly.severity a ≠ sev) l → count_severity sev l = 0.
Proof.
  intros H. unfold count_severity. rewrite filter_none; [done|].
  rewrite Forall_forall in H. intros a Ha. by apply H.
Qed.

Lemma compare_common_severity self g s far l :
  FrameDifferentialDetector.compare_common_frame self g s far = Ok l →
  Forall (λ a, FrameAnomaly.severity a = MEDIUM) l.
Proof.
  unfold FrameDifferentialDetector.compare_common_frame.
  destruct (GoldenBaseline.get_frame g far) as [gf|];
    [|intros Hq; apply (inj Ok) in Hq; subst l; constructor].
  destruct (LoadedBitstream.get_frame s far) as [sf|];
    [|intros Hq; apply (inj Ok) in Hq; subst l; constructor].
  case_decide.
  - intros [[_ ->]|(a & Ha & ->)]%fmap_option_list_Ok; [constructor|].
    apply create_modified_inv in Ha as (? & ? & ?).
    repeat constructor; congruence.
  - destruct (GoldenBaseline.get_write_history g far) as [|e gh];
      [intros H'; apply (inj Ok) in H'; subst l; constructor|].
    destruct (LoadedBitstream.get_write_history s far) as [|w sh];
      [intros H'; apply (inj Ok) in H'; subst l; constructor|].
    intros Hl%transient_inv.
    eapply Forall_impl; [exact Hl|]. by intros a [[_ ?] _].
Qed.

(** Every anomaly enters the report rated MEDIUM, so the counters of
    CRITICAL and HIGH anomalies stay at zero and the base detector never
    sets the verdict. *)
Lemma detect_never_flags self g s r :
  FrameDifferentialDetector.detect self g s = Ok r →
  AnomalyReport.critical_count r = 0
  ∧ AnomalyReport.high_count r = 0
  ∧ AnomalyReport.trojan_detected r = false.
Proof.
  intros (da & _ & Hda & ->)%detect_Ok_inv.
  destruct (report_of_counts g s (added_anomalies g s ++ da))
    as (-> & -> & _ & _ & ->).
  assert (Forall (λ a, FrameAnomaly.severity a = MEDIUM)
                 (added_anomalies g s ++ da)) as Hall.
  { apply Forall_app. split.
    - apply Forall_forall. intros a Ha.
      apply elem_of_added_anomalies in Ha as (far & _ & _ & Ha).
      by apply create_added_inv in Ha as (_ & _ & ? & _).
    - revert Hda. unfold FrameDifferentialDetector._detect_data_differences.
      apply collectM_Forall. intros far ys _.
      apply compare_common_severity. }
  rewrite !count_severity_none; [done|..];
    (eapply Forall_impl; [exact Hall|]; cbn; intros a ->; discriminate).
Qed.

(** C1.  The counters and the verdict do not follow the final severities.
    Golden: one clock frame (column 23, minor 2), all zero; suspect: the
    same frame with 20 bits flipped.  The run ends with one anomaly whose
    final severity is CRITICAL, yet [critical_count] is 0, [medium_count]
    is 1 and [trojan_detected] is false: [add_anomaly] counted the anomaly
    under the MEDIUM it carried before Phase 4 reassessed it. *)
Theorem counts_ignore_final_severity :
  severity_view
    <$> FrameDifferentialDetector.detect
          Scenario.detector Scenario.clock_golden Scenario.clock_suspect
  = Ok ([CRITICAL], (0, 0, 1, 0), false).
Proof. by vm_compute. Qed.

(** Every run in which a FAR of the golden baseline, with its stored
    frame, is absent from the suspect stops with [NameError]. *)
Lemma detect_raises_on_removed self g s far gf :
  far ∈ golden_fars g → far ∉ suspect_fars s →
  GoldenBaseline._frames g !! far = Some gf →
  FrameDifferentialDetector.detect self g s = Raise NameError.
Proof.
  intros Hg Hs Hf. rewrite detect_unfold.
  by rewrite (structural_raises g s far gf).
Qed.

(** C2.  A run with a removed frame does not return.  Golden: one CLB
    frame with 8 bits set; suspect: no frame.  [detect] raises
    [NameError]: [_create_removed_frame_anomaly] passes
    [golden_data=reference], and [reference] is not bound there. *)
Theorem removed_frame_raises_NameError :
  Scenario.clb_routing_far ∈ golden_fars Scenario.removed_golden
  ∧ (Scenario.clb_routing_far ∉ suspect_fars Scenario.removed_suspect)
  ∧ FrameDifferentialDetector.detect
      Scenario.detector Scenario.removed_golden Scenario.removed_suspect
    = Raise NameError.
Proof.
  split; [|split].
  - apply (bool_decide_unpack _). by vm_compute.
  - apply (bool_decide_unpack _). by vm_compute.
  - by vm_compute.
Qed.

(** A run returns when no FAR was removed and the payloads are
    well-formed. *)
Lemma detect_returns self g s :
  0 < FrameDifferentialDetector.min_bits_for_significance self →
  wf_golden g → wf_suspect s →
  golden_fars g ⊆ suspect_fars s →
  ∃ r, FrameDifferentialDetector.detect self g s = Ok r.
Proof.
  intros Hmin Hg Hs Hsub. rewrite detect_unfold.
  rewrite structural_returns by (intros far ? ?; set_solver).
  destruct (data_returns self g s Hg Hs) as [da Hda].
  cbn -[FrameDifferentialDetector._detect_data_differences].
  rewrite Hda. by eexists.
Qed.

Lemma anomalies_at_fmap far (f : FrameAnomaly.t → FrameAnomaly.t) l :
  (∀ a, FrameAnomaly.far_value (f a) = FrameAnomaly.far_value a) →
  anomalies_at far (f <$> l) = f <$> anomalies_at far l.
Proof.
  intros Hf. unfold anomalies_at. induction l as [|a l IH]; [done|].
  rewrite fmap_cons, !filter_cons, Hf.
  case_decide; [rewrite fmap_cons|]; by rewrite IH.
Qed.

Lemma anomalies_at_added g s far :
  far ∈ golden_fars g → anomalies_at far (added_anomalies g s) = [].
Proof.
  intros Hg. apply filter_none. intros a Ha Hfar.
  apply elem_of_added_anomalies in Ha as (far' & _ & Hnot & Ha).
  apply create_added_inv in Ha as (Hfar' & _). congruence.
Qed.

(** The anomalies of a finished report at a FAR of the golden baseline
    are those of Phase 2, after classification and assessment. *)
Lemma report_at_common self g s r far da :
  FrameDifferentialDetector.detect self g s = Ok r →
  FrameDifferentialDetector._detect_data_differences self g s = Ok da →
  far ∈ golden_fars g →
  anomalies_at far (AnomalyReport.anomalies r)
  = FrameDifferentialDetector.assess_anomaly
      <$> (FrameDifferentialDetector.classify_anomaly g
             <$> anomalies_at far da).
Proof.
  intros (da' & _ & Hda' & ->)%detect_Ok_inv Hda Hfar.
  assert (da' = da) as -> by congruence.
  rewrite report_of_anomalies.
  rewrite !anomalies_at_fmap
    by (intros; apply assess_far_value || apply classify_far_value).
  unfold anomalies_at at 1. rewrite filter_app.
  fold (anomalies_at far (added_anomalies g s)).
  by rewrite anomalies_at_added.
Qed.

Lemma init_min_bits :
  0 < FrameDifferentialDetector.min_bits_for_significance
        FrameDifferentialDetector.__init__.
Proof. reflexivity. Qed.

Lemma compare_common_differ self g s far gf sf :
  GoldenBaseline._frames g !! far = Some gf →
  LoadedBitstream._frame_by_far s !! far = Some sf →
  AdaptedFrame.frame_data gf ≠ AdaptedFrame.frame_data sf →
  FrameDifferentialDetector.compare_common_frame self g s far
  = option_list <$>
      FrameDifferentialDetector._create_modified_frame_anomaly
        self gf sf false None.
Proof.
  intros Hgf Hsf Hne. unfold FrameDifferentialDetector.compare_common_frame,
    GoldenBaseline.get_frame, LoadedBitstream.get_frame.
  rewrite Hgf, Hsf. by rewrite decide_True.
Qed.

Lemma compare_common_same self g s far gf sf :
  GoldenBaseline._frames g !! far = Some gf →
  LoadedBitstream._frame_by_far s !! far = Some sf →
  AdaptedFrame.frame_data gf = AdaptedFrame.frame_data sf →
  GoldenBaseline.get_write_history g far ≠ [] →
  LoadedBitstream.get_write_history s far ≠ [] →
  FrameDifferentialDetector.compare_common_frame self g s far
  = FrameDifferentialDetector._detect_transient_history_mismatches
      self gf (LoadedBitstream.get_write_history s far)
      (GoldenBaseline.get_write_history g far).
Proof.
  intros Hgf Hsf Heq Hgh Hsh.
  unfold FrameDifferentialDetector.compare_common_frame,
    GoldenBaseline.get_frame, LoadedBitstream.get_frame.
  rewrite Hgf, Hsf. rewrite decide_False by (intros Hne; by apply Hne).
  destruct (GoldenBaseline.get_write_history g far); [done|].
  by destruct (LoadedBitstream.get_write_history s far).
Qed.

(* ===================================================================== *)
(** * The loader and the baseline builder                                 *)
(* ===================================================================== *)

Lemma loader_init_snoc frames f :
  let s := LoadedBitstream.__init__ frames in
  let far := AdaptedFrame.far_value f in
  LoadedBitstream.__init__ (frames ++ [f])
  = {| LoadedBitstream.frames := frames ++ [f];
       LoadedBitstream._frame_by_far :=
         <[far := f]> (LoadedBitstream._frame_by_far s);
       LoadedBitstream._write_history :=
         <[far := default [] (LoadedBitstream._write_history s !! far) ++ [f]]>
           (LoadedBitstream._write_history s) |}.
Proof.
  unfold LoadedBitstream.__init__. rewrite foldl_snoc.
  destruct (foldl (flip LoadedBitstream.index_frame) (∅, ∅) frames)
    as [by_far history].
  reflexivity.
Qed.

Lemma loader_history_nonempty frames :
  map_Forall (λ _ h, h ≠ [])
    (LoadedBitstream._write_history (LoadedBitstream.__init__ frames)).
Proof.
  induction frames as [|f frames IH] using rev_ind.
  - apply map_Forall_empty.
  - rewrite loader_init_snoc. cbn [LoadedBitstream._write_history].
    apply map_Forall_insert_2; [|exact IH].
    intros Hnil. by apply app_eq_nil in Hnil as [_ ?].
Qed.

Lemma add_frames_loaded frames :
  GoldenBaseline.add_frames GoldenBaseline.__init__ frames
  = {| GoldenBaseline._frames :=
         LoadedBitstream._frame_by_far (LoadedBitstream.__init__ frames);
       GoldenBaseline._write_history := ∅;
       GoldenBaseline.configured_fars :=
         dom (LoadedBitstream._frame_by_far (LoadedBitstream.__init__ frames));
       GoldenBaseline.used_tiles := ∅ |}.
Proof.
  induction frames as [|f frames IH] using rev_ind.
  - cbn. by rewrite dom_empty_L.
  - unfold GoldenBaseline.add_frames in *. rewrite foldl_snoc, IH.
    rewrite loader_init_snoc. unfold GoldenBaseline.add_frame.
    cbn [GoldenBaseline._frames GoldenBaseline._write_history
         GoldenBaseline.configured_fars GoldenBaseline.used_tiles
         LoadedBitstream._frame_by_far].
    f_equal. rewrite dom_insert_L. set_solver.
Qed.

Lemma set_bulk_write_history_fresh g history_map :
  GoldenBaseline._write_history g = ∅ →
  map_Forall (λ _ h, h ≠ []) history_map →
  GoldenBaseline.set_bulk_write_history g history_map
  = {| GoldenBaseline._frames := GoldenBaseline._frames g;
       GoldenBaseline._write_history := history_map;
       GoldenBaseline.configured_fars := GoldenBaseline.configured_fars g;
       GoldenBaseline.used_tiles := GoldenBaseline.used_tiles g |}.
Proof.
  intros Hfresh. unfold GoldenBaseline.set_bulk_write_history.
  revert history_map.
  apply (map_fold_weak_ind
    (λ r m, map_Forall (λ _ h, h ≠ []) m →
            r = {| GoldenBaseline._frames := GoldenBaseline._frames g;
                   GoldenBaseline._write_history := m;
                   GoldenBaseline.configured_fars :=
                     GoldenBaseline.configured_fars g;
                   GoldenBaseline.used_tiles := GoldenBaseline.used_tiles g |})).
  - intros _. destruct g. cbn in *. by subst.
  - intros far history m r Hfar IH Hall.
    apply map_Forall_insert in Hall as [Hne Hall]; [|exact Hfar].
    rewrite (IH Hall). destruct history; [done|]. reflexivity.
Qed.

(** A baseline built from a loaded bitstream holds the FARs, the payloads
    and the write histories of that bitstream. *)
Lemma build_from_loaded_same frames :
  let s := LoadedBitstream.__init__ frames in
  let g := GoldenBaseline.build_from_loaded s in
  golden_fars g = suspect_fars s
  ∧ GoldenBaseline._frames g = LoadedBitstream._frame_by_far s
  ∧ GoldenBaseline._write_history g
    = (λ history : list AdaptedFrame.t, AdaptedFrame.frame_data <$> history)
        <$> LoadedBitstream._write_history s.
Proof.
  cbv zeta. unfold GoldenBaseline.build_from_loaded.
  assert (LoadedBitstream.frames (LoadedBitstream.__init__ frames) = frames)
    as ->.
  { unfold LoadedBitstream.__init__.
    by destruct (foldl (flip LoadedBitstream.index_frame) (∅, ∅) frames). }
  rewrite add_frames_loaded.
  rewrite set_bulk_write_history_fresh; [done|done|].
  apply map_Forall_fmap. eapply map_Forall_impl;
    [apply loader_history_nonempty|].
  intros far h Hne. cbn. by destruct h.
Qed.

(** The loader and the builder establish the invariants [wf_suspect] and
    [wf_golden] when every frame they are given has a 164-byte payload. *)
Lemma loader_wf frames :
  Forall (λ f, frame_ok (AdaptedFrame.frame_data f)) frames →
  wf_suspect (LoadedBitstream.__init__ frames).
Proof.
  induction frames as [|f frames IH] using rev_ind; intros Hall.
  - split; apply map_Forall_empty.
  - apply Forall_app in Hall as [Hall Hf]. rewrite Forall_singleton in Hf.
    destruct (IH Hall) as [Hby Hhist].
    rewrite loader_init_snoc. split.
    + cbn [LoadedBitstream._frame_by_far].
      apply map_Forall_insert_2; [by split|exact Hby].
    + cbn [LoadedBitstream._write_history].
      apply map_Forall_insert_2; [|exact Hhist].
      apply Forall_app. split; [|by apply Forall_singleton].
      destruct (LoadedBitstream._write_history _ !! _) as [h|] eqn:Hh;
        [|by apply Forall_nil].
      exact (Hhist _ _ Hh).
Qed.

Lemma builder_wf frames :
  Forall (λ f, frame_ok (AdaptedFrame.frame_data f)) frames →
  wf_golden
    (GoldenBaseline.build_from_loaded (LoadedBitstream.__init__ frames)).
Proof.
  intros Hall. destruct (loader_wf frames Hall) as [Hby Hhist].
  destruct (build_from_loaded_same frames) as (_ & Hframes & Hhistory).
  split.
  - by rewrite Hframes.
  - rewrite Hhistory. apply map_Forall_fmap.
    eapply map_Forall_impl; [exact Hhist|].
    intros far h Hh. cbn. by apply Forall_fmap.
Qed.

(* ===================================================================== *)
(** * Properties of the detector                                          *)
(* ===================================================================== *)

(** C7.  Noise floor of the Phase-2 data diff.  For a FAR common to a
    well-formed golden baseline and suspect, Phase 2 returns, and it holds
    no anomaly for that FAR when the two payloads differ in exactly 4 bit
    positions, and exactly one (with [bits_changed = 5]) when they differ
    in exactly 5.  The same counts are found in the report of every run
    that returns, and a run returns when no golden FAR is missing from the
    suspect. *)
Theorem noise_floor_boundary g s far gf sf :
  wf_golden g → wf_suspect s →
  far ∈ golden_fars g →
  GoldenBaseline._frames g !! far = Some gf →
  LoadedBitstream._frame_by_far s !! far = Some sf →
  let n := differing_bits (AdaptedFrame.frame_data gf)
                          (AdaptedFrame.frame_data sf) in
  (∃ da,
      FrameDifferentialDetector._detect_data_differences
        FrameDifferentialDetector.__init__ g s = Ok da
      ∧ (n = 4%nat → anomalies_at far da = [])
      ∧ (n = 5%nat →
         ∃ a, anomalies_at far da = [a] ∧ FrameAnomaly.bits_changed a = 5))
  ∧ (∀ r,
      FrameDifferentialDetector.detect FrameDifferentialDetector.__init__ g s
      = Ok r →
      (n = 4%nat → anomalies_at far (AnomalyReport.anomalies r) = [])
      ∧ (n = 5%nat →
         ∃ a, anomalies_at far (AnomalyReport.anomalies r) = [a]
              ∧ FrameAnomaly.bits_changed a = 5))
  ∧ (golden_fars g ⊆ suspect_fars s →
     ∃ r, FrameDifferentialDetector.detect
            FrameDifferentialDetector.__init__ g s = Ok r).
Proof.
  intros Hg Hs Hfar Hgf Hsf n.
  set (self := FrameDifferentialDetector.__init__).
  assert (far ∈ suspect_fars s) as Hfar'
    by (apply suspect_fars_lookup; by eexists).
  destruct (data_returns self g s Hg Hs) as [da Hda].
  destruct (golden_frame_ok g _ _ Hg Hgf) as [_ Hgok].
  destruct (suspect_frame_ok s _ _ Hs Hsf) as [_ Hsok].
  destruct (create_modified_ok self gf sf false None Hgok Hsok)
    as (o & Ho & Hnone & Hsome). cbn in Hnone, Hsome. fold n in Hnone, Hsome.
  assert (H4 : n = 4%nat → anomalies_at far da = []).
  { intros Hn. apply (data_at self g s far da); [done..|].
    rewrite (compare_common_differ self g s far gf sf); [|done..|].
    - rewrite Ho, Hnone; [done|lia].
    - apply differing_bits_pos_ne. fold n. lia. }
  assert (H5 : n = 5%nat →
            ∃ a, anomalies_at far da = [a] ∧ FrameAnomaly.bits_changed a = 5).
  { intros Hn. destruct Hsome as (a & -> & Hbits); [lia|].
    exists a. split; [|rewrite Hbits; lia].
    apply (data_at self g s far da); [done..|].
    rewrite (compare_common_differ self g s far gf sf); [|done..|].
    - by rewrite Ho.
    - apply differing_bits_pos_ne. fold n. lia. }
  split; [by exists da|]. split.
  - intros r Hr. rewrite (report_at_common self g s r far da Hr Hda Hfar).
    split.
    + intros Hn. by rewrite H4.
    + intros Hn. destruct (H5 Hn) as (a & -> & Hbits).
      eexists. split; [reflexivity|].
      by rewrite assess_bits_changed, classify_bits_changed.
  - intros Hsub. by apply detect_returns.
Qed.

Lemma noise_floor_boundary_witness :
  ∃ da a,
    FrameDifferentialDetector._detect_data_differences
      FrameDifferentialDetector.__init__
      Scenario.transient_golden Scenario.noise_suspect_5 = Ok da
    ∧ anomalies_at Scenario.clb_routing_far da = [a]
    ∧ FrameAnomaly.bits_changed a = 5.
Proof.
  destruct (noise_floor_boundary
              Scenario.transient_golden Scenario.noise_suspect_5
              Scenario.clb_routing_far
              (Scenario.frame Scenario.clb_routing_far Scenario.zeros 0)
              (Scenario.frame Scenario.clb_routing_far Scenario.bits5 0))
    as [(da & Hda & _ & H5) _].
  - apply (bool_decide_unpack _). vm_compute. exact I.
  - apply (bool_decide_unpack _). vm_compute. exact I.
  - apply (bool_decide_unpack _). vm_compute. exact I.
  - vm_compute. reflexivity.
  - vm_compute. reflexivity.
  - destruct H5 as (a & Ha & Hbits); [vm_compute; reflexivity|].
    exists da, a. split; [exact Hda|]. split; [exact Ha|exact Hbits].
Defined.

(** The transient writes that are reported.  For a FAR common to a
    well-formed golden baseline and suspect whose final payloads are equal
    and whose golden history was recorded, a suspect write [i] that
    differs in at least 5 bit positions from its reference (golden write
    [i], or the golden final payload when the golden history has no write
    [i]) is reported: Phase 2 emits an anomaly for that FAR with
    [transient = true], and in the report of every run that returns this
    FAR has a transient anomaly of final severity HIGH or CRITICAL.  A run
    returns when no golden FAR is missing from the suspect. *)
Theorem transient_write_reported g s far gf sf (i : nat) w :
  wf_golden g → wf_suspect s →
  far ∈ golden_fars g →
  GoldenBaseline._frames g !! far = Some gf →
  LoadedBitstream._frame_by_far s !! far = Some sf →
  AdaptedFrame.frame_data gf = AdaptedFrame.frame_data sf →
  GoldenBaseline.get_write_history g far ≠ [] →
  LoadedBitstream.get_write_history s far !! i = Some w →
  (5 ≤ differing_bits
         (default (AdaptedFrame.frame_data gf)
                  (GoldenBaseline.get_write_history g far !! i))
         (AdaptedFrame.frame_data w))%nat →
  (∃ da a,
      FrameDifferentialDetector._detect_data_differences
        FrameDifferentialDetector.__init__ g s = Ok da
      ∧ a ∈ da ∧ FrameAnomaly.far_value a = far
      ∧ FrameAnomaly.transient a = true)
  ∧ (∀ r,
      FrameDifferentialDetector.detect FrameDifferentialDetector.__init__ g s
      = Ok r →
      ∃ a, a ∈ AnomalyReport.anomalies r
           ∧ FrameAnomaly.far_value a = far
           ∧ FrameAnomaly.transient a = true
           ∧ severity_rank HIGH <= severity_rank (FrameAnomaly.severity a))
  ∧ (golden_fars g ⊆ suspect_fars s →
     ∃ r, FrameDifferentialDetector.detect
            FrameDifferentialDetector.__init__ g s = Ok r).
Proof.
  intros Hg Hs Hfar Hgf Hsf Heq Hgh Hw Hdiff.
  set (self := FrameDifferentialDetector.__init__).
  assert (far ∈ suspect_fars s) as Hfar'
    by (apply suspect_fars_lookup; by eexists).
  destruct (data_returns self g s Hg Hs) as [da Hda].
  destruct (golden_frame_ok g _ _ Hg Hgf) as [Hkey Hgok].
  pose proof (golden_history_ok g far Hg) as Hghok.
  pose proof (suspect_history_ok s far Hs) as Hshok.
  assert (LoadedBitstream.get_write_history s far ≠ []) as Hsh
    by (intros E; by rewrite E in Hw).
  pose proof (compare_common_same self g s far gf sf Hgf Hsf Heq Hgh Hsh)
    as Hround.
  destruct (transient_returns self gf _ _ Hgok Hshok Hghok) as [l Hl].
  destruct (transient_hit self gf _ _ l i w init_min_bits
              Hgok Hshok Hghok Hl Hw) as [a Ha]; [cbn; lia|].
  pose proof (transient_inv self gf _ _ l Hl) as Hall.
  rewrite Forall_forall in Hall. destruct (Hall a Ha) as [[Hafar _] Hatr].
  rewrite Hkey in Hafar.
  assert (anomalies_at far da = l) as Hat.
  { apply (data_at self g s far da); [done..|]. by rewrite Hround. }
  split; [|split].
  - exists da, a. split; [done|]. split; [|done].
    rewrite <-Hat in Ha. unfold anomalies_at in Ha.
    by apply list_elem_of_filter in Ha as [_ ?].
  - intros r Hr.
    pose proof (report_at_common self g s r far da Hr Hda Hfar) as Hrep.
    rewrite Hat in Hrep.
    exists (FrameDifferentialDetector.assess_anomaly
              (FrameDifferentialDetector.classify_anomaly g a)).
    split; [|split; [|split]].
    + assert (FrameDifferentialDetector.assess_anomaly
                (FrameDifferentialDetector.classify_anomaly g a)
              ∈ anomalies_at far (AnomalyReport.anomalies r)) as Hin
        by (rewrite Hrep; by do 2 apply list_elem_of_fmap_2).
      unfold anomalies_at in Hin.
      by apply list_elem_of_filter in Hin as [_ ?].
    + by rewrite assess_far_value, classify_far_value.
    + by rewrite assess_transient, classify_transient.
    + rewrite assess_severity.
      destruct (calculate_severity_transient
                  (FrameDifferentialDetector.classify_anomaly g a))
        as [-> | ->]; [by rewrite classify_transient|cbn; lia..].
  - intros Hsub. by apply detect_returns.
Qed.

Lemma transient_write_reported_witness :
  ∃ r a,
    FrameDifferentialDetector.detect FrameDifferentialDetector.__init__
      Scenario.transient_golden Scenario.transient_suspect_8bit = Ok r
    ∧ a ∈ AnomalyReport.anomalies r
    ∧ FrameAnomaly.far_value a = Scenario.clb_routing_far
    ∧ FrameAnomaly.transient a = true
    ∧ severity_rank HIGH <= severity_rank (FrameAnomaly.severity a).
Proof.
  destruct (transient_write_reported
              Scenario.transient_golden Scenario.transient_suspect_8bit
              Scenario.clb_routing_far
              (Scenario.frame Scenario.clb_routing_far Scenario.zeros 0)
              (Scenario.frame Scenario.clb_routing_far Scenario.zeros 1)
              0%nat
              (Scenario.frame Scenario.clb_routing_far Scenario.bits8 0))
    as (_ & Hrep & Hret).
  - apply (bool_decide_unpack _). vm_compute. exact I.
  - apply (bool_decide_unpack _). vm_compute. exact I.
  - apply (bool_decide_unpack _). vm_compute. exact I.
  - vm_compute. reflexivity.
  - vm_compute. reflexivity.
  - reflexivity.
  - vm_compute. discriminate.
  - vm_compute. reflexivity.
  - apply (bool_decide_unpack _). vm_compute. exact I.
  - destruct Hret as [r Hr];
      [apply (bool_decide_unpack _); vm_compute; exact I|].
    destruct (Hrep r Hr) as (a & Ha). exists r, a. split; [exact Hr|exact Ha].
Defined.

(** C6.  A transient write below the noise floor is ignored.  Golden
    writes the CLB frame once, all zero; the suspect first writes the
    frame with one bit set, then the all-zero payload.  The final payloads
    are equal and the histories differ at index 0, yet the run returns a
    report without any anomaly, so none that is transient and rated HIGH
    or above: [_create_modified_frame_anomaly] applies
    [min_bits_for_significance] to transient writes too and drops the
    one-bit difference, although [_calculate_severity] notes that
    transient writes should never be ignored. *)
Theorem transient_one_bit_not_reported :
  let g := Scenario.transient_golden in
  let s := Scenario.transient_suspect_1bit in
  let far := Scenario.clb_routing_far in
  far ∈ golden_fars g ∧ far ∈ suspect_fars s
  ∧ AdaptedFrame.frame_data <$> GoldenBaseline._frames g !! far
    = AdaptedFrame.frame_data <$> LoadedBitstream._frame_by_far s !! far
  ∧ GoldenBaseline.get_write_history g far !! 0%nat
    ≠ AdaptedFrame.frame_data
        <$> LoadedBitstream.get_write_history s far !! 0%nat
  ∧ ∃ r, FrameDifferentialDetector.detect Scenario.detector g s = Ok r
         ∧ AnomalyReport.anomalies r = []
         ∧ ¬ ∃ a, a ∈ AnomalyReport.anomalies r
                  ∧ FrameAnomaly.far_value a = far
                  ∧ FrameAnomaly.transient a = true
                  ∧ severity_rank HIGH
                    <= severity_rank (FrameAnomaly.severity a).
Proof.
  cbv zeta. split; [|split; [|split; [|split]]].
  - apply (bool_decide_unpack _). vm_compute. exact I.
  - apply (bool_decide_unpack _). vm_compute. exact I.
  - vm_compute. reflexivity.
  - vm_compute. discriminate.
  - eexists. split; [vm_compute; reflexivity|]. split; [reflexivity|].
    intros (a & Ha & _). cbn in Ha. by apply elem_of_nil in Ha.
Qed.

Lemma collectM_nil {A B} (f : A → result (list B)) l :
  (∀ x, x ∈ l → f x = Ok []) → collectM f l = Ok [].
Proof.
  induction l as [|x l IH]; intros H; [done|].
  rewrite (collectM_cons_Ok f x l [] []); [done|apply H; by left|].
  apply IH. intros y Hy. apply H. by right.
Qed.

(** Equal histories yield no transient anomaly. *)
Lemma transient_same self gf sh :
  FrameDifferentialDetector._detect_transient_history_mismatches
    self gf sh (AdaptedFrame.frame_data <$> sh) = Ok [].
Proof.
  unfold FrameDifferentialDetector._detect_transient_history_mismatches.
  rewrite length_fmap, drop_all.
  match goal with
  | |- context [collectM ?f (zip ?a ?b)] => rewrite (collectM_nil f (zip a b))
  end; [reflexivity|].
  intros [w expected] Hin.
  apply list_elem_of_lookup in Hin as [i Hi].
  apply lookup_zip_with_Some in Hi as (w' & e' & Heq & Hw & He).
  injection Heq as <- <-.
  rewrite list_lookup_fmap, Hw in He. injection He as <-.
  by rewrite decide_False by (intros Hne; by apply Hne).
Qed.

(** C8.  Detector idempotence on equal inputs: when the golden baseline and
    the suspect hold the same FARs, the same payload under every FAR and
    the same write history under every FAR, the run returns a report with
    no anomaly, [trojan_detected = false] and [total_bits_changed = 0]. *)
Theorem detect_identical_inputs g s :
  golden_fars g = suspect_fars s →
  AdaptedFrame.frame_data <$> GoldenBaseline._frames g
  = AdaptedFrame.frame_data <$> LoadedBitstream._frame_by_far s →
  GoldenBaseline._write_history g
  = (λ history : list AdaptedFrame.t, AdaptedFrame.frame_data <$> history)
      <$> LoadedBitstream._write_history s →
  ∃ r,
    FrameDifferentialDetector.detect FrameDifferentialDetector.__init__ g s
    = Ok r
    ∧ AnomalyReport.anomalies r = []
    ∧ AnomalyReport.trojan_detected r = false
    ∧ AnomalyReport.total_bits_changed r = 0.
Proof.
  intros Hfars Hdata Hhist.
  set (self := FrameDifferentialDetector.__init__).
  rewrite detect_unfold.
  rewrite structural_returns by (intros far ? ?; set_solver).
  assert (added_anomalies g s = []) as ->.
  { unfold added_anomalies.
    replace (suspect_fars s ∖ golden_fars g) with (∅ : gset Z)
      by set_solver.
    by rewrite elements_empty. }
  cbn -[FrameDifferentialDetector._detect_data_differences].
  assert (FrameDifferentialDetector._detect_data_differences self g s = Ok [])
    as ->.
  { unfold FrameDifferentialDetector._detect_data_differences.
    apply collectM_nil. intros far _.
    unfold FrameDifferentialDetector.compare_common_frame,
      GoldenBaseline.get_frame, LoadedBitstream.get_frame.
    pose proof (f_equal (λ m, m !! far) Hdata) as Hd. cbn in Hd.
    rewrite !lookup_fmap in Hd.
    destruct (GoldenBaseline._frames g !! far) as [gf|]; [|done].
    destruct (LoadedBitstream._frame_by_far s !! far) as [sf|]; [|done].
    cbn in Hd. injection Hd as Hd.
    rewrite decide_False by (intros Hne; by apply Hne).
    unfold GoldenBaseline.get_write_history,
      LoadedBitstream.get_write_history.
    rewrite Hhist, lookup_fmap.
    destruct (LoadedBitstream._write_history s !! far) as [sh|]; [|done].
    cbn -[FrameDifferentialDetector._detect_transient_history_mismatches].
    destruct sh as [|w sh]; [done|].
    rewrite fmap_cons. rewrite <-(fmap_cons AdaptedFrame.frame_data).
    apply transient_same. }
  eexists. split; [reflexivity|]. by cbn.
Qed.

Lemma detect_identical_inputs_witness :
  ∃ r,
    FrameDifferentialDetector.detect FrameDifferentialDetector.__init__
      Scenario.identity_golden Scenario.identity_suspect = Ok r
    ∧ AnomalyReport.anomalies r = []
    ∧ AnomalyReport.trojan_detected r = false
    ∧ AnomalyReport.total_bits_changed r = 0.
Proof.
  apply (detect_identical_inputs
           Scenario.identity_golden Scenario.identity_suspect).
  - vm_compute. reflexivity.
  - vm_compute. reflexivity.
  - vm_compute. reflexivity.
Defined.

(** C9.  An added frame is always reported: for every FAR of the suspect
    that the golden baseline does not hold, [_create_added_frame_anomaly]
    returns a FRAME_ADDED anomaly whose [bits_changed] is the number of set
    bits of the suspect payload, whatever that number is, and the report of
    every run that returns holds it.  A run returns when no golden FAR is
    missing from the suspect and the payloads are well-formed. *)
Theorem added_frame_always_reported g s far sf :
  LoadedBitstream._frame_by_far s !! far = Some sf →
  far ∉ golden_fars g →
  (∃ a,
      FrameDifferentialDetector._create_added_frame_anomaly far s = Some a
      ∧ FrameAnomaly.far_value a = far
      ∧ FrameAnomaly.anomaly_type a = FRAME_ADDED
      ∧ FrameAnomaly.bits_changed a = popcount (AdaptedFrame.frame_data sf))
  ∧ (∀ r,
      FrameDifferentialDetector.detect FrameDifferentialDetector.__init__ g s
      = Ok r →
      ∃ a, a ∈ AnomalyReport.anomalies r
           ∧ FrameAnomaly.far_value a = far
           ∧ FrameAnomaly.anomaly_type a = FRAME_ADDED
           ∧ FrameAnomaly.bits_changed a
             = popcount (AdaptedFrame.frame_data sf))
  ∧ (wf_golden g → wf_suspect s → golden_fars g ⊆ suspect_fars s →
     ∃ r, FrameDifferentialDetector.detect
            FrameDifferentialDetector.__init__ g s = Ok r).
Proof.
  intros Hsf Hnot.
  destruct (create_added_Some far s sf Hsf)
    as (a & Ha & Hfar & Hty & Hsev & Htr & Hbits).
  rewrite count_set_bits_popcount in Hbits.
  split; [by exists a|]. split.
  - intros r (da & _ & _ & ->)%detect_Ok_inv.
    exists (FrameDifferentialDetector.assess_anomaly
              (FrameDifferentialDetector.classify_anomaly g a)).
    split; [|split; [|split]].
    + rewrite report_of_anomalies. do 2 apply list_elem_of_fmap_2.
      apply elem_of_app. left. apply elem_of_added_anomalies.
      exists far. split; [|done]. apply suspect_fars_lookup. by eexists.
    + by rewrite assess_far_value, classify_far_value.
    + rewrite assess_anomaly_type, classify_anomaly_type; [done|].
      rewrite Hty. discriminate.
    + by rewrite assess_bits_changed, classify_bits_changed.
  - intros Hg Hs Hsub. by apply detect_returns.
Qed.

Lemma added_frame_always_reported_witness :
  ∃ r a,
    FrameDifferentialDetector.detect FrameDifferentialDetector.__init__
      Scenario.transient_golden Scenario.added_suspect = Ok r
    ∧ a ∈ AnomalyReport.anomalies r
    ∧ FrameAnomaly.far_value a = Scenario.clb_logic_far
    ∧ FrameAnomaly.anomaly_type a = FRAME_ADDED
    ∧ FrameAnomaly.bits_changed a = 0.
Proof.
  destruct (added_frame_always_reported
              Scenario.transient_golden Scenario.added_suspect
              Scenario.clb_logic_far
              (Scenario.frame Scenario.clb_logic_far Scenario.zeros 1))
    as (_ & Hrep & Hret).
  - vm_compute. reflexivity.
  - apply (bool_decide_unpack _). vm_compute. exact I.
  - destruct Hret as [r Hr];
      try (apply (bool_decide_unpack _); vm_compute; exact I).
    destruct (Hrep r Hr) as (a & Ha & Hfar & Hty & Hbits).
    exists r, a. split; [exact Hr|]. split; [exact Ha|].
    split; [exact Hfar|]. split; [exact Hty|].
    rewrite Hbits. vm_compute. reflexivity.
Defined.

(* ===================================================================== *)
(** * The lexer                                                           *)
(* ===================================================================== *)

Lemma advance_Some (self : FrameLexer.t) :
  (FrameLexer.pos self + 4 ≤ length (FrameLexer.payload self))%nat →
  FrameLexer.advance self
  = (FrameLexer.set_pos self (FrameLexer.pos self + 4),
     Some (take 4 (drop (FrameLexer.pos self) (FrameLexer.payload self)))).
Proof.
  intros H. unfold FrameLexer.advance. by rewrite bool_decide_eq_true_2.
Qed.

(** Reading payload words only moves [pos]. *)
Lemma read_words_only_moves fuel n (self : FrameLexer.t) :
  ∃ p, (FrameLexer.read_words fuel n self).1 = FrameLexer.set_pos self p.
Proof.
  revert n self. induction fuel as [|fuel IH]; intros n self.
  - exists (FrameLexer.pos self). by destruct self.
  - cbn -[FrameLexer.nextPacket]. case_bool_decide.
    + exists (FrameLexer.pos self). by destruct self.
    + unfold FrameLexer.nextPacket, FrameLexer.advance. case_bool_decide.
      * destruct (IH (n - 1)
                    (FrameLexer.set_pos self (FrameLexer.pos self + 4)))
          as [p Hp].
        destruct (FrameLexer.read_words fuel (n - 1) _) as [self'' ws].
        cbn in Hp. subst self''. by exists p.
      * exists (FrameLexer.pos self). by destruct self.
Qed.

(** The loops of the lexer are bounded by the payload: [read_words],
    [chunks] and [lexer_loop] give the same result for every fuel that
    covers what is left to read, so the fuel [length payload] that
    [do_lexing] and [lexer] pass never runs out. *)
Lemma read_words_fuel fuel1 fuel2 n (self : FrameLexer.t) :
  (length (FrameLexer.payload self) - FrameLexer.pos self < 4 * S fuel1)%nat →
  (length (FrameLexer.payload self) - FrameLexer.pos self < 4 * S fuel2)%nat →
  FrameLexer.read_words fuel1 n self = FrameLexer.read_words fuel2 n self.
Proof.
  revert fuel2 n self.
  induction fuel1 as [|fuel1 IH]; intros [|fuel2] n self H1 H2;
    [done|..]; cbn -[FrameLexer.nextPacket]; case_bool_decide; try done;
    unfold FrameLexer.nextPacket, FrameLexer.advance; case_bool_decide;
    try done; try lia.
  rewrite (IH fuel2); [done|cbn; lia..].
Qed.

Lemma read_words_pos fuel n (self : FrameLexer.t) :
  FrameLexer.payload (FrameLexer.read_words fuel n self).1
  = FrameLexer.payload self
  ∧ (FrameLexer.pos self ≤ FrameLexer.pos (FrameLexer.read_words fuel n self).1)%nat.
Proof.
  revert n self. induction fuel as [|fuel IH]; intros n self; [done|].
  cbn -[FrameLexer.nextPacket]. case_bool_decide; [done|].
  unfold FrameLexer.nextPacket, FrameLexer.advance. case_bool_decide; [|done].
  specialize (IH (n - 1) (FrameLexer.set_pos self (FrameLexer.pos self + 4))).
  destruct (FrameLexer.read_words fuel (n - 1) _) as [self'' ws].
  cbn in *. destruct IH as [-> ?]. split; [done|lia].
Qed.

Lemma chunks_fuel fuel1 fuel2 (frame_size : nat) (l : list FrameLexer.word) :
  (0 < frame_size)%nat →
  (length l ≤ fuel1)%nat → (length l ≤ fuel2)%nat →
  FrameLexer.chunks fuel1 frame_size l = FrameLexer.chunks fuel2 frame_size l.
Proof.
  intros Hpos. revert fuel2 l.
  induction fuel1 as [|fuel1 IH]; intros [|fuel2] [|w l] H1 H2;
    cbn in *; try done; try lia.
  f_equal. destruct frame_size as [|k]; [lia|]. cbn.
  apply IH; rewrite length_drop; lia.
Qed.

(** A round of the lexer keeps the payload and moves [pos] forward by at
    least one word. *)
Lemma lexer_step_progress (self self' : FrameLexer.t) :
  (FrameLexer.pos self + 4 ≤ length (FrameLexer.payload self))%nat →
  FrameLexer.lexer_step self = Ok self' →
  FrameLexer.payload self' = FrameLexer.payload self
  ∧ (FrameLexer.pos self + 4 ≤ FrameLexer.pos self')%nat.
Proof.
  intros Hlen. unfold FrameLexer.lexer_step. rewrite advance_Some by done.
  set (self1 := FrameLexer.set_pos self (FrameLexer.pos self + 4)).
  set (packet := take 4 _).
  assert (FrameLexer.payload self1 = FrameLexer.payload self) as Hp1 by done.
  assert (FrameLexer.pos self1 = FrameLexer.pos self + 4)%nat as Hq1 by done.
  clearbody self1 packet.
  unfold FrameLexer.do_lexing. cbv zeta.
  destruct (decide (Z.land (Z.shiftr (FrameLexer.from_bytes_big packet) 29) 7
                    = 1)) as [Hty1|Hty1].
  - destruct (_ && _).
    + unfold FrameLexer.nextPacket, FrameLexer.advance.
      case_bool_decide;
        (destruct (FrameLexer.interpret_far _) as [fields|]; [|done]);
        cbn; intros Hs; ok_inj Hs; subst self'; cbn; (split; [done|lia]).
    + intros Hs. ok_inj Hs. subst self'. split; [done|lia].
  - destruct (decide (Z.land (Z.shiftr (FrameLexer.from_bytes_big packet) 29) 7
                      = 2)) as [Hty2|Hty2].
    + destruct (read_words_pos (length (FrameLexer.payload self1))
                  (Z.land (FrameLexer.from_bytes_big packet) 33554431) self1)
        as [Hp Hq].
      destruct (FrameLexer.read_words _ _ self1) as [self2 ws].
      cbn in Hp, Hq.
      cbn -[FrameLexer.generate_frames FrameLexer.chunks].
      destruct (FrameLexer.last_far self2); [|done].
      destruct (FrameLexer.generate_frames _ _ _) as [[created frames]|];
        [|done].
      cbn. intros Hs. ok_inj Hs. subst self'. cbn. split; [congruence|lia].
    + intros Hs. ok_inj Hs. subst self'. split; [done|lia].
Qed.

Lemma lexer_loop_fuel fuel1 fuel2 (self : FrameLexer.t) :
  (length (FrameLexer.payload self) - FrameLexer.pos self < 4 * S fuel1)%nat →
  (length (FrameLexer.payload self) - FrameLexer.pos self < 4 * S fuel2)%nat →
  FrameLexer.lexer_loop fuel1 self = FrameLexer.lexer_loop fuel2 self.
Proof.
  revert fuel2 self.
  induction fuel1 as [|fuel1 IH]; intros [|fuel2] self H1 H2;
    [done|..]; cbn -[FrameLexer.lexer_step]; case_bool_decide as Hlen;
    try done; try lia.
  destruct (FrameLexer.lexer_step self) as [self'|] eqn:Hstep; [|done].
  destruct (lexer_step_progress self self' Hlen Hstep) as [Hp Hq].
  cbn. apply IH; rewrite Hp; lia.
Qed.

(** [lexer] is the loop run with any fuel that covers the payload. *)
Lemma lexer_fuel fuel (self : FrameLexer.t) :
  (length (FrameLexer.payload self) ≤ fuel)%nat →
  FrameLexer.lexer self
  = (self' ← FrameLexer.lexer_loop fuel self;
     Ok (FrameLexer.result_frames self')).
Proof.
  intros Hfuel. unfold FrameLexer.lexer.
  by rewrite (lexer_loop_fuel _ fuel) by lia.
Qed.

(** ** The column walker *)

Lemma generate_loop_walk rest w created max_iter start_idx acc :
  Z.of_nat (length rest) <= max_iter →
  FrameLexer.generate_loop rest w created max_iter start_idx acc
  = (frames ← walk w rest (start_idx + created);
     Ok (created + Z.of_nat (length rest), acc ++ frames)).
Proof.
  revert w created max_iter acc.
  induction rest as [|chunk rest IH]; intros w created max_iter acc Hfuel.
  - cbn. by rewrite Z.add_0_r, app_nil_r.
  - cbn [FrameLexer.generate_loop walk]. cbn [length] in Hfuel.
    rewrite bool_decide_eq_true_2 by lia.
    destruct (FrameLexer.walker_advance w) as [w'|]; [|reflexivity].
    cbn -[walk FrameLexer.generate_loop].
    rewrite IH by lia.
    replace (start_idx + (created + 1)) with (start_idx + created + 1) by lia.
    destruct (walk w' rest (start_idx + created + 1)) as [frames|];
      [|reflexivity].
    cbn [mbind result_bind rbind length]. f_equal.
    f_equal; [lia|]. by rewrite <-app_assoc.
Qed.

Lemma index_of_Some x l i :
  FrameLexer.index_of x l = Some i → l !! i = Some x.
Proof.
  revert i. induction l as [|y l IH]; intros i; [done|].
  cbn. case_decide.
  - intros [= <-]. by subst.
  - destruct (FrameLexer.index_of x l) as [j|]; [|done].
    cbn. intros [= <-]. by apply IH.
Qed.

Lemma blocks_cases block name :
  FrameLexer.Blocks !! block = Some name →
  (block = 0 ∧ name = "CLB") ∨ (block = 1 ∧ name = "BRAM")
  ∨ (block = 3 ∧ name = "DSP") ∨ (block = 4 ∧ name = "IO").
Proof.
  intros H. apply elem_of_map_to_list in H.
  remember (map_to_list FrameLexer.Blocks) as l eqn:E.
  vm_compute in E. subst l.
  repeat (apply elem_of_cons in H as [H|H]; [injection H as -> ->; auto|]).
  by apply elem_of_nil in H.
Qed.

Lemma major_list_cases block l :
  FrameLexer.major_list_for_block block = Some l →
  (block = 0 ∧ l = [0; 1; 2; 4; 6; 8; 10; 12; 14])
  ∨ (block = 1 ∧ l = [3; 9])
  ∨ (block = 3 ∧ l = [5; 11])
  ∨ (block = 4 ∧ l = [7; 13]).
Proof.
  unfold FrameLexer.major_list_for_block.
  destruct (FrameLexer.Blocks !! block) as [name|] eqn:Hb; [|done].
  cbn. intros Hl.
  destruct (blocks_cases _ _ Hb) as [[-> ->]|[[-> ->]|[[-> ->]|[-> ->]]]];
    vm_compute in Hl; injection Hl as <-; auto.
Qed.

Lemma major_list_known block name :
  FrameLexer.Blocks !! block = Some name →
  is_Some (FrameLexer.major_list_for_block block).
Proof.
  intros Hb. unfold FrameLexer.major_list_for_block. rewrite Hb.
  destruct (blocks_cases _ _ Hb) as [[-> ->]|[[-> ->]|[[-> ->]|[-> ->]]]];
    eexists; vm_compute; reflexivity.
Qed.

Lemma start_walker_ok sf :
  is_Some (FrameLexer.Blocks !! FrameLexer.f_block sf) →
  ∃ w, FrameLexer.start_walker sf = Ok w ∧ wf_walker w.
Proof.
  intros [name Hname]. unfold FrameLexer.start_walker.
  destruct (major_list_known _ _ Hname) as [l Hl]. rewrite Hl.
  destruct (FrameLexer.index_of (FrameLexer.f_column sf) l) as [i|] eqn:Hi.
  - eexists. split; [reflexivity|]. split; [done|].
    by apply index_of_Some.
  - destruct (major_list_cases _ _ Hl) as [[_ ->]|[[_ ->]|[[_ ->]|[_ ->]]]];
      (eexists; split; [reflexivity|]; split; [done|reflexivity]).
Qed.

Lemma walker_advance_ok w :
  wf_walker w →
  ∃ w',
    FrameLexer.walker_advance w = Ok w'
    ∧ wf_walker w'
    ∧ if bool_decide (FrameLexer.w_minor w + 1
                      < FrameLexer.max_minor (FrameLexer.w_column w))
      then walker_address w'
           = (FrameLexer.w_block w, FrameLexer.w_top_bottom w,
              FrameLexer.w_column w, FrameLexer.w_minor w + 1)
      else FrameLexer.w_minor w' = 0
           ∧ ∀ c, next_column_in_block (FrameLexer.w_block w)
                                       (FrameLexer.w_column w) = Some c →
                  FrameLexer.w_block w' = FrameLexer.w_block w
                  ∧ FrameLexer.w_top_bottom w' = FrameLexer.w_top_bottom w
                  ∧ FrameLexer.w_column w' = c.
Proof.
  destruct w as [blk tb col minor l idx]. intros [Hl Hcol]. cbn in Hl, Hcol.
  cbn [FrameLexer.w_block FrameLexer.w_top_bottom FrameLexer.w_column
       FrameLexer.w_minor].
  destruct (major_list_cases _ _ Hl) as [[-> ->]|[[-> ->]|[[-> ->]|[-> ->]]]];
    clear Hl;
    repeat (destruct idx as [|idx];
            [apply (inj Some) in Hcol; subst col|]);
    try (by destruct idx);
    unfold FrameLexer.walker_advance;
    cbn [FrameLexer.w_block FrameLexer.w_top_bottom FrameLexer.w_column
         FrameLexer.w_minor FrameLexer.w_major_list FrameLexer.w_maj_idx];
    match goal with
    | |- context [FrameLexer.max_minor ?c] =>
        let v := eval vm_compute in (FrameLexer.max_minor c) in
        change (FrameLexer.max_minor c) with v
    end;
    rewrite decide_False by discriminate;
    case_bool_decide;
    (eexists; split; [vm_compute; reflexivity|];
     split; [split; vm_compute; reflexivity|]);
    first
      [ solve [reflexivity]
      | split; [reflexivity|];
        intros c Hc; vm_compute in Hc;
        first [discriminate Hc
              |apply (inj Some) in Hc; subst c; repeat split; reflexivity] ].
Qed.

Lemma walk_ok w rest idx :
  wf_walker w →
  ∃ frames,
    walk w rest idx = Ok frames
    ∧ length frames = length rest
    ∧ (∀ f, head frames = Some f → frame_address f = walker_address w)
    ∧ walker_rule FrameLexer.max_minor frames.
Proof.
  revert w idx. induction rest as [|chunk rest IH]; intros w idx Hw.
  - exists []. split; [done|]. split; [done|]. split; [done|].
    intros k f f' Hk. done.
  - destruct (walker_advance_ok w Hw) as (w' & Hadv & Hw' & Hrule).
    destruct (IH w' (idx + 1) Hw') as (frames & Hwalk & Hlen & Hhead & Hrest).
    exists (FrameLexer.frame_at w chunk idx :: frames).
    split; [|split; [|split]].
    + cbn [walk]. rewrite Hadv. cbn -[walk]. rewrite Hwalk. reflexivity.
    + cbn. by rewrite Hlen.
    + intros f Hf. apply (inj Some) in Hf. subst f. reflexivity.
    + intros [|k] f f' Hk Hk'.
      * apply (inj Some) in Hk. subst f.
        cbn [FrameLexer.frame_at FrameLexer.minor FrameLexer.column
             FrameLexer.block_type FrameLexer.top_bottom].
        assert (frame_address f' = walker_address w') as Hf'.
        { apply Hhead. destruct frames; [done|]. exact Hk'. }
        case_bool_decide.
        -- by rewrite Hf'.
        -- unfold frame_address, walker_address in Hf'.
           injection Hf' as -> -> -> ->. exact Hrule.
      * exact (Hrest k f f' Hk Hk').
Qed.

(** C4, as the code has it.  [generate_frames] turns N chunks into N frame
    writes, for every start FAR whose block code is known, and successive
    writes follow the walker rule for the lexer's own table [MajorMinors]
    (36 frames for columns 0, 1, 2, 4, 6, 8, 10, 12 and 14, 30 for columns
    3 and 9, 28 for columns 5 and 11, 54 for columns 7 and 13): minor is
    incremented while the incremented minor is below the table entry of
    the column, and otherwise restarts at 0 in the next column of the same
    block. *)
Theorem walker_follows_lexer_table sf payload_frames start_idx :
  is_Some (FrameLexer.Blocks !! FrameLexer.f_block sf) →
  FrameLexer.max_minor <$> seqZ 0 15
  = [36; 36; 36; 30; 36; 28; 36; 54; 36; 30; 36; 28; 36; 54; 36]
  ∧ ∃ frames,
      FrameLexer.generate_frames sf payload_frames start_idx
      = Ok (Z.of_nat (length payload_frames), frames)
      ∧ length frames = length payload_frames
      ∧ walker_rule FrameLexer.max_minor frames.
Proof.
  intros Hblock. split; [by vm_compute|].
  destruct (start_walker_ok sf Hblock) as (w & Hstart & Hw).
  destruct (walk_ok w payload_frames (start_idx + 0) Hw)
    as (frames & Hwalk & Hlen & _ & Hrule).
  exists frames. split; [|done].
  unfold FrameLexer.generate_frames. rewrite Hstart.
  cbn -[FrameLexer.generate_loop Z.mul Z.of_nat].
  rewrite generate_loop_walk by lia. rewrite Hwalk.
  cbn -[Z.of_nat]. rewrite decide_False by (intros Hne; by apply Hne).
  reflexivity.
Qed.

Lemma walker_follows_lexer_table_witness :
  ∃ frames,
    FrameLexer.generate_frames Scenario.start_col0_minor35
      [Scenario.chunk41; Scenario.chunk41] 0 = Ok (2, frames)
    ∧ walker_rule FrameLexer.max_minor frames.
Proof.
  destruct (walker_follows_lexer_table Scenario.start_col0_minor35
              [Scenario.chunk41; Scenario.chunk41] 0)
    as (_ & frames & Hgen & _ & Hrule).
  - eexists. vm_compute. reflexivity.
  - exists frames. split; [exact Hgen|exact Hrule].
Defined.

(** C4 as stated fails: the walker does not follow the device table of
    [frame_rules.py].  Started at block 0, column 0, minor 35,
    [generate_frames] writes the second of two frames at column 1, minor
    0, although minor 36 is below the 54 frames that the device table
    gives for column 0. *)
Lemma walker_ignores_device_table :
  ¬ ∀ sf payload_frames start_idx created frames,
      FrameLexer.generate_frames sf payload_frames start_idx
      = Ok (created, frames) →
      walker_rule ColumnClassification.get_frames_per_column frames.
Proof.
  intros H.
  assert (∃ n f0 f1,
            FrameLexer.generate_frames Scenario.start_col0_minor35
              [Scenario.chunk41; Scenario.chunk41] 0 = Ok (n, [f0; f1])
            ∧ frame_address f0 = (0, 0, 0, 35)
            ∧ frame_address f1 = (0, 0, 1, 0))
    as (n & f0 & f1 & Hgen & Hf0 & Hf1).
  { do 3 eexists. split; [vm_compute; reflexivity|]. split; reflexivity. }
  specialize (H _ _ _ _ _ Hgen 0%nat f0 f1 eq_refl eq_refl).
  unfold frame_address in Hf0. injection Hf0 as _ _ Hcol Hmin.
  rewrite Hcol, Hmin in H.
  assert (bool_decide
            (35 + 1 < ColumnClassification.get_frames_per_column 0) = true)
    as Hbelow by (by vm_compute).
  rewrite Hbelow, Hf1 in H. injection H as _ _ Hc. discriminate Hc.
Qed.

(* ===================================================================== *)
(** * The two FAR layouts                                                 *)
(* ===================================================================== *)

(** Bits of a masked and shifted field. *)
Lemma testbit_field x s k n :
  0 <= s → 0 <= k →
  Z.testbit (Z.land (Z.shiftr x s) (Z.ones k)) n
  = bool_decide (0 <= n < k) && Z.testbit x (n + s).
Proof.
  intros Hs Hk. destruct (decide (0 <= n)) as [Hn|Hn].
  - rewrite Z.land_spec, Z.shiftr_spec by done.
    rewrite Z.testbit_ones_nonneg by done.
    destruct (Z.ltb_spec n k); case_bool_decide; try lia;
      by rewrite ?andb_true_r, ?andb_false_r.
  - rewrite Z.testbit_neg_r by lia. by rewrite bool_decide_eq_false_2 by lia.
Qed.

Lemma testbit_shiftl_field y s n :
  0 <= s →
  Z.testbit (Z.shiftl y s) n = bool_decide (s <= n) && Z.testbit y (n - s).
Proof.
  intros Hs. destruct (decide (0 <= n)).
  - rewrite Z.shiftl_spec by done.
    case_bool_decide; [done|]. apply Z.testbit_neg_r. lia.
  - rewrite Z.testbit_neg_r by lia. by rewrite bool_decide_eq_false_2 by lia.
Qed.

Lemma testbit_ones k n :
  0 <= k → Z.testbit (Z.ones k) n = bool_decide (0 <= n < k).
Proof.
  intros Hk. destruct (decide (0 <= n)).
  - rewrite Z.testbit_ones_nonneg by done.
    destruct (Z.ltb_spec n k); case_bool_decide; try lia; done.
  - rewrite Z.testbit_neg_r by lia. by rewrite bool_decide_eq_false_2 by lia.
Qed.

Lemma testbit_shiftr x s n :
  0 <= s →
  Z.testbit (Z.shiftr x s) n = bool_decide (0 <= n) && Z.testbit x (n + s).
Proof.
  intros Hs. case_bool_decide.
  - by rewrite Z.shiftr_spec.
  - by rewrite Z.testbit_neg_r by lia.
Qed.

(** Rewrites the bit [n] of a combination of masked and shifted fields
    into a boolean combination of bits of the numbers themselves. *)
Ltac field_bits :=
  repeat first
    [ rewrite Z.lor_spec | rewrite testbit_shiftl_field by done
    | rewrite testbit_field by done | rewrite testbit_ones by done
    | rewrite testbit_shiftr by done
    | rewrite Z.land_spec | rewrite Z.testbit_0_l ].

(** Closes a goal between boolean combinations of bits of [x], all of
    them the bit [i]. *)
Ltac solve_bits x i :=
  repeat match goal with
         | |- context [Z.testbit x ?j] =>
             progress replace j with i by lia
         end;
  destruct (Z.testbit x i);
  repeat (rewrite ?andb_true_r, ?andb_false_r, ?orb_false_r, ?orb_true_r;
          cbn [andb orb];
          try done;
          case_bool_decide; try lia);
  rewrite ?andb_true_r, ?andb_false_r, ?orb_false_r, ?orb_true_r;
  cbn [andb orb]; done.

(** X1.  Decoding a FAR and encoding its fields again.
    [encode] applied to the four fields of [decode far_value] gives back
    the low 26 bits of [far_value], for every integer [far_value]: on FARs
    below [2^26] this round trip is the identity. *)
Theorem far_decode_encode (far_value : Z) :
  let f := FrameAddress.decode far_value in
  FrameAddress.encode (FrameAddress.block_type f) (FrameAddress.top_bottom f)
    (FrameAddress.major f) (FrameAddress.minor f)
  = Z.land far_value 0x3FFFFFF.
Proof.
  cbv zeta. unfold FrameAddress.encode, FrameAddress.decode; cbn.
  unfold FrameAddress.BLOCK_TYPE_START, FrameAddress.TOP_BIT,
    FrameAddress.MAJOR_START, FrameAddress.MINOR_START.
  change 7 with (Z.ones 3). change 1 with (Z.ones 1) at 1 2.
  change 63 with (Z.ones 6). change 131071 with (Z.ones 17).
  change 67108863 with (Z.ones 26).
  rewrite <-!Z.land_assoc, !Z.land_diag.
  apply Z.bits_inj'. intros n Hn. field_bits. solve_bits far_value n.
Qed.

Lemma land_ones_bounds x k : 0 <= k → 0 <= Z.land x (Z.ones k) < 2 ^ k.
Proof.
  intros Hk. rewrite Z.land_ones by done.
  by apply Z.mod_pos_bound, Z.pow_pos_nonneg.
Qed.

Lemma decode_bounds far_value :
  let f := FrameAddress.decode far_value in
  0 <= FrameAddress.block_type f <= 7
  ∧ 0 <= FrameAddress.top_bottom f <= 1
  ∧ 0 <= FrameAddress.major f <= 63
  ∧ 0 <= FrameAddress.minor f <= 131071.
Proof.
  cbv zeta. unfold FrameAddress.decode; cbn.
  pose proof (land_ones_bounds (far_value ≫ FrameAddress.BLOCK_TYPE_START) 3).
  pose proof (land_ones_bounds (far_value ≫ FrameAddress.TOP_BIT) 1).
  pose proof (land_ones_bounds (far_value ≫ FrameAddress.MAJOR_START) 6).
  pose proof (land_ones_bounds (far_value ≫ FrameAddress.MINOR_START) 17).
  change (Z.ones 3) with 7 in *. change (Z.ones 1) with 1 in *.
  change (Z.ones 6) with 63 in *. change (Z.ones 17) with 131071 in *.
  change (2 ^ 3) with 8 in *. change (2 ^ 1) with 2 in *.
  change (2 ^ 6) with 64 in *. change (2 ^ 17) with 131072 in *.
  lia.
Qed.

Lemma column_type_known major :
  0 <= major <= 47 →
  ColumnClassification.get_column_type major
  ≠ ColumnClassification.COL_TYPE_UNKNOWN.
Proof.
  intros Hm.
  assert (Forall (λ major, ColumnClassification.get_column_type major
                           ≠ ColumnClassification.COL_TYPE_UNKNOWN)
                 (seqZ 0 48)) as Hall.
  { vm_compute. repeat constructor; discriminate. }
  rewrite Forall_forall in Hall. apply Hall, elem_of_seqZ. lia.
Qed.

(** [validate] only looks at the column and the minor: the block type of a
    decoded FAR is at most 7, and every column up to 47 has a type. *)
Lemma validate_iff far_value :
  let f := FrameAddress.decode far_value in
  FrameAddress.validate far_value = true
  ↔ FrameAddress.major f <= 47
    ∧ FrameAddress.minor f
      < ColumnClassification.get_frames_per_column (FrameAddress.major f).
Proof.
  cbv zeta. pose proof (decode_bounds far_value) as (Hb & _ & Hm & _).
  cbv zeta in Hb, Hm. unfold FrameAddress.validate. cbv zeta.
  unfold FrameAddress.MAX_BLOCK_TYPE, FrameAddress.MAX_MAJOR.
  change (DeviceConstants.TOTAL_COLUMNS - 1) with 47.
  rewrite bool_decide_eq_false_2 by lia.
  case_bool_decide as Hmaj; [split; [done|lia]|].
  pose proof (column_type_known (FrameAddress.major
                                   (FrameAddress.decode far_value))
                ltac:(lia)) as Hty.
  destruct (ColumnClassification.get_column_type _); try done;
    case_bool_decide; split; try done; try lia; intros [_ ?]; lia.
Qed.

Lemma pack_far_interpret_far (far : FrameLexer.word) fields :
  FrameLexer.interpret_far (Some far) = Ok fields →
  FrameLexer.pack_far (FrameLexer.f_block fields)
    (FrameLexer.f_top_bottom fields) (FrameLexer.f_column fields)
    (FrameLexer.f_minor fields)
  = Z.land (FrameLexer.from_bytes_big far) 0xFFFE0000.
Proof.
  unfold FrameLexer.interpret_far. cbv zeta. intros Hf. ok_inj Hf.
  subst fields. cbn. unfold FrameLexer.pack_far. cbv zeta.
  set (x := FrameLexer.from_bytes_big far). clearbody x.
  change 4294836224 with (Z.shiftl (Z.ones 15) 17).
  change 7 with (Z.ones 3). change 1 with (Z.ones 1).
  change 63 with (Z.ones 6). change 31 with (Z.ones 5).
  rewrite <-!Z.land_assoc, !Z.land_diag.
  apply Z.bits_inj'. intros n Hn.
  field_bits. solve_bits x n.
Qed.

(** X2.  Reading a FAR word and packing it again.
    [interpret_far] accepts every word, and [pack_far] on its fields gives
    back the bits 17 to 31 of the word: block, top/bottom, column and
    minor. *)
Theorem interpret_far_pack_far (far : FrameLexer.word) :
  ∃ fields,
    FrameLexer.interpret_far (Some far) = Ok fields
    ∧ FrameLexer.pack_far (FrameLexer.f_block fields)
        (FrameLexer.f_top_bottom fields) (FrameLexer.f_column fields)
        (FrameLexer.f_minor fields)
      = Z.land (FrameLexer.from_bytes_big far) 0xFFFE0000.
Proof.
  eexists. split; [reflexivity|]. by apply pack_far_interpret_far.
Qed.

(** X3.  The lexer and [frame_rules.py] lay a FAR out
    differently.  [pack_far] puts the block at bits 29 to 31, top/bottom
    and column at bits 23 to 28 and the minor at bits 17 to 22, whereas
    [decode] reads the block type from bits 23 to 25, top/bottom from bit
    22, the major from bits 17 to 22 and the minor from bits 0 to 16.  So
    [decode], on a FAR that [pack_far] built, finds the low three bits of
    the column as block type, bit 5 of the minor as top/bottom, the minor
    as major, and minor 0. *)
Theorem decode_of_pack_far block top_bottom column minor :
  FrameAddress.decode (FrameLexer.pack_far block top_bottom column minor)
  = {| FrameAddress.block_type := Z.land column 7;
       FrameAddress.top_bottom := Z.land (Z.shiftr minor 5) 1;
       FrameAddress.major := Z.land minor 0x3F;
       FrameAddress.minor := 0 |}.
Proof.
  unfold FrameAddress.decode, FrameLexer.pack_far. cbv zeta.
  unfold FrameAddress.BLOCK_TYPE_START, FrameAddress.TOP_BIT,
    FrameAddress.MAJOR_START, FrameAddress.MINOR_START.
  change 7 with (Z.ones 3). change 1 with (Z.ones 1).
  change 63 with (Z.ones 6). change 31 with (Z.ones 5).
  change 131071 with (Z.ones 17).
  f_equal; apply Z.bits_inj'; intros n Hn; field_bits.
  - solve_bits column n.
  - solve_bits minor (n + 5).
  - solve_bits minor n.
  - solve_bits minor n.
Qed.

(* ===================================================================== *)
(** * Frame data: the bit diff, set bits and bit ranges                   *)
(* ===================================================================== *)

Lemma byte_val_inj b1 b2 : byte_val b1 = byte_val b2 → b1 = b2.
Proof.
  unfold byte_val. intros H%(inj Z.of_N).
  assert (Some b1 = Some b2) as [= ->]; [|done].
  by rewrite <-!Byte.of_to_N, H.
Qed.

Lemma byte_val_bounds b : 0 <= byte_val b < 256.
Proof.
  unfold byte_val. pose proof (Byte.to_N_bounded b). lia.
Qed.

(** A byte is determined by its eight bits. *)
Lemma byte_bits_inj b1 b2 :
  (∀ k, 0 <= k < 8 →
        Z.testbit (byte_val b1) k = Z.testbit (byte_val b2) k) →
  b1 = b2.
Proof.
  intros Hbits. apply byte_val_inj. apply Z.bits_inj'. intros k Hk.
  destruct (decide (k < 8)) as [?|Hge]; [apply Hbits; lia|].
  pose proof (byte_val_bounds b1). pose proof (byte_val_bounds b2).
  rewrite <-(Z.mod_small (byte_val b1) (2 ^ 8)) by done.
  rewrite <-(Z.mod_small (byte_val b2) (2 ^ 8)) by done.
  rewrite <-!Z.land_ones, !Z.land_spec, !testbit_ones by done.
  rewrite bool_decide_eq_false_2 by lia. by rewrite !andb_false_r.
Qed.

Lemma bit_of_lookup d (i : nat) b k :
  d !! i = Some b → 0 <= k < 8 →
  bit_of d (8 * Z.of_nat i + (7 - k)) = Z.testbit (byte_val b) k.
Proof.
  intros Hb Hk. unfold bit_of.
  replace ((8 * Z.of_nat i + (7 - k)) / 8) with (Z.of_nat i)
    by (apply Z.div_unique with (7 - k); lia).
  rewrite Nat2Z.id, Hb. f_equal.
  replace ((8 * Z.of_nat i + (7 - k)) `mod` 8) with (7 - k)
    by (apply Z.mod_unique with (Z.of_nat i); lia).
  lia.
Qed.

(** Two payloads of the same length are equal when they agree on every
    bit. *)
Lemma bit_of_ext d1 d2 :
  length d1 = length d2 →
  (∀ off, 0 <= off < 8 * Z.of_nat (length d1) →
          bit_of d1 off = bit_of d2 off) →
  d1 = d2.
Proof.
  intros Hlen Hbits. apply list_eq_same_length with (length d1); [done..|].
  intros i b1 b2 Hi H1 H2. apply byte_bits_inj. intros k Hk.
  rewrite <-(bit_of_lookup d1 i b1 k), <-(bit_of_lookup d2 i b2 k) by done.
  apply Hbits. lia.
Qed.

Lemma diff_positions_nil_iff d1 d2 :
  frame_ok d1 → frame_ok d2 → diff_positions d1 d2 = [] ↔ d1 = d2.
Proof.
  unfold frame_ok. intros H1 H2. split; [|intros ->; apply diff_positions_same].
  intros Hnil. apply bit_of_ext; [congruence|].
  intros off Hoff. rewrite H1 in Hoff.
  destruct (decide (bit_of d1 off = bit_of d2 off)) as [|Hne]; [done|].
  assert (off ∈ diff_positions d1 d2) as Hin.
  { unfold diff_positions. apply list_elem_of_filter. split; [done|].
    apply elem_of_seqZ. lia. }
  rewrite Hnil in Hin. by apply elem_of_nil in Hin.
Qed.

Lemma extract_bit_in d off :
  0 <= off < 1312 → off / 8 < Z.of_nat (length d) →
  FrameDataExtractor.extract_bit d off = Ok (bit_of d off).
Proof.
  intros Hoff Hlen. unfold FrameDataExtractor.extract_bit, bit_of.
  rewrite !bool_decide_eq_true_2 by lia. simpl.
  unfold FrameDataExtractor.byte_at.
  assert (0 <= off / 8) by (apply Z.div_pos; lia).
  destruct (lookup_lt_is_Some_2 d (Z.to_nat (off / 8)) ltac:(lia)) as [b Hb].
  rewrite Hb. simpl. f_equal. apply land_shiftr_1_testbit.
  pose proof (Z.mod_pos_bound off 8). lia.
Qed.

Lemma extract_bit_short d off :
  0 <= off < 1312 → Z.of_nat (length d) <= off / 8 →
  FrameDataExtractor.extract_bit d off = Raise IndexError.
Proof.
  intros Hoff Hlen. unfold FrameDataExtractor.extract_bit.
  rewrite !bool_decide_eq_true_2 by lia. simpl.
  unfold FrameDataExtractor.byte_at.
  by rewrite lookup_ge_None_2 by lia.
Qed.

Lemma extract_bit_range d off :
  ¬ 0 <= off < 1312 →
  FrameDataExtractor.extract_bit d off = Raise ValueError.
Proof.
  intros Hoff. unfold FrameDataExtractor.extract_bit.
  destruct (bool_decide_reflect (0 <= off)), (bool_decide_reflect (off < 1312));
    try done; lia.
Qed.

(** The three outcomes of [compare_frames]. *)
Lemma compare_frames_cases frame1 frame2 :
  FrameDataExtractor.compare_frames frame1 frame2
  = if decide (length frame1 ≠ length frame2) then Raise ValueError
    else if decide (length frame1 < 164)%nat then Raise IndexError
    else Ok (diff_positions frame1 frame2).
Proof.
  unfold FrameDataExtractor.compare_frames.
  destruct (decide (length frame1 ≠ length frame2)) as [Hne|Heq].
  { by rewrite bool_decide_eq_false_2. }
  apply dec_stable in Heq.
  rewrite bool_decide_eq_true_2 by done. cbn [negb].
  destruct (decide (length frame1 < 164)%nat) as [Hshort|Hlong].
  - apply collectM_raises with (8 * Z.of_nat (length frame1)).
    + apply elem_of_seqZ. lia.
    + rewrite (extract_bit_short frame1); [reflexivity|lia|].
      rewrite Z.mul_comm, Z.div_mul by done. lia.
    + intros off [? ?]%elem_of_seqZ.
      destruct (decide (off / 8 < Z.of_nat (length frame1))).
      * left. rewrite !extract_bit_in by lia. reflexivity.
      * right. rewrite (extract_bit_short frame1) by lia. reflexivity.
  - rewrite (collectM_singletons
               (λ off, negb (eqb (bit_of frame1 off) (bit_of frame2 off)))).
    + f_equal. unfold diff_positions. apply list_filter_iff. intros off.
      destruct (bit_of frame1 off), (bit_of frame2 off); simpl; naive_solver.
    + intros off [Hlo Hhi]%elem_of_seqZ.
      assert (off / 8 < 164) by (apply Z.div_lt_upper_bound; lia).
      rewrite !extract_bit_in by lia. reflexivity.
Qed.

(** X4.  The outcomes of [compare_frames], for
    every pair of payloads.  Payloads of different lengths raise
    [ValueError]; payloads of one length below 164 bytes raise
    [IndexError], from [extract_bit]; otherwise the result is the list, in
    increasing order, of the offsets below 1312 at which the two payloads
    differ, bit 0 being the most significant bit of the first byte.  Bytes
    from the 165th on are not compared. *)
Theorem compare_frames_outcome frame1 frame2 :
  FrameDataExtractor.compare_frames frame1 frame2
  = if decide (length frame1 ≠ length frame2) then Raise ValueError
    else if decide (length frame1 < 164)%nat then Raise IndexError
    else Ok (filter (λ off, bit_of frame1 off ≠ bit_of frame2 off)
                    (seqZ 0 1312)).
Proof. apply compare_frames_cases. Qed.

(** X5.  The diff is empty exactly on equal frames:
    for two 164-byte payloads, [compare_frames] returns the empty list if
    and only if the payloads are the same. *)
Theorem compare_frames_nil_iff frame1 frame2 :
  frame_ok frame1 → frame_ok frame2 →
  FrameDataExtractor.compare_frames frame1 frame2 = Ok [] ↔ frame1 = frame2.
Proof.
  intros H1 H2. rewrite compare_frames_ok by done.
  rewrite <-diff_positions_nil_iff by done.
  split; [by intros Heq; ok_inj Heq|by intros ->].
Qed.

Lemma compare_frames_nil_iff_witness :
  FrameDataExtractor.compare_frames Scenario.zeros Scenario.bits8 = Ok []
  ↔ Scenario.zeros = Scenario.bits8.
Proof.
  apply (compare_frames_nil_iff Scenario.zeros Scenario.bits8); reflexivity.
Defined.

Lemma length_filter_ext_in {A} (P Q : A → Prop)
    `{∀ x, Decision (P x)} `{∀ x, Decision (Q x)} (l : list A) :
  (∀ x, x ∈ l → P x ↔ Q x) → length (filter P l) = length (filter Q l).
Proof.
  induction l as [|x l IH]; intros Hext; [done|].
  rewrite !filter_cons.
  assert (P x ↔ Q x) as Hx by (apply Hext; by left).
  assert (length (filter P l) = length (filter Q l)) as Hl
    by (apply IH; intros y Hy; apply Hext; by right).
  repeat case_decide; cbn; try tauto; by rewrite ?Hl.
Qed.

Lemma length_filter_fmap {A B} (f : A → B) (P : B → Prop)
    `{∀ x, Decision (P x)} (l : list A) :
  length (filter P (f <$> l)) = length (filter (λ x, P (f x)) l).
Proof.
  induction l as [|x l IH]; [done|].
  rewrite fmap_cons, !filter_cons. case_decide; cbn; by rewrite IH.
Qed.

Lemma bit_of_cons b d off :
  0 <= off → bit_of (b :: d) (8 + off) = bit_of d off.
Proof.
  intros Hoff. unfold bit_of.
  replace ((8 + off) / 8) with (1 + off / 8)
    by (rewrite <-(Z.div_add_l 1 8 off) by done; f_equal; lia).
  assert (0 <= off / 8) by (by apply Z.div_pos).
  replace (Z.to_nat (1 + off / 8)) with (S (Z.to_nat (off / 8))) by lia.
  cbn [lookup list_lookup].
  replace ((8 + off) `mod` 8) with (off `mod` 8); [done|].
  rewrite <-(Z.mod_add off 1 8) by done. f_equal. lia.
Qed.

Lemma first_byte_count b d :
  Z.of_nat (length (filter (λ off, bit_of (b :: d) off = true) (seqZ 0 8)))
  = FrameDataExtractor.bin_count_1 (byte_val b).
Proof. by destruct b; vm_compute. Qed.

(** [count_set_bits] counts the positions whose bit is set. *)
Lemma count_set_bits_positions d :
  FrameDataExtractor.count_set_bits d
  = Z.of_nat (length (filter (λ off, bit_of d off = true)
                             (seqZ 0 (8 * Z.of_nat (length d))))).
Proof.
  induction d as [|b d IH]; [done|].
  cbn [FrameDataExtractor.count_set_bits foldr length].
  fold (FrameDataExtractor.count_set_bits d). rewrite IH.
  replace (8 * Z.of_nat (S (length d)))
    with (8 + 8 * Z.of_nat (length d)) by lia.
  rewrite seqZ_app by lia. rewrite filter_app, length_app, Nat2Z.inj_add.
  rewrite first_byte_count. f_equal. f_equal.
  change (0 + 8) with (8 + 0). rewrite <-fmap_add_seqZ.
  rewrite length_filter_fmap.
  apply length_filter_ext_in. intros off [? _]%elem_of_seqZ.
  by rewrite bit_of_cons.
Qed.

Lemma bit_of_zeros (n : nat) off : bit_of (replicate n x00) off = false.
Proof.
  unfold bit_of.
  destruct (replicate n x00 !! _) as [b|] eqn:Hb; [|done].
  apply lookup_replicate in Hb as [-> _]. apply Z.testbit_0_l.
Qed.

(** X6.  Set bits and the diff against the default
    frame.  For a 164-byte payload, [compare_frames] against the all-zero
    frame returns, and the number of positions it lists is
    [count_set_bits] of the payload. *)
Theorem count_set_bits_distance frame_data :
  frame_ok frame_data →
  ∃ differences,
    FrameDataExtractor.compare_frames (replicate 164 x00) frame_data
    = Ok differences
    ∧ Z.of_nat (length differences)
      = FrameDataExtractor.count_set_bits frame_data.
Proof.
  intros Hok. eexists. split.
  - apply compare_frames_ok; [|done]. unfold frame_ok. apply length_replicate.
  - rewrite count_set_bits_positions. unfold frame_ok in Hok. rewrite Hok.
    f_equal. unfold diff_positions. apply length_filter_ext_in.
    intros off _. rewrite bit_of_zeros. by destruct (bit_of frame_data off).
Qed.

Lemma count_set_bits_distance_witness :
  ∃ differences,
    FrameDataExtractor.compare_frames (replicate 164 x00) Scenario.bits20
    = Ok differences
    ∧ Z.of_nat (length differences)
      = FrameDataExtractor.count_set_bits Scenario.bits20.
Proof. apply (count_set_bits_distance Scenario.bits20). reflexivity. Defined.

Lemma testbit_bit s k :
  0 <= s → Z.testbit (Z.shiftl 1 s) k = bool_decide (k = s).
Proof.
  intros Hs. rewrite testbit_shiftl_field by done.
  change 1 with (Z.ones 1). rewrite testbit_ones by done.
  repeat case_bool_decide; try lia; done.
Qed.

(** The loop of [extract_bits], after the first [j] positions. *)
Lemma extract_bits_loop d start_bit end_bit (j : nat) :
  0 <= start_bit → start_bit + Z.of_nat j <= end_bit → end_bit <= 1312 →
  end_bit <= 8 * Z.of_nat (length d) →
  ∃ v,
    foldl (λ acc bit_offset,
             result ← acc;
             bit_val ← FrameDataExtractor.extract_bit d bit_offset;
             Ok (if bit_val : bool
                 then Z.lor result (Z.shiftl 1 (end_bit - bit_offset - 1))
                 else result))
          (Ok 0) (seqZ start_bit (Z.of_nat j)) = Ok v
    ∧ ∀ k, 0 <= k →
        Z.testbit v k
        = bool_decide (end_bit - start_bit - Z.of_nat j <= k
                       < end_bit - start_bit)
          && bit_of d (end_bit - 1 - k).
Proof.
  intros Hs Hj He Hlen. induction j as [|j IH].
  - exists 0. split; [done|]. intros k Hk. rewrite Z.testbit_0_l.
    by rewrite bool_decide_eq_false_2 by lia.
  - destruct IH as (v & Hv & Hbits); [lia|].
    rewrite seqZ_S, foldl_app. cbn [foldl]. rewrite Hv.
    cbn [mbind result_bind rbind].
    rewrite extract_bit_in.
    2:{ lia. }
    2:{ apply Z.div_lt_upper_bound; lia. }
    cbn [mbind result_bind rbind]. eexists. split; [done|].
    intros k Hk.
    destruct (bit_of d (start_bit + Z.of_nat j)) eqn:Hbit.
    + rewrite Z.lor_spec, Hbits, testbit_bit by lia.
      destruct (decide (k = end_bit - (start_bit + Z.of_nat j) - 1))
        as [->|Hne].
      * replace (end_bit - 1 - (end_bit - (start_bit + Z.of_nat j) - 1))
          with (start_bit + Z.of_nat j) by lia.
        rewrite Hbit. repeat case_bool_decide; try lia; done.
      * repeat case_bool_decide; try lia; cbn [andb orb];
          by rewrite ?orb_false_r.
    + rewrite Hbits by done.
      destruct (decide (k = end_bit - (start_bit + Z.of_nat j) - 1))
        as [->|Hne].
      * replace (end_bit - 1 - (end_bit - (start_bit + Z.of_nat j) - 1))
          with (start_bit + Z.of_nat j) by lia.
        rewrite Hbit. by rewrite !andb_false_r.
      * repeat case_bool_decide; try lia; done.
Qed.

(** X7.  [extract_bits] reads a bit range as a number,
    most significant bit first.  For a range [start_bit, end_bit) that is
    not empty, lies within the 1312 bits of a frame and within the
    payload, the call returns a value below [2^(end_bit - start_bit)]
    whose bit [k] is the bit [end_bit - 1 - k] of the payload. *)
Theorem extract_bits_spec frame_data start_bit end_bit :
  0 <= start_bit → start_bit < end_bit → end_bit <= 1312 →
  end_bit <= 8 * Z.of_nat (length frame_data) →
  ∃ v,
    FrameDataExtractor.extract_bits frame_data start_bit end_bit = Ok v
    ∧ 0 <= v < 2 ^ (end_bit - start_bit)
    ∧ ∀ k, 0 <= k < end_bit - start_bit →
           Z.testbit v k = bit_of frame_data (end_bit - 1 - k).
Proof.
  intros Hs Hlt He Hlen. unfold FrameDataExtractor.extract_bits.
  rewrite bool_decide_eq_false_2 by lia.
  destruct (extract_bits_loop frame_data start_bit end_bit
              (Z.to_nat (end_bit - start_bit)))
    as (v & Hv & Hbits); [lia..|].
  rewrite Z2Nat.id in Hv, Hbits by lia.
  exists v. split; [exact Hv|].
  assert (v = Z.land v (Z.ones (end_bit - start_bit))) as Hmask.
  { apply Z.bits_inj'. intros k Hk.
    rewrite Z.land_spec, testbit_ones, Hbits by lia.
    repeat case_bool_decide; try lia; cbn [andb];
      by rewrite ?andb_true_r, ?andb_false_r. }
  split.
  - rewrite Hmask, Z.land_ones by lia.
    apply Z.mod_pos_bound, Z.pow_pos_nonneg; lia.
  - intros k Hk. rewrite Hbits by lia.
    by rewrite bool_decide_eq_true_2 by lia.
Qed.

Lemma extract_bits_spec_witness :
  ∃ v,
    FrameDataExtractor.extract_bits Scenario.bits5 0 8 = Ok v
    ∧ 0 <= v < 2 ^ (8 - 0)
    ∧ ∀ k, 0 <= k < 8 - 0 → Z.testbit v k = bit_of Scenario.bits5 (8 - 1 - k).
Proof.
  apply (extract_bits_spec Scenario.bits5 0 8); [lia|lia|lia|].
  simpl. lia.
Defined.

(** An empty range is refused. *)
Lemma extract_bits_empty_range frame_data start_bit end_bit :
  end_bit <= start_bit →
  FrameDataExtractor.extract_bits frame_data start_bit end_bit
  = Raise ValueError.
Proof.
  intros H. unfold FrameDataExtractor.extract_bits.
  by rewrite bool_decide_eq_true_2 by lia.
Qed.

(* ===================================================================== *)
(** * The adapter and the indices of a loaded bitstream                   *)
(* ===================================================================== *)

(** [adapt] fails exactly on a frame whose words do not make 164 bytes,
    and otherwise copies the fields. *)
Lemma adapt_cases (frame_obj : FrameLexer.FrameObj) :
  (length (concat (FrameLexer.data_words frame_obj)) ≠ 164%nat
   ∧ FrameObjAdapter.adapt frame_obj = None)
  ∨ (length (concat (FrameLexer.data_words frame_obj)) = 164%nat
     ∧ ∃ a, FrameObjAdapter.adapt frame_obj = Some a
            ∧ AdaptedFrame.far_value a = FrameLexer.far_raw frame_obj
            ∧ AdaptedFrame.frame_data a
              = concat (FrameLexer.data_words frame_obj)
            ∧ AdaptedFrame.frame_index a = FrameLexer.idx frame_obj
            ∧ AdaptedFrame.block_type a = FrameLexer.block_type frame_obj
            ∧ AdaptedFrame.top_bottom a = FrameLexer.top_bottom frame_obj
            ∧ AdaptedFrame.column a = FrameLexer.column frame_obj
            ∧ AdaptedFrame.minor a = FrameLexer.minor frame_obj
            ∧ AdaptedFrame.data_word_count a
              = Z.of_nat (length (FrameLexer.data_words frame_obj))).
Proof.
  unfold FrameObjAdapter.adapt, FrameObjAdapter._extract_frame_data.
  destruct (decide (length (concat (FrameLexer.data_words frame_obj))
                    = 164%nat)) as [Hlen|Hlen].
  - right. rewrite decide_False by (intros Hne; by apply Hne).
    split; [done|]. eexists. split; [done|]. by cbn.
  - left. by rewrite decide_True by done.
Qed.

(** X8.  [adapt_batch] keeps, in order, exactly the frame
    writes whose data words make up 164 bytes, and drops the others
    without an error: the FARs, the payloads (the words concatenated) and
    the indices of the adapted frames are those of the writes kept, and
    every adapted payload has 164 bytes. *)
Theorem adapt_batch_spec (frame_objs : list FrameLexer.FrameObj) :
  let complete (frame_obj : FrameLexer.FrameObj) :=
    length (concat (FrameLexer.data_words frame_obj)) = 164%nat in
  let adapted := FrameObjAdapter.adapt_batch frame_objs in
  AdaptedFrame.far_value <$> adapted
  = FrameLexer.far_raw <$> filter complete frame_objs
  ∧ AdaptedFrame.frame_data <$> adapted
    = (λ frame_obj, concat (FrameLexer.data_words frame_obj))
        <$> filter complete frame_objs
  ∧ AdaptedFrame.frame_index <$> adapted
    = FrameLexer.idx <$> filter complete frame_objs
  ∧ Forall (λ frame, frame_ok (AdaptedFrame.frame_data frame)) adapted.
Proof.
  cbv zeta. unfold FrameObjAdapter.adapt_batch.
  induction frame_objs as [|fo l (IH1 & IH2 & IH3 & IH4)]; [done|].
  cbn [omap list_omap]. rewrite filter_cons.
  destruct (adapt_cases fo)
    as [[Hlen ->]|(Hlen & a & -> & Hfar & Hdata & Hidx & _)].
  - by rewrite decide_False by done.
  - rewrite decide_True by done. rewrite !fmap_cons.
    rewrite IH1, IH2, IH3, Hfar, Hdata, Hidx.
    repeat split; try done. constructor; [|done].
    unfold frame_ok. by rewrite Hdata.
Qed.

Lemma history_lookup_snoc frames f far :
  LoadedBitstream.get_write_history
    (LoadedBitstream.__init__ (frames ++ [f])) far
  = LoadedBitstream.get_write_history (LoadedBitstream.__init__ frames) far
    ++ (if decide (AdaptedFrame.far_value f = far) then [f] else []).
Proof.
  rewrite loader_init_snoc. unfold LoadedBitstream.get_write_history.
  cbn [LoadedBitstream._write_history].
  case_decide as Hfar.
  - subst far. by rewrite lookup_insert_eq.
  - rewrite lookup_insert_ne by done. by rewrite app_nil_r.
Qed.

(** The write history of a FAR holds the frames with that FAR, in file
    order, and the current frame is the last of them. *)
Lemma loader_writes frames far :
  let s := LoadedBitstream.__init__ frames in
  let writes := filter (λ f, AdaptedFrame.far_value f = far) frames in
  LoadedBitstream.get_write_history s far = writes
  ∧ LoadedBitstream.get_frame s far = last writes.
Proof.
  cbv zeta. induction frames as [|f frames [IH1 IH2]] using rev_ind.
  - done.
  - rewrite history_lookup_snoc, IH1, filter_app, filter_cons, filter_nil.
    split; [done|].
    rewrite loader_init_snoc. unfold LoadedBitstream.get_frame in *.
    cbn [LoadedBitstream._frame_by_far].
    case_decide as Hfar.
    + subst far. by rewrite lookup_insert_eq, last_snoc.
    + rewrite lookup_insert_ne by done. by rewrite app_nil_r.
Qed.

Lemma elem_of_far_values (s : LoadedBitstream.t) far :
  far ∈ LoadedBitstream.get_all_far_values s
  ↔ is_Some (LoadedBitstream._frame_by_far s !! far).
Proof.
  unfold LoadedBitstream.get_all_far_values.
  rewrite merge_sort_Permutation, list_elem_of_fmap. split.
  - intros ([far' f] & -> & Hin). apply elem_of_map_to_list in Hin.
    by eexists.
  - intros [f Hf]. exists (far, f). split; [done|].
    by apply elem_of_map_to_list.
Qed.

Lemma far_values_sorted frames :
  let fars :=
    LoadedBitstream.get_all_far_values (LoadedBitstream.__init__ frames) in
  StronglySorted Z.le fars ∧ NoDup fars
  ∧ ∀ far, far ∈ fars ↔ ∃ f, f ∈ frames ∧ AdaptedFrame.far_value f = far.
Proof.
  cbv zeta. split; [|split].
  - apply (StronglySorted_merge_sort _).
  - unfold LoadedBitstream.get_all_far_values.
    rewrite merge_sort_Permutation. apply NoDup_fst_map_to_list.
  - intros far. rewrite elem_of_far_values.
    destruct (loader_writes frames far) as [_ Hlast].
    unfold LoadedBitstream.get_frame in Hlast. rewrite Hlast. split.
    + intros [f Hf]. apply last_Some_elem_of in Hf.
      apply list_elem_of_filter in Hf as [? ?]. by exists f.
    + intros (f & Hin & Hfar).
      assert (f ∈ filter (λ f, AdaptedFrame.far_value f = far) frames) as Hf
        by (by apply list_elem_of_filter).
      destruct (filter _ frames) as [|x l] using rev_ind.
      * by apply elem_of_nil in Hf.
      * rewrite last_snoc. by eexists.
Qed.

(** X9.  The indices that [LoadedBitstream] builds.  For
    every list of frames and every FAR, [get_write_history] is the list of
    the frames with that FAR, in file order, and [get_frame] is the last
    of them ([None] when there is none): a later write to a FAR replaces
    the earlier one.  [get_all_far_values] lists, in increasing order and
    without repetition, the FARs of the frames. *)
Theorem loader_index frames far :
  let s := LoadedBitstream.__init__ frames in
  let writes := filter (λ f, AdaptedFrame.far_value f = far) frames in
  let fars := LoadedBitstream.get_all_far_values s in
  LoadedBitstream.get_write_history s far = writes
  ∧ LoadedBitstream.get_frame s far = last writes
  ∧ StronglySorted Z.le fars ∧ NoDup fars
  ∧ (far ∈ fars ↔ ∃ f, f ∈ frames ∧ AdaptedFrame.far_value f = far).
Proof.
  cbv zeta. destruct (loader_writes frames far) as [Hhist Hget].
  destruct (far_values_sorted frames) as (Hsorted & Hnodup & Hin).
  split; [done|]. split; [done|]. split; [done|]. split; [done|]. apply Hin.
Qed.

(* ===================================================================== *)
(** * Frame generation and the lexer                                      *)
(* ===================================================================== *)

Lemma walk_frames w rest idx frames :
  walk w rest idx = Ok frames →
  FrameLexer.data_words <$> frames = rest
  ∧ FrameLexer.idx <$> frames = seqZ idx (Z.of_nat (length rest))
  ∧ Forall (λ f, FrameLexer.far_raw f
                 = FrameLexer.pack_far (FrameLexer.block_type f)
                     (FrameLexer.top_bottom f) (FrameLexer.column f)
                     (FrameLexer.minor f)) frames.
Proof.
  revert w idx frames.
  induction rest as [|chunk rest IH]; intros w idx frames Hwalk.
  - cbn in Hwalk. ok_inj Hwalk. by subst.
  - cbn [walk] in Hwalk.
    destruct (FrameLexer.walker_advance w) as [w'|]; [|done].
    cbn -[walk] in Hwalk.
    destruct (walk w' rest (idx + 1)) as [frames'|] eqn:Hrest; [|done].
    cbn in Hwalk. ok_inj Hwalk. subst frames.
    destruct (IH _ _ _ Hrest) as (Hd & Hi & Hf).
    rewrite !fmap_cons, Hd, Hi. split; [done|]. split.
    + cbn [length]. rewrite Nat2Z.inj_succ.
      rewrite (seqZ_cons idx) by lia. f_equal. f_equal; lia.
    + by constructor.
Qed.

(** What [generate_frames] returns when it returns. *)
Lemma generate_frames_inv sf payload_frames start_idx created frames :
  FrameLexer.generate_frames sf payload_frames start_idx
  = Ok (created, frames) →
  created = Z.of_nat (length payload_frames)
  ∧ FrameLexer.data_words <$> frames = payload_frames
  ∧ FrameLexer.idx <$> frames
    = seqZ start_idx (Z.of_nat (length payload_frames))
  ∧ Forall (λ f, FrameLexer.far_raw f
                 = FrameLexer.pack_far (FrameLexer.block_type f)
                     (FrameLexer.top_bottom f) (FrameLexer.column f)
                     (FrameLexer.minor f)) frames.
Proof.
  unfold FrameLexer.generate_frames.
  destruct (FrameLexer.start_walker sf) as [w|]; [|done].
  cbn -[FrameLexer.generate_loop Z.mul Z.of_nat].
  rewrite generate_loop_walk by lia.
  destruct (walk w payload_frames (start_idx + 0)) as [fs|] eqn:Hwalk;
    [|done].
  cbn -[Z.of_nat]. rewrite decide_False by (intros Hne; by apply Hne).
  intros Heq. ok_inj Heq. injection Heq as <- <-.
  apply walk_frames in Hwalk. rewrite Z.add_0_r in Hwalk.
  split; [lia|done].
Qed.

(** X10.  The frames that [generate_frames] emits.
    For every start FAR whose block code is known and every list of
    chunks, the call returns as many frames as there are chunks; the
    frames carry the chunks as their data words, in order, they are
    numbered consecutively from [start_idx], and the FAR of each is
    [pack_far] of its own block, top/bottom, column and minor. *)
Theorem generate_frames_payload sf payload_frames start_idx :
  is_Some (FrameLexer.Blocks !! FrameLexer.f_block sf) →
  ∃ frames,
    FrameLexer.generate_frames sf payload_frames start_idx
    = Ok (Z.of_nat (length payload_frames), frames)
    ∧ FrameLexer.data_words <$> frames = payload_frames
    ∧ FrameLexer.idx <$> frames
      = seqZ start_idx (Z.of_nat (length payload_frames))
    ∧ Forall (λ f, FrameLexer.far_raw f
                   = FrameLexer.pack_far (FrameLexer.block_type f)
                       (FrameLexer.top_bottom f) (FrameLexer.column f)
                       (FrameLexer.minor f)) frames.
Proof.
  intros Hblock.
  destruct (start_walker_ok sf Hblock) as (w & Hstart & Hw).
  destruct (walk_ok w payload_frames (start_idx + 0) Hw)
    as (frames & Hwalk & _).
  assert (FrameLexer.generate_frames sf payload_frames start_idx
          = Ok (Z.of_nat (length payload_frames), frames)) as Hgen.
  { unfold FrameLexer.generate_frames. rewrite Hstart.
    cbn -[FrameLexer.generate_loop Z.mul Z.of_nat].
    rewrite generate_loop_walk by lia. rewrite Hwalk.
    cbn -[Z.of_nat]. by rewrite decide_False by (intros Hne; by apply Hne). }
  exists frames. split; [exact Hgen|].
  by apply generate_frames_inv in Hgen as (_ & ? & ? & ?).
Qed.

Lemma generate_frames_payload_witness :
  ∃ frames,
    FrameLexer.generate_frames Scenario.start_col0_minor35
      [Scenario.chunk41; Scenario.chunk41] 5 = Ok (2, frames)
    ∧ FrameLexer.data_words <$> frames = [Scenario.chunk41; Scenario.chunk41]
    ∧ FrameLexer.idx <$> frames = [5; 6].
Proof.
  destruct (generate_frames_payload Scenario.start_col0_minor35
              [Scenario.chunk41; Scenario.chunk41] 5)
    as (frames & Hgen & Hwords & Hidx & _).
  - eexists. vm_compute. reflexivity.
  - exists frames. split; [exact Hgen|]. split; [exact Hwords|exact Hidx].
Defined.

(** The chunks of a list make up the list again, none is empty or longer
    than [frame_size], and all but the last have [frame_size] elements. *)
Lemma chunks_spec (frame_size : nat) (l : list FrameLexer.word) :
  (0 < frame_size)%nat →
  let temp := FrameLexer.chunks (length l) frame_size l in
  concat temp = l
  ∧ Forall (λ c, (0 < length c ≤ frame_size)%nat) temp
  ∧ ∀ i c, temp !! i = Some c → (S i < length temp)%nat →
           length c = frame_size.
Proof.
  intros Hpos. cbv zeta.
  assert (∀ fuel l, (length l ≤ fuel)%nat →
            concat (FrameLexer.chunks fuel frame_size l) = l
            ∧ Forall (λ c, (0 < length c ≤ frame_size)%nat)
                     (FrameLexer.chunks fuel frame_size l)
            ∧ ∀ i c, FrameLexer.chunks fuel frame_size l !! i = Some c →
                     (S i < length (FrameLexer.chunks fuel frame_size l))%nat →
                     length c = frame_size) as H; [|by apply H].
  clear l. induction fuel as [|fuel IH]; intros [|w l] Hlen;
    cbn in Hlen; try lia; try done.
  cbn [FrameLexer.chunks].
  destruct (IH (drop frame_size (w :: l))) as (Hc & Hall & Hfull).
  { rewrite length_drop. cbn. lia. }
  split; [|split].
  - cbn [concat]. rewrite Hc. apply take_drop.
  - constructor; [|done]. rewrite length_take. cbn. lia.
  - intros [|i] c Hi Hlt.
    + apply (inj Some) in Hi. subst c. cbn [length] in Hlt.
      destruct (decide (length (w :: l) ≤ frame_size)%nat) as [Hle|Hgt].
      * rewrite drop_ge in Hlt by done.
        destruct fuel; cbn in Hlt; lia.
      * rewrite length_take. lia.
    + cbn in Hi, Hlt. apply (Hfull i c Hi). lia.
Qed.

Lemma div4_step (r : nat) : (4 ≤ r → r / 4 = S ((r - 4) / 4))%nat.
Proof.
  intros Hr. replace r with ((r - 4) + 1 * 4)%nat at 1 by lia.
  rewrite Nat.div_add by done. lia.
Qed.

Lemma set_pos_same (self : FrameLexer.t) :
  FrameLexer.set_pos self (FrameLexer.pos self) = self.
Proof. by destruct self. Qed.

Ltac zero_words :=
  rewrite ?Nat.min_0_l, ?Nat.min_0_r; cbn [seq fmap list_fmap Nat.mul];
  by rewrite ?Nat.mul_0_r, ?Nat.add_0_r, set_pos_same.

(** [read_words] reads the next [n] words, or as many as are left. *)
Lemma read_words_spec fuel n (self : FrameLexer.t) :
  let len := length (FrameLexer.payload self) in
  let pos := FrameLexer.pos self in
  (len - pos < 4 * S fuel)%nat →
  let k := (Z.to_nat n `min` ((len - pos) / 4))%nat in
  FrameLexer.read_words fuel n self
  = (FrameLexer.set_pos self (pos + 4 * k),
     (λ i, take 4 (drop (pos + 4 * i) (FrameLexer.payload self)))
       <$> seq 0 k).
Proof.
  cbv zeta. revert n self. induction fuel as [|fuel IH]; intros n self Hfuel.
  - rewrite Nat.div_small by lia. zero_words.
  - cbn -[FrameLexer.nextPacket Nat.div]. case_bool_decide as Hn.
    { replace (Z.to_nat n) with 0%nat by lia. zero_words. }
    unfold FrameLexer.nextPacket, FrameLexer.advance.
    case_bool_decide as Hlen.
    + rewrite IH by (cbn; lia).
      cbn [FrameLexer.payload FrameLexer.pos FrameLexer.set_pos].
      rewrite (div4_step (length (FrameLexer.payload self)
                          - FrameLexer.pos self)) by lia.
      replace (Z.to_nat n) with (S (Z.to_nat (n - 1))) by lia.
      rewrite <-Nat.succ_min_distr.
      replace (length (FrameLexer.payload self) - (FrameLexer.pos self + 4))%nat
        with (length (FrameLexer.payload self) - FrameLexer.pos self - 4)%nat
        by lia.
      set (k := (Z.to_nat (n - 1) `min` _)%nat).
      cbn [seq fmap list_fmap]. f_equal.
      * unfold FrameLexer.set_pos. cbn. f_equal. lia.
      * f_equal; [by rewrite ?Nat.mul_0_r, ?Nat.add_0_r|].
        rewrite <-fmap_S_seq, <-list_fmap_compose.
        apply list_fmap_ext. intros _ i _. cbn. do 2 f_equal. lia.
    + rewrite Nat.div_small by lia. zero_words.
Qed.

Lemma opcode_write _op :
  FrameLexer.opcode _op = Some "WRITE"%string ↔ _op = 2.
Proof.
  split; [|by intros ->].
  destruct _op as [|p|p]; cbn; try done.
  destruct p as [[p|p|]|[p|p|]|]; cbn; done.
Qed.

(** A packet header that is neither a Type-2 header nor a one-word Type-1
    write is skipped: the round only moves [pos] to the next word. *)
Lemma lexer_step_skips (self : FrameLexer.t) hdr :
  (FrameLexer.pos self + 4 ≤ length (FrameLexer.payload self))%nat →
  hdr = FrameLexer.from_bytes_big
          (take 4 (drop (FrameLexer.pos self) (FrameLexer.payload self))) →
  Z.land (Z.shiftr hdr 29) 0x7 ≠ 2 →
  ¬ (Z.land (Z.shiftr hdr 29) 0x7 = 1
     ∧ Z.land (Z.shiftr hdr 27) 0x3 = 2
     ∧ Z.land hdr 0x1FFF = 1) →
  FrameLexer.lexer_step self
  = Ok (FrameLexer.set_pos self (FrameLexer.pos self + 4)).
Proof.
  intros Hlen -> Hty2 Hfar. unfold FrameLexer.lexer_step.
  rewrite advance_Some by done. unfold FrameLexer.do_lexing. cbv zeta.
  case_decide as Hty1.
  - destruct (bool_decide_reflect
                (FrameLexer.opcode
                   (Z.land (Z.shiftr (FrameLexer.from_bytes_big
                      (take 4 (drop (FrameLexer.pos self)
                                    (FrameLexer.payload self)))) 27) 3)
                 = Some "WRITE"%string)) as [Hop|Hop];
      [apply opcode_write in Hop|done].
    case_bool_decide as Hwc; [|done]. destruct Hfar. done.
  - by rewrite decide_False by done.
Qed.

(** X11.  A Type-2 packet.  When the word at [pos] is a
    Type-2 header, a FAR has been seen and the round returns, the round
    consumes the header and [n] data words, [n] being the word count of
    the header (its low 25 bits) or the number of whole words left in the
    payload, whichever is smaller.  It leaves [last_far] as it is and
    appends frames whose data words, concatenated, are exactly the words
    read, numbered on from the frames already there. *)
Theorem lexer_step_fdri (self self' : FrameLexer.t) hdr sf :
  (FrameLexer.pos self + 4 ≤ length (FrameLexer.payload self))%nat →
  hdr = FrameLexer.from_bytes_big
          (take 4 (drop (FrameLexer.pos self) (FrameLexer.payload self))) →
  Z.land (Z.shiftr hdr 29) 0x7 = 2 →
  FrameLexer.last_far self = Some sf →
  FrameLexer.lexer_step self = Ok self' →
  let left := (length (FrameLexer.payload self)
               - (FrameLexer.pos self + 4))%nat in
  let n := (Z.to_nat (Z.land hdr 0x1FFFFFF) `min` (left / 4))%nat in
  let words :=
    (λ i, take 4 (drop (FrameLexer.pos self + 4 + 4 * i)
                       (FrameLexer.payload self))) <$> seq 0 n in
  FrameLexer.pos self' = (FrameLexer.pos self + 4 + 4 * n)%nat
  ∧ FrameLexer.last_far self' = Some sf
  ∧ ∃ frames,
      FrameLexer.result_frames self' = FrameLexer.result_frames self ++ frames
      ∧ concat (FrameLexer.data_words <$> frames) = words
      ∧ FrameLexer.idx <$> frames
        = seqZ (Z.of_nat (length (FrameLexer.result_frames self)))
               (Z.of_nat (length frames)).
Proof.
  intros Hlen -> Hty Hfar. cbv zeta. unfold FrameLexer.lexer_step.
  rewrite advance_Some by done. unfold FrameLexer.do_lexing. cbv zeta.
  rewrite Hty. rewrite decide_False by done. rewrite decide_True by done.
  rewrite read_words_spec by (cbn; lia).
  cbn [FrameLexer.payload FrameLexer.pos FrameLexer.set_pos
       FrameLexer.last_far FrameLexer.toks FrameLexer.result_frames].
  rewrite Hfar. rewrite length_fmap, length_seq.
  set (n := (Z.to_nat _ `min` _)%nat).
  set (words := _ <$> seq 0 n).
  destruct (FrameLexer.generate_frames sf _ _) as [[created frames]|] eqn:Hgen;
    [|done].
  cbn. intros Hs. ok_inj Hs. subst self'. cbn.
  apply generate_frames_inv in Hgen as (_ & Hd & Hi & _).
  split; [done|]. split; [done|]. exists frames. split; [done|].
  rewrite Hd. split.
  - replace n with (length words) at 1
      by (unfold words; by rewrite length_fmap, length_seq).
    by destruct (chunks_spec 41 words ltac:(lia)) as [Hc _].
  - rewrite Hi. f_equal. apply (f_equal length) in Hd.
    rewrite length_fmap in Hd. by rewrite <-Hd.
Qed.

Lemma lexer_step_fdri_witness :
  ∃ self',
    FrameLexer.lexer_step Scenario.fdri_state = Ok self'
    ∧ FrameLexer.pos self' = 340%nat
    ∧ FrameLexer.last_far self' = Some Scenario.start_col0_minor35
    ∧ concat (FrameLexer.data_words <$> FrameLexer.result_frames self')
      = replicate 82 (replicate 4 x00).
Proof.
  assert (∃ self', FrameLexer.lexer_step Scenario.fdri_state = Ok self')
    as [self' Hstep] by (eexists; vm_compute; reflexivity).
  destruct (lexer_step_fdri Scenario.fdri_state self'
              (FrameLexer.from_bytes_big Scenario.fdri_header_82)
              Scenario.start_col0_minor35)
    as (Hpos & Hfar & frames & Hres & Hwords & _).
  - vm_compute. lia.
  - vm_compute. reflexivity.
  - vm_compute. reflexivity.
  - reflexivity.
  - exact Hstep.
  - exists self'. split; [exact Hstep|]. split; [exact Hpos|].
    split; [exact Hfar|]. rewrite Hres. exact Hwords.
Defined.

Lemma index_of_None x l : FrameLexer.index_of x l = None → x ∉ l.
Proof.
  induction l as [|y l IH]; [intros _; apply not_elem_of_nil|].
  cbn. case_decide; [done|].
  destruct (FrameLexer.index_of x l) as [j|]; [done|].
  intros _. apply not_elem_of_cons. split; [congruence|by apply IH].
Qed.

(** The fields that [interpret_far] reads, as bit fields of the word. *)
Lemma interpret_far_bits (value : list byte) :
  let far_hex := FrameLexer.from_bytes_big value in
  FrameLexer.interpret_far (Some value)
  = Ok {| FrameLexer.f_block := Z.land (Z.shiftr far_hex 29) 7;
          FrameLexer.f_top_bottom := Z.land (Z.shiftr far_hex 28) 1;
          FrameLexer.f_column := Z.land (Z.shiftr far_hex 23) 31;
          FrameLexer.f_major := Z.land (Z.shiftr far_hex 23) 63;
          FrameLexer.f_minor := Z.land (Z.shiftr far_hex 17) 63 |}.
Proof.
  cbv zeta. unfold FrameLexer.interpret_far. cbv zeta.
  set (x := FrameLexer.from_bytes_big value). clearbody x.
  change 7 with (Z.ones 3). change 1 with (Z.ones 1).
  change 63 with (Z.ones 6). change 31 with (Z.ones 5).
  do 2 f_equal.
  - apply Z.bits_inj'. intros i Hi. field_bits.
    replace (i + 5 + 23) with (i + 28) by lia.
    destruct (Z.testbit x (i + 28));
      rewrite ?andb_true_r, ?andb_false_r; [|done].
    repeat case_bool_decide; try lia; done.
  - apply Z.bits_inj'. intros i Hi. field_bits.
    destruct (Z.testbit x (i + 23));
      rewrite ?andb_true_r, ?andb_false_r; [|done].
    repeat case_bool_decide; try lia; done.
Qed.

(** Where the walker of [generate_frames] starts. *)
Lemma start_walker_address sf w :
  FrameLexer.start_walker sf = Ok w →
  walker_address w
  = (FrameLexer.f_block sf, FrameLexer.f_top_bottom sf, start_column sf,
     FrameLexer.f_minor sf).
Proof.
  unfold FrameLexer.start_walker, start_column. cbv zeta.
  destruct (FrameLexer.major_list_for_block (FrameLexer.f_block sf))
    as [major_list|]; [|done].
  cbn [default].
  destruct (FrameLexer.index_of (FrameLexer.f_column sf) major_list)
    as [i|] eqn:Hi.
  - intros Hw. ok_inj Hw. subst w. unfold walker_address. cbn.
    apply index_of_Some in Hi.
    by rewrite decide_True by (by eapply list_elem_of_lookup_2).
  - apply index_of_None in Hi. rewrite decide_False by done.
    destruct major_list as [|column l]; [done|].
    intros Hw. ok_inj Hw. by subst w.
Qed.

(** [generate_frames] on a start FAR of a known block. *)
Lemma generate_frames_known sf payload_frames start_idx :
  is_Some (FrameLexer.Blocks !! FrameLexer.f_block sf) →
  ∃ frames,
    FrameLexer.generate_frames sf payload_frames start_idx
    = Ok (Z.of_nat (length payload_frames), frames)
    ∧ FrameLexer.data_words <$> frames = payload_frames
    ∧ (∀ f, head frames = Some f →
            frame_address f
            = (FrameLexer.f_block sf, FrameLexer.f_top_bottom sf,
               start_column sf, FrameLexer.f_minor sf))
    ∧ Forall (λ f, FrameLexer.far_raw f
                   = FrameLexer.pack_far (FrameLexer.block_type f)
                       (FrameLexer.top_bottom f) (FrameLexer.column f)
                       (FrameLexer.minor f)) frames
    ∧ walker_rule FrameLexer.max_minor frames.
Proof.
  intros Hblock.
  destruct (start_walker_ok sf Hblock) as (w & Hstart & Hw).
  destruct (walk_ok w payload_frames (start_idx + 0) Hw)
    as (frames & Hwalk & _ & Hhead & Hrule).
  exists frames. split; [|split; [|split; [|split]]].
  - unfold FrameLexer.generate_frames. rewrite Hstart.
    cbn -[FrameLexer.generate_loop Z.mul Z.of_nat].
    rewrite generate_loop_walk by lia. rewrite Hwalk.
    cbn -[Z.of_nat]. by rewrite decide_False by (intros Hne; by apply Hne).
  - by apply walk_frames in Hwalk as (? & _).
  - intros f Hf. rewrite (Hhead f Hf). by apply start_walker_address.
  - by apply walk_frames in Hwalk as (_ & _ & ?).
  - done.
Qed.

(** [generate_frames] rejects a start FAR of an unknown block, whatever
    the payload. *)
Lemma generate_frames_unknown sf payload_frames start_idx :
  FrameLexer.Blocks !! FrameLexer.f_block sf = None →
  FrameLexer.generate_frames sf payload_frames start_idx = Raise ValueError.
Proof.
  intros Hblock. unfold FrameLexer.generate_frames, FrameLexer.start_walker,
    FrameLexer.major_list_for_block.
  by rewrite Hblock.
Qed.

Lemma length_chunks (fuel : nat) (l : list FrameLexer.word) :
  (length l ≤ fuel)%nat →
  length (FrameLexer.chunks fuel 41 l) = ((length l + 40) / 41)%nat.
Proof.
  revert l. induction fuel as [|fuel IH]; intros l Hl.
  - destruct l; [done|cbn in Hl; lia].
  - destruct l as [|x l]; [done|].
    cbn [FrameLexer.chunks].
    set (l' := x :: l) in *.
    assert (1 ≤ length l')%nat as Hpos by (cbn; lia). clearbody l'.
    cbn [length]. rewrite IH by (rewrite length_drop; lia).
    rewrite length_drop.
    destruct (decide (length l' ≤ 41)%nat) as [Hle|Hgt].
    + replace (length l' - 41)%nat with 0%nat by lia.
      cbn [Nat.add]. rewrite (Nat.div_small 40) by lia.
      apply (Nat.div_unique _ 41 1 (length l' - 1)); lia.
    + replace (length l' + 40)%nat
        with ((length l' - 41 + 40) + 1 * 41)%nat by lia.
      rewrite Nat.div_add by done. lia.
Qed.

(** A round of the lexer on a Type-2 header. *)
Lemma lexer_step_type2 (self : FrameLexer.t) hdr sf :
  (FrameLexer.pos self + 4 ≤ length (FrameLexer.payload self))%nat →
  hdr = FrameLexer.from_bytes_big
          (take 4 (drop (FrameLexer.pos self) (FrameLexer.payload self))) →
  Z.land (Z.shiftr hdr 29) 0x7 = 2 →
  FrameLexer.last_far self = Some sf →
  let left := (length (FrameLexer.payload self)
               - (FrameLexer.pos self + 4))%nat in
  let n := (Z.to_nat (Z.land hdr 0x1FFFFFF) `min` (left / 4))%nat in
  let words :=
    (λ i, take 4 (drop (FrameLexer.pos self + 4 + 4 * i)
                       (FrameLexer.payload self))) <$> seq 0 n in
  let temp := FrameLexer.chunks n 41 words in
  FrameLexer.lexer_step self
  = match FrameLexer.generate_frames sf temp
            (Z.of_nat (length (FrameLexer.result_frames self))) with
    | Ok (_, frames) =>
        Ok {| FrameLexer.payload := FrameLexer.payload self;
              FrameLexer.toks :=
                FrameLexer.toks self
                ++ [FrameLexer.FDRI
                      (FrameLexer.opcode (Z.land (Z.shiftr hdr 27) 0x3))
                      (Z.land hdr 0x1FFFFFF) temp];
              FrameLexer.result_frames :=
                FrameLexer.result_frames self ++ frames;
              FrameLexer.pos := (FrameLexer.pos self + 4 + 4 * n)%nat;
              FrameLexer.last_far := Some sf |}
    | Raise e => Raise e
    end.
Proof.
  intros Hlen -> Hty Hfar. cbv zeta. unfold FrameLexer.lexer_step.
  rewrite advance_Some by done. unfold FrameLexer.do_lexing. cbv zeta.
  rewrite Hty. rewrite decide_False by done. rewrite decide_True by done.
  rewrite read_words_spec by (cbn; lia).
  cbn [FrameLexer.payload FrameLexer.pos FrameLexer.set_pos
       FrameLexer.last_far FrameLexer.toks FrameLexer.result_frames].
  rewrite Hfar. rewrite length_fmap, length_seq.
  destruct (FrameLexer.generate_frames sf _ _) as [[created frames]|];
    reflexivity.
Qed.

(** C10.  A Type-1 packet with opcode WRITE and word count 1 makes the
    lexer take the next word as the new FAR, whatever the register address
    in the header: the round consumes both words, appends a [FAR] token
    and sets [last_far] to the bit fields of that word (block: bits 31 to
    29, top/bottom: bit 28, column: bits 27 to 23, minor: bits 22 to 17),
    whatever [last_far] was before.  The frame data of a Type-2 packet
    that follows is addressed from that word.  When the lexer does not
    know the block of the word, the round raises [ValueError].
    Otherwise the round emits one frame per 41 words read (the last one
    may be shorter); the first frame has the block, the top/bottom and
    the minor of the word and the column [start_column] of it, the next
    frames follow by the rule of the column walker, every frame carries
    the FAR its fields pack to, and the frames are those that
    [generate_frames] returns for the fields of the word. *)
Theorem type1_single_word_write_sets_far (self : FrameLexer.t) hdr value :
  (FrameLexer.pos self + 8 ≤ length (FrameLexer.payload self))%nat →
  hdr = take 4 (drop (FrameLexer.pos self) (FrameLexer.payload self)) →
  value = take 4 (drop (FrameLexer.pos self + 4) (FrameLexer.payload self)) →
  Z.land (Z.shiftr (FrameLexer.from_bytes_big hdr) 29) 0x7 = 1 →
  Z.land (Z.shiftr (FrameLexer.from_bytes_big hdr) 27) 0x3 = 2 →
  Z.land (FrameLexer.from_bytes_big hdr) 0x1FFF = 1 →
  let far_hex := FrameLexer.from_bytes_big value in
  let fields :=
    {| FrameLexer.f_block := Z.land (Z.shiftr far_hex 29) 7;
       FrameLexer.f_top_bottom := Z.land (Z.shiftr far_hex 28) 1;
       FrameLexer.f_column := Z.land (Z.shiftr far_hex 23) 31;
       FrameLexer.f_major := Z.land (Z.shiftr far_hex 23) 63;
       FrameLexer.f_minor := Z.land (Z.shiftr far_hex 17) 63 |} in
  let self1 :=
    {| FrameLexer.payload := FrameLexer.payload self;
       FrameLexer.toks :=
         FrameLexer.toks self
         ++ [FrameLexer.FAR (Some "WRITE")
               (Z.land (Z.shiftr (FrameLexer.from_bytes_big hdr) 13) 0xFFFF)
               1 (Some value)];
       FrameLexer.result_frames := FrameLexer.result_frames self;
       FrameLexer.pos := (FrameLexer.pos self + 8)%nat;
       FrameLexer.last_far := Some fields |} in
  FrameLexer.lexer_step self = Ok self1
  ∧ ∀ hdr2,
      (FrameLexer.pos self + 12 ≤ length (FrameLexer.payload self))%nat →
      hdr2 = FrameLexer.from_bytes_big
               (take 4 (drop (FrameLexer.pos self + 8)
                             (FrameLexer.payload self))) →
      Z.land (Z.shiftr hdr2 29) 0x7 = 2 →
      let left := (length (FrameLexer.payload self)
                   - (FrameLexer.pos self + 12))%nat in
      let n := (Z.to_nat (Z.land hdr2 0x1FFFFFF) `min` (left / 4))%nat in
      let words :=
        (λ i, take 4 (drop (FrameLexer.pos self + 12 + 4 * i)
                           (FrameLexer.payload self))) <$> seq 0 n in
      (FrameLexer.Blocks !! FrameLexer.f_block fields = None →
       FrameLexer.lexer_step self1 = Raise ValueError)
      ∧ (is_Some (FrameLexer.Blocks !! FrameLexer.f_block fields) →
         ∃ self2 frames,
           FrameLexer.lexer_step self1 = Ok self2
           ∧ FrameLexer.pos self2 = (FrameLexer.pos self + 12 + 4 * n)%nat
           ∧ FrameLexer.last_far self2 = Some fields
           ∧ FrameLexer.result_frames self2
             = FrameLexer.result_frames self ++ frames
           ∧ FrameLexer.data_words <$> frames = FrameLexer.chunks n 41 words
           ∧ length frames = ((n + 40) / 41)%nat
           ∧ (∀ f, head frames = Some f →
                   frame_address f
                   = (FrameLexer.f_block fields,
                      FrameLexer.f_top_bottom fields,
                      start_column fields, FrameLexer.f_minor fields))
           ∧ Forall (λ f, FrameLexer.far_raw f
                          = FrameLexer.pack_far (FrameLexer.block_type f)
                              (FrameLexer.top_bottom f) (FrameLexer.column f)
                              (FrameLexer.minor f)) frames
           ∧ walker_rule FrameLexer.max_minor frames
           ∧ FrameLexer.generate_frames fields (FrameLexer.chunks n 41 words)
               (Z.of_nat (length (FrameLexer.result_frames self)))
             = Ok (Z.of_nat (length frames), frames)).
Proof.
  intros Hlen -> -> Hty Hop Hwc. cbv zeta.
  set (hdr := take 4 (drop (FrameLexer.pos self) (FrameLexer.payload self)))
    in *.
  set (value :=
         take 4 (drop (FrameLexer.pos self + 4) (FrameLexer.payload self))).
  pose proof (interpret_far_bits value) as Hf. cbv zeta in Hf.
  set (fields := {| FrameLexer.f_block := _ |}) in *.
  split.
  - unfold FrameLexer.lexer_step. rewrite advance_Some by lia. fold hdr.
    unfold FrameLexer.do_lexing. rewrite Hty, Hop, Hwc.
    rewrite decide_True by done.
    change (FrameLexer.opcode 2) with (Some "WRITE"%string).
    rewrite !bool_decide_eq_true_2 by done. cbn [andb].
    unfold FrameLexer.nextPacket. rewrite advance_Some by (cbn; lia).
    cbn [FrameLexer.set_pos FrameLexer.pos FrameLexer.payload
         FrameLexer.toks FrameLexer.result_frames FrameLexer.last_far].
    fold value. rewrite Hf. cbn. do 2 f_equal. lia.
  - intros hdr2 Hlen2 -> Hty2.
    set (self1 := {| FrameLexer.payload := _ |}).
    pose proof (lexer_step_type2 self1 _ fields ltac:(cbn; lia) eq_refl
                  Hty2 eq_refl) as Hstep.
    cbv zeta in Hstep.
    cbn [self1 FrameLexer.payload FrameLexer.pos FrameLexer.toks
         FrameLexer.result_frames FrameLexer.last_far] in Hstep.
    replace (FrameLexer.pos self + 8 + 4)%nat
      with (FrameLexer.pos self + 12)%nat in Hstep by lia.
    set (n := (Z.to_nat _ `min` _)%nat) in *.
    set (words := _ <$> seq 0 n) in *.
    split.
    + intros Hnone. rewrite Hstep.
      by rewrite generate_frames_unknown.
    + intros Hsome.
      destruct (generate_frames_known fields (FrameLexer.chunks n 41 words)
                  (Z.of_nat (length (FrameLexer.result_frames self))) Hsome)
        as (frames & Hgen & Hd & Hhead & Hraw & Hrule).
      rewrite Hgen in Hstep.
      eexists _, frames. split; [exact Hstep|].
      cbn [FrameLexer.pos FrameLexer.last_far FrameLexer.result_frames].
      split; [done|]. split; [done|]. split; [done|]. split; [done|].
      assert (length frames = length (FrameLexer.chunks n 41 words)) as Hlf
        by (rewrite <-Hd; by rewrite length_fmap).
      split; [|split; [done|split; [done|split; [done|by rewrite Hlf]]]].
      rewrite Hlf.
      replace n with (length words) at 1
        by (unfold words; by rewrite length_fmap, length_seq).
      rewrite length_chunks by done.
      unfold words. by rewrite length_fmap, length_seq.
Qed.

Lemma type1_single_word_write_sets_far_witness :
  Z.land (Z.shiftr (FrameLexer.from_bytes_big Scenario.cmd_write_header) 13)
         0xFFFF = 0x8004
  ∧ ∃ self1 self2 f1 f2,
      FrameLexer.lexer_step (FrameLexer.__init__ Scenario.stream) = Ok self1
      ∧ FrameLexer.last_far self1 = Some Scenario.start_col0_minor35
      ∧ FrameLexer.lexer_step self1 = Ok self2
      ∧ FrameLexer.result_frames self2 = [f1; f2]
      ∧ frame_address f1 = (0, 0, 0, 35)
      ∧ frame_address f2 = (0, 0, 1, 0).
Proof.
  split; [vm_compute; reflexivity|].
  pose proof (type1_single_word_write_sets_far
                (FrameLexer.__init__ Scenario.stream)
                Scenario.cmd_write_header Scenario.cmd_word) as H.
  cbv zeta in H.
  destruct H as [Hstep Hnext].
  - vm_compute. lia.
  - vm_compute. reflexivity.
  - vm_compute. reflexivity.
  - vm_compute. reflexivity.
  - vm_compute. reflexivity.
  - vm_compute. reflexivity.
  - destruct (Hnext (FrameLexer.from_bytes_big Scenario.fdri_header_82))
      as [_ Hknown].
    + vm_compute. lia.
    + vm_compute. reflexivity.
    + vm_compute. reflexivity.
    + destruct Hknown
        as (self2 & frames & Hs2 & _ & _ & Hres & _ & Hlen & Hhead & _ & Hrule
            & _).
      { vm_compute. eexists. reflexivity. }
      vm_compute in Hlen.
      destruct frames as [|f1 [|f2 [|f3 frames]]]; try discriminate Hlen.
      pose proof (Hhead f1 eq_refl) as Hf1.
      assert (frame_address f1 = (0, 0, 0, 35)) as Hf1'
        by (rewrite Hf1; vm_compute; reflexivity).
      pose proof (Hrule 0%nat f1 f2 eq_refl eq_refl) as Hf2.
      unfold frame_address in Hf1'. injection Hf1' as Hb Ht Hc Hm.
      rewrite Hb, Hc, Hm in Hf2.
      change (bool_decide (35 + 1 < FrameLexer.max_minor 0)) with false in Hf2.
      destruct Hf2 as [Hm2 Hnext2].
      destruct (Hnext2 1) as (Hb2 & Ht2 & Hc2); [vm_compute; reflexivity|].
      eexists _, self2, f1, f2.
      split; [exact Hstep|]. split; [vm_compute; reflexivity|].
      split; [exact Hs2|]. split; [exact Hres|].
      unfold frame_address. rewrite Hb, Ht, Hc, Hm, Hb2, Ht2, Hc2, Hm2, Ht.
      split; reflexivity.
Defined.

(** ** The frames that reach the loader *)

Lemma read_words_length fuel n (self : FrameLexer.t) :
  (length (FrameLexer.payload self) - FrameLexer.pos self < 4 * S fuel)%nat →
  Forall (λ w : FrameLexer.word, length w = 4%nat)
         (FrameLexer.read_words fuel n self).2.
Proof.
  intros Hfuel. rewrite read_words_spec by done. cbn [snd].
  apply Forall_fmap, Forall_forall. intros i Hi%elem_of_seq. cbn.
  rewrite length_take, length_drop.
  assert (i < (length (FrameLexer.payload self) - FrameLexer.pos self) / 4)%nat
    as Hlt by lia.
  pose proof (Nat.Div0.mul_div_le
                (length (FrameLexer.payload self) - FrameLexer.pos self) 4).
  lia.
Qed.

Lemma chunks_Forall (P : FrameLexer.word → Prop) fuel (frame_size : nat) l :
  Forall P l → Forall (Forall P) (FrameLexer.chunks fuel frame_size l).
Proof.
  revert l. induction fuel as [|fuel IH]; intros [|w l] Hl; cbn;
    try by constructor.
  constructor.
  - by apply Forall_take.
  - apply IH. by apply Forall_drop.
Qed.

(** A round of the lexer only appends frames, each with the FAR that its
    fields pack to and with four-byte words. *)
Lemma lexer_step_emitted (self self' : FrameLexer.t) :
  (FrameLexer.pos self + 4 ≤ length (FrameLexer.payload self))%nat →
  FrameLexer.lexer_step self = Ok self' →
  Forall emitted_ok (FrameLexer.result_frames self) →
  Forall emitted_ok (FrameLexer.result_frames self').
Proof.
  intros Hlen. unfold FrameLexer.lexer_step. rewrite advance_Some by done.
  set (self1 := FrameLexer.set_pos self (FrameLexer.pos self + 4)).
  set (packet := take 4 _).
  unfold FrameLexer.do_lexing. cbv zeta.
  destruct (decide (Z.land (Z.shiftr (FrameLexer.from_bytes_big packet) 29) 7
                    = 1)) as [Hty1|Hty1].
  - destruct (_ && _).
    + unfold FrameLexer.nextPacket, FrameLexer.advance.
      case_bool_decide;
        (destruct (FrameLexer.interpret_far _) as [fields|]; [|done]);
        cbn; intros Hs; ok_inj Hs; by subst self'.
    + intros Hs. ok_inj Hs. by subst self'.
  - destruct (decide (Z.land (Z.shiftr (FrameLexer.from_bytes_big packet) 29) 7
                      = 2)) as [Hty2|Hty2].
    + pose proof (read_words_length (length (FrameLexer.payload self1))
                    (Z.land (FrameLexer.from_bytes_big packet) 33554431) self1)
        as Hwords.
      pose proof (read_words_only_moves (length (FrameLexer.payload self1))
                    (Z.land (FrameLexer.from_bytes_big packet) 33554431) self1)
        as [p Hp].
      destruct (FrameLexer.read_words _ _ self1) as [self2 ws].
      cbn [fst snd] in Hwords, Hp. subst self2.
      specialize (Hwords ltac:(cbn; lia)).
      cbn -[FrameLexer.generate_frames FrameLexer.chunks].
      destruct (FrameLexer.last_far self); [|done].
      destruct (FrameLexer.generate_frames _ _ _) as [[created frames]|]
        eqn:Hgen; [|done].
      cbn. intros Hs. ok_inj Hs. subst self'. cbn. intros Hold.
      apply Forall_app. split; [done|].
      apply generate_frames_inv in Hgen as (_ & Hd & _ & Hf).
      pose proof (chunks_Forall (λ w, length w = 4%nat) (length ws) 41 ws Hwords)
        as Hchunks.
      rewrite <-Hd in Hchunks. rewrite Forall_fmap in Hchunks.
      rewrite Forall_forall in Hchunks, Hf. apply Forall_forall.
      intros fo Hin. split; [by apply Hf|by apply Hchunks].
    + intros Hs. ok_inj Hs. by subst self'.
Qed.

Lemma lexer_loop_emitted fuel (self self' : FrameLexer.t) :
  FrameLexer.lexer_loop fuel self = Ok self' →
  Forall emitted_ok (FrameLexer.result_frames self) →
  Forall emitted_ok (FrameLexer.result_frames self').
Proof.
  revert self. induction fuel as [|fuel IH]; intros self.
  - cbn. intros Hs. ok_inj Hs. by subst.
  - cbn -[FrameLexer.lexer_step]. case_bool_decide as Hlen.
    + destruct (FrameLexer.lexer_step self) as [self1|] eqn:Hstep; [|done].
      cbn. intros Hloop Hold. apply (IH _ Hloop).
      by apply (lexer_step_emitted self).
    + intros Hs. ok_inj Hs. by subst.
Qed.

Lemma lexer_emitted payload frames :
  FrameLexer.lexer (FrameLexer.__init__ payload) = Ok frames →
  Forall emitted_ok frames.
Proof.
  unfold FrameLexer.lexer.
  destruct (FrameLexer.lexer_loop _ _) as [self'|] eqn:Hloop; [|done].
  cbn. intros Hs. ok_inj Hs. subst frames.
  apply (lexer_loop_emitted _ _ _ Hloop). constructor.
Qed.

Lemma parse_emitted data head frame_objs :
  Parser.parse data = Ok (head, frame_objs) → Forall emitted_ok frame_objs.
Proof.
  unfold Parser.parse.
  destruct (Parser.split_on_marker data) as [[header payload] idx].
  destruct (Parser.parse_header header) as [h|]; [|done].
  unfold Parser.parse_payload. cbn -[FrameLexer.lexer].
  destruct (FrameLexer.lexer _) as [frames|] eqn:Hlex; [|done].
  cbn. intros Hs. ok_inj Hs. injection Hs as _ <-.
  by apply lexer_emitted in Hlex.
Qed.

Lemma length_concat_words (ws : list FrameLexer.word) :
  Forall (λ w : FrameLexer.word, length w = 4%nat) ws →
  length (concat ws) = (4 * length ws)%nat.
Proof.
  induction 1 as [|w ws Hw _ IH]; [done|].
  cbn [concat length]. rewrite length_app, IH, Hw. lia.
Qed.

Lemma adapt_batch_loaded frame_objs :
  Forall emitted_ok frame_objs →
  Forall loaded_ok (FrameObjAdapter.adapt_batch frame_objs).
Proof.
  unfold FrameObjAdapter.adapt_batch.
  induction 1 as [|fo l [Hfar Hwords] _ IH]; [constructor|].
  cbn [omap list_omap].
  destruct (adapt_cases fo)
    as [[Hlen ->]|(Hlen & a & -> & Ha1 & Ha2 & Ha3 & Ha4 & Ha5 & Ha6 & Ha7
                   & Ha8)]; [done|].
  constructor; [|done]. unfold loaded_ok, frame_ok.
  rewrite Ha1, Ha2, Ha4, Ha5, Ha6, Ha7, Ha8. split; [done|]. split; [|done].
  rewrite length_concat_words in Hlen by done. lia.
Qed.

(** X12.  What [load] returns.  Whatever the bytes of the file and
    the two flags, a bitstream that [load] returns satisfies the invariant
    of the detector: every indexed frame sits under its own FAR and every
    payload, also in the write histories, has 164 bytes.  Every frame has
    41 data words, and its FAR is [pack_far] of its own block, top/bottom,
    column and minor. *)
Theorem load_wf data validate capture_history s :
  BitstreamLoader.load data validate capture_history = Some s →
  wf_suspect s ∧ Forall loaded_ok (LoadedBitstream.frames s).
Proof.
  unfold BitstreamLoader.load.
  destruct (Parser.parse data) as [[header frame_objs]|] eqn:Hparse; [|done].
  apply parse_emitted, adapt_batch_loaded in Hparse.
  set (adapted := if validate then _ else _).
  assert (Forall loaded_ok adapted) as Hall.
  { unfold adapted. destruct validate; [|done].
    unfold BitstreamLoader._validate_frames.
    apply Forall_forall. intros f [_ Hf]%list_elem_of_filter.
    rewrite Forall_forall in Hparse. by apply Hparse. }
  clearbody adapted.
  assert (LoadedBitstream.frames (LoadedBitstream.__init__ adapted) = adapted)
    as Hframes.
  { unfold LoadedBitstream.__init__.
    by destruct (foldl (flip LoadedBitstream.index_frame) (∅, ∅) adapted). }
  assert (wf_suspect (LoadedBitstream.__init__ adapted)) as Hwf.
  { apply loader_wf. eapply Forall_impl; [exact Hall|]. by intros f [? _]. }
  destruct capture_history.
  - intros [= <-]. by rewrite Hframes.
  - case_bool_decide as Hne; [|done]. intros [= <-].
    cbn [LoadedBitstream.frames]. rewrite Hframes. split; [|done].
    destruct Hwf as [Hby Hhist]. split; [done|].
    cbn [LoadedBitstream._write_history]. apply map_Forall_fmap.
    eapply map_Forall_impl; [exact Hhist|]. intros far h Hh. cbn.
    destruct (last h) as [f|] eqn:Hlast; [|constructor].
    cbn. constructor; [|constructor].
    rewrite Forall_forall in Hh. apply Hh. by apply last_Some_elem_of.
Qed.

Lemma load_wf_witness :
  ∃ s, BitstreamLoader.load Scenario.stream true true = Some s
       ∧ wf_suspect s
       ∧ Forall loaded_ok (LoadedBitstream.frames s).
Proof.
  assert (∃ s, BitstreamLoader.load Scenario.stream true true = Some s)
    as [s Hs] by (eexists; vm_compute; reflexivity).
  exists s. split; [exact Hs|].
  apply (load_wf Scenario.stream true true s). exact Hs.
Defined.

(** ** Validation of the frames *)

Lemma walker_range w :
  wf_walker w →
  FrameLexer.w_block w ∈ [0; 1; 3; 4] ∧ 0 <= FrameLexer.w_column w <= 14.
Proof.
  destruct w as [blk tb col minor l idx]. intros [Hl Hcol]. cbn in *.
  destruct (major_list_cases _ _ Hl) as [[-> ->]|[[-> ->]|[[-> ->]|[-> ->]]]];
    (split; [set_solver|]);
    repeat (destruct idx as [|idx];
            [apply (inj Some) in Hcol; subst col; lia|]);
    by destruct idx.
Qed.

Lemma walker_advance_top_bottom w w' :
  FrameLexer.walker_advance w = Ok w' →
  FrameLexer.w_top_bottom w ∈ [0; 1] →
  FrameLexer.w_top_bottom w' ∈ [0; 1].
Proof.
  intros Hadv Htb.
  assert (Z.lxor (FrameLexer.w_top_bottom w) 1 ∈ [0; 1]) as Hx.
  { clear Hadv. revert Htb. generalize (FrameLexer.w_top_bottom w).
    intros x [->|Hx]%elem_of_cons;
      [apply list_elem_of_further, list_elem_of_here|].
    apply list_elem_of_singleton in Hx as ->. apply list_elem_of_here. }
  unfold FrameLexer.walker_advance in Hadv.
  repeat match type of Hadv with
         | context [decide ?P] => destruct (decide P)
         | context [bool_decide ?P] => destruct (bool_decide P)
         | context [match ?x with _ => _ end] => destruct x eqn:?
         end;
    try discriminate; ok_inj Hadv; subst w'; done.
Qed.

Lemma walk_range w rest idx frames :
  wf_walker w → FrameLexer.w_top_bottom w ∈ [0; 1] →
  walk w rest idx = Ok frames →
  Forall emitted_in_range frames.
Proof.
  revert w idx frames.
  induction rest as [|chunk rest IH]; intros w idx frames Hw Htb Hwalk.
  - cbn in Hwalk. ok_inj Hwalk. subst. constructor.
  - cbn [walk] in Hwalk.
    destruct (walker_advance_ok w Hw) as (w' & Hadv & Hw' & _).
    rewrite Hadv in Hwalk. cbn -[walk] in Hwalk.
    destruct (walk w' rest (idx + 1)) as [frames'|] eqn:Hrest; [|done].
    cbn in Hwalk. ok_inj Hwalk. subst frames.
    constructor.
    + destruct (walker_range w Hw). by split.
    + apply (IH w' (idx + 1)); [done| |done].
      by apply (walker_advance_top_bottom w).
Qed.

Lemma start_walker_inv sf w :
  FrameLexer.start_walker sf = Ok w →
  wf_walker w ∧ FrameLexer.w_top_bottom w = FrameLexer.f_top_bottom sf.
Proof.
  intros Hw.
  assert (is_Some (FrameLexer.Blocks !! FrameLexer.f_block sf)) as Hb.
  { unfold FrameLexer.start_walker, FrameLexer.major_list_for_block in Hw.
    by destruct (FrameLexer.Blocks !! FrameLexer.f_block sf). }
  destruct (start_walker_ok sf Hb) as (w0 & Hw0 & Hwf).
  assert (w0 = w) as -> by congruence. split; [done|].
  unfold FrameLexer.start_walker in Hw.
  destruct (FrameLexer.major_list_for_block _) as [l|]; [|done].
  destruct (FrameLexer.index_of _ l); [ok_inj Hw; by subst|].
  destruct l; [done|]. ok_inj Hw. by subst.
Qed.

Lemma generate_frames_range sf payload_frames start_idx created frames :
  FrameLexer.f_top_bottom sf ∈ [0; 1] →
  FrameLexer.generate_frames sf payload_frames start_idx
  = Ok (created, frames) →
  Forall emitted_in_range frames.
Proof.
  intros Htb. unfold FrameLexer.generate_frames.
  destruct (FrameLexer.start_walker sf) as [w|] eqn:Hw; [|done].
  apply start_walker_inv in Hw as [Hwf Hwtb].
  cbn -[FrameLexer.generate_loop Z.mul Z.of_nat].
  rewrite generate_loop_walk by lia.
  destruct (walk w payload_frames (start_idx + 0)) as [fs|] eqn:Hwalk;
    [|done].
  cbn -[Z.of_nat]. rewrite decide_False by (intros Hne; by apply Hne).
  intros Heq. ok_inj Heq. injection Heq as <- <-.
  apply (walk_range w payload_frames (start_idx + 0)); [done| |done].
  by rewrite Hwtb.
Qed.

Lemma interpret_far_top_bottom value fields :
  FrameLexer.interpret_far value = Ok fields →
  FrameLexer.f_top_bottom fields ∈ [0; 1].
Proof.
  destruct value as [far|]; [|done]. cbn. intros H. ok_inj H. subst fields.
  cbn. set (x := Z.shiftr _ 5).
  assert (0 <= Z.land x 1 < 2) by (apply (land_ones_bounds x 1); lia).
  assert (Z.land x 1 = 0 ∨ Z.land x 1 = 1) as [->| ->] by lia; set_solver.
Qed.

Lemma lexer_step_range (self self' : FrameLexer.t) :
  (FrameLexer.pos self + 4 ≤ length (FrameLexer.payload self))%nat →
  FrameLexer.lexer_step self = Ok self' →
  lexer_in_range self → lexer_in_range self'.
Proof.
  intros Hlen. unfold FrameLexer.lexer_step. rewrite advance_Some by done.
  set (self1 := FrameLexer.set_pos self (FrameLexer.pos self + 4)).
  set (packet := take 4 _).
  unfold FrameLexer.do_lexing. cbv zeta.
  destruct (decide (Z.land (Z.shiftr (FrameLexer.from_bytes_big packet) 29) 7
                    = 1)) as [Hty1|Hty1].
  - destruct (_ && _).
    + unfold FrameLexer.nextPacket, FrameLexer.advance.
      case_bool_decide;
        (destruct (FrameLexer.interpret_far _) as [fields|] eqn:Hfar;
           [|done]);
        cbn; intros Hs; ok_inj Hs; subst self'; intros [_ Hold];
        (split; [|done]); cbn; intros sf [= <-];
        by apply interpret_far_top_bottom in Hfar.
    + intros Hs. ok_inj Hs. by subst self'.
  - destruct (decide (Z.land (Z.shiftr (FrameLexer.from_bytes_big packet) 29) 7
                      = 2)) as [Hty2|Hty2].
    + pose proof (read_words_only_moves (length (FrameLexer.payload self1))
                    (Z.land (FrameLexer.from_bytes_big packet) 33554431) self1)
        as [p Hp].
      destruct (FrameLexer.read_words _ _ self1) as [self2 ws].
      cbn [fst snd] in Hp. subst self2.
      cbn -[FrameLexer.generate_frames FrameLexer.chunks].
      destruct (FrameLexer.last_far self) as [sf|] eqn:Hsf; [|done].
      destruct (FrameLexer.generate_frames _ _ _) as [[created frames]|]
        eqn:Hgen; [|done].
      cbn. intros Hs. ok_inj Hs. subst self'. intros [Hlast Hold].
      split; cbn.
      * intros sf' [= <-]. by apply Hlast.
      * apply Forall_app. split; [done|].
        apply generate_frames_range in Hgen; [done|]. by apply Hlast.
    + intros Hs. ok_inj Hs. by subst self'.
Qed.

Lemma lexer_loop_range fuel (self self' : FrameLexer.t) :
  FrameLexer.lexer_loop fuel self = Ok self' →
  lexer_in_range self → lexer_in_range self'.
Proof.
  revert self. induction fuel as [|fuel IH]; intros self.
  - cbn. intros Hs. ok_inj Hs. by subst.
  - cbn -[FrameLexer.lexer_step]. case_bool_decide as Hlen.
    + destruct (FrameLexer.lexer_step self) as [self1|] eqn:Hstep; [|done].
      cbn. intros Hloop Hold. apply (IH _ Hloop).
      by apply (lexer_step_range self).
    + intros Hs. ok_inj Hs. by subst.
Qed.

Lemma parse_range data head frame_objs :
  Parser.parse data = Ok (head, frame_objs) →
  Forall emitted_in_range frame_objs.
Proof.
  unfold Parser.parse.
  destruct (Parser.split_on_marker data) as [[header payload] idx].
  destruct (Parser.parse_header header) as [h|]; [|done].
  unfold Parser.parse_payload, FrameLexer.lexer.
  cbn -[FrameLexer.lexer_loop].
  destruct (FrameLexer.lexer_loop _ _) as [self'|] eqn:Hloop; [|done].
  cbn. intros Hs. ok_inj Hs. injection Hs as _ <-.
  apply (lexer_loop_range _ _ _ Hloop). split; [done|constructor].
Qed.

Lemma adapt_batch_valid frame_objs :
  Forall emitted_ok frame_objs → Forall emitted_in_range frame_objs →
  BitstreamLoader._validate_frames (FrameObjAdapter.adapt_batch frame_objs)
  = FrameObjAdapter.adapt_batch frame_objs.
Proof.
  intros Hok Hrange. unfold BitstreamLoader._validate_frames.
  apply filter_all. intros a Ha.
  pose proof (adapt_batch_loaded _ Hok) as Hloaded.
  rewrite Forall_forall in Hloaded.
  destruct (Hloaded _ Ha) as (Hlen & Hcount & _).
  unfold FrameObjAdapter.adapt_batch in Ha.
  apply list_elem_of_omap in Ha as (fo & Hfo & Hadapt).
  rewrite Forall_forall in Hrange.
  destruct (Hrange _ Hfo) as (Hb & Htb & Hcol).
  destruct (adapt_cases fo)
    as [[_ Hnone]|(_ & a' & Hsome & _ & _ & _ & Hab & Hatb & Hac & _)];
    [congruence|].
  assert (a' = a) as -> by congruence.
  unfold FrameObjAdapter.validate_frame_data.
  rewrite decide_False by (intros Hne; by apply Hne).
  rewrite decide_False by (intros Hne; by apply Hne).
  rewrite Hab, Hatb, Hac.
  assert (FrameLexer.block_type fo <= 4) by (set_unfold; lia).
  rewrite bool_decide_false by lia.
  rewrite (bool_decide_true (_ ∈ _)) by done. cbn [negb].
  by rewrite bool_decide_false by lia.
Qed.

(** X13.  Validation in the loader never removes a
    frame.  Every frame that the parser emits and the adapter accepts has
    164 bytes in 41 words, a block code among 0, 1, 3 and 4, top/bottom 0
    or 1 and a column of at most 14, and so passes [validate_frame_data]:
    [load] gives the same result with [validate=True] and with
    [validate=False], for every file. *)
Theorem load_validate_irrelevant data capture_history :
  BitstreamLoader.load data true capture_history
  = BitstreamLoader.load data false capture_history.
Proof.
  unfold BitstreamLoader.load.
  destruct (Parser.parse data) as [[header frame_objs]|] eqn:Hparse; [|done].
  rewrite adapt_batch_valid; [done|..].
  - by apply parse_emitted in Hparse.
  - by apply parse_range in Hparse.
Qed.

(** ** The parser and the history flag of the loader *)

Lemma find_spec marker data idx :
  match Parser.find marker data idx with
  | Some i =>
      (idx ≤ i)%nat
      ∧ take (length marker) (drop (i - idx) data) = marker
      ∧ ∀ k, (k < i - idx)%nat → take (length marker) (drop k data) ≠ marker
  | None => ∀ k, take (length marker) (drop k data) ≠ marker
  end.
Proof.
  revert idx. induction data as [|b data IH]; intros idx.
  - cbn [Parser.find]. case_bool_decide as Hm.
    + rewrite Nat.sub_diag. split; [done|]. split; [done|]. intros k. lia.
    + intros k. by rewrite drop_nil.
  - cbn [Parser.find]. case_bool_decide as Hm.
    + rewrite Nat.sub_diag. split; [done|]. split; [done|]. intros k. lia.
    + specialize (IH (S idx)).
      destruct (Parser.find marker data (S idx)) as [i|].
      * destruct IH as (Hle & Hat & Hbefore).
        split; [lia|].
        replace (i - idx)%nat with (S (i - S idx)) by lia.
        split; [done|].
        intros [|k] Hk; [done|]. cbn [drop]. apply Hbefore. lia.
      * intros [|k]; [done|]. apply IH.
Qed.

(** X14.  Splitting at the sync word.  When the sync
    word [AA 99 55 66] occurs in the data, the header is what precedes its
    first occurrence and the payload what follows it, so header, sync word
    and payload make up the data again; when it does not occur, the header
    is empty and the payload is the data. *)
Theorem split_on_marker_spec data :
  match Parser.split_on_marker data with
  | (header, payload, Some idx) =>
      data = header ++ Parser.MARKER ++ payload
      ∧ idx = length header
      ∧ ∀ k, (k < idx)%nat → take 4 (drop k data) ≠ Parser.MARKER
  | (header, payload, None) =>
      header = [] ∧ payload = data
      ∧ ∀ k, take 4 (drop k data) ≠ Parser.MARKER
  end.
Proof.
  unfold Parser.split_on_marker.
  pose proof (find_spec Parser.MARKER data 0) as Hfind.
  destruct (Parser.find Parser.MARKER data 0) as [i|]; [|done].
  destruct Hfind as (_ & Hat & Hbefore). rewrite Nat.sub_0_r in Hat, Hbefore.
  change (length Parser.MARKER) with 4%nat in *.
  assert (i + 4 ≤ length data)%nat as Hlen.
  { apply (f_equal length) in Hat. rewrite length_take, length_drop in Hat.
    change (length Parser.MARKER) with 4%nat in Hat. lia. }
  split; [|split].
  - rewrite <-Hat at 1. rewrite <-drop_drop.
    by rewrite (take_drop 4), take_drop.
  - rewrite length_take. lia.
  - done.
Qed.

(** X15.  Loading without the write history.  [load]
    fails with [capture_history=False] exactly when it fails with
    [capture_history=True]; otherwise the two results hold the same frames
    and the same current frame for every FAR, and without
    [capture_history] the write history of a FAR is its current frame
    alone. *)
Theorem load_without_history data validate :
  match BitstreamLoader.load data validate true with
  | None => BitstreamLoader.load data validate false = None
  | Some s =>
      ∃ s', BitstreamLoader.load data validate false = Some s'
            ∧ LoadedBitstream.frames s' = LoadedBitstream.frames s
            ∧ ∀ far,
                LoadedBitstream.get_frame s' far
                = LoadedBitstream.get_frame s far
                ∧ LoadedBitstream.get_write_history s' far
                  = option_list (LoadedBitstream.get_frame s far)
  end.
Proof.
  unfold BitstreamLoader.load.
  destruct (Parser.parse data) as [[header frame_objs]|]; [|done].
  set (adapted := if validate then _ else _). clearbody adapted.
  rewrite bool_decide_true by apply loader_history_nonempty.
  eexists. split; [reflexivity|]. split; [done|].
  intros far. split; [done|].
  destruct (loader_writes adapted far) as [Hhist Hget].
  cbv zeta in Hhist, Hget.
  rewrite Hget, <-Hhist.
  unfold LoadedBitstream.get_write_history.
  cbn [LoadedBitstream._write_history]. rewrite lookup_fmap.
  by destruct (LoadedBitstream._write_history _ !! far).
Qed.

(* ===================================================================== *)
(** * The golden baseline                                                 *)
(* ===================================================================== *)

(** X16.  A baseline built from a loaded bitstream
    answers like the bitstream.  For every list of frames and every FAR,
    the baseline that [build_from_loaded] makes of the loaded frames
    expects exactly the FARs of the bitstream, [get_frame] returns the
    current frame of the bitstream for the FAR, [has_frame] tells whether
    there is one, and [get_write_history] returns the payloads of the
    writes to the FAR, in file order. *)
Theorem build_from_loaded_lookups frames far :
  let s := LoadedBitstream.__init__ frames in
  let g := GoldenBaseline.build_from_loaded s in
  GoldenBaseline.get_expected_frames g
  = list_to_set (LoadedBitstream.get_all_far_values s)
  ∧ GoldenBaseline.get_frame g far = LoadedBitstream.get_frame s far
  ∧ GoldenBaseline.has_frame g far
    = bool_decide (is_Some (LoadedBitstream.get_frame s far))
  ∧ GoldenBaseline.get_write_history g far
    = LoadedBitstream.get_write_history_bytes s far.
Proof.
  cbv zeta.
  destruct (build_from_loaded_same frames) as (Hfars & Hframes & Hhistory).
  cbv zeta in *. unfold golden_fars, suspect_fars in Hfars.
  unfold GoldenBaseline.get_expected_frames, GoldenBaseline.get_frame,
    GoldenBaseline.has_frame, GoldenBaseline.get_write_history,
    LoadedBitstream.get_frame, LoadedBitstream.get_write_history_bytes.
  rewrite Hfars, Hframes, Hhistory. repeat split.
  - apply set_eq. intros x. rewrite elem_of_list_to_set.
    unfold LoadedBitstream.get_all_far_values.
    rewrite merge_sort_Permutation.
    rewrite elem_of_dom, list_elem_of_fmap. split.
    + intros [f Hf]. exists (x, f). split; [done|].
      by apply elem_of_map_to_list.
    + intros ([k f] & -> & Hf). apply elem_of_map_to_list in Hf. by exists f.
  - rewrite lookup_fmap.
    by destruct (LoadedBitstream._write_history _ !! far).
Qed.

(** X17.  A bitstream compared with the baseline built
    from it is clean.  For every list of frames, whatever their payloads
    and however often a FAR is written, [detect] on the loaded bitstream
    and the baseline that [build_from_loaded] makes of it returns a report
    with no anomaly, no changed bit and [trojan_detected] false. *)
Theorem detect_own_baseline self frames :
  let s := LoadedBitstream.__init__ frames in
  ∃ r,
    FrameDifferentialDetector.detect self
      (GoldenBaseline.build_from_loaded s) s = Ok r
    ∧ AnomalyReport.anomalies r = []
    ∧ AnomalyReport.trojan_detected r = false
    ∧ AnomalyReport.total_bits_changed r = 0.
Proof.
  cbv zeta.
  destruct (build_from_loaded_same frames) as (Hfars & Hdata & Hhist).
  cbv zeta in *.
  set (s := LoadedBitstream.__init__ frames) in *.
  set (g := GoldenBaseline.build_from_loaded s) in *.
  rewrite detect_unfold.
  rewrite structural_returns by (intros far ? ?; set_solver).
  assert (added_anomalies g s = []) as ->.
  { unfold added_anomalies.
    replace (suspect_fars s ∖ golden_fars g) with (∅ : gset Z)
      by set_solver.
    by rewrite elements_empty. }
  cbn -[FrameDifferentialDetector._detect_data_differences].
  assert (FrameDifferentialDetector._detect_data_differences self g s = Ok [])
    as ->.
  { unfold FrameDifferentialDetector._detect_data_differences.
    apply collectM_nil. intros far _.
    unfold FrameDifferentialDetector.compare_common_frame,
      GoldenBaseline.get_frame, LoadedBitstream.get_frame.
    rewrite Hdata.
    destruct (LoadedBitstream._frame_by_far s !! far) as [sf|]; [|done].
    rewrite decide_False by (intros Hne; by apply Hne).
    unfold GoldenBaseline.get_write_history,
      LoadedBitstream.get_write_history.
    rewrite Hhist, lookup_fmap.
    destruct (LoadedBitstream._write_history s !! far) as [sh|]; [|done].
    cbn -[FrameDifferentialDetector._detect_transient_history_mismatches].
    destruct sh as [|w sh]; [done|].
    rewrite fmap_cons. rewrite <-(fmap_cons AdaptedFrame.frame_data).
    apply transient_same. }
  eexists. split; [reflexivity|]. by cbn.
Qed.

(** X18.  [verify_frame] and
    [find_differences] agree.  On a baseline whose payloads have 164
    bytes, [verify_frame] accepts a payload for a FAR exactly when
    [find_differences] returns the empty list for it; in particular both
    reject a FAR that the baseline does not hold. *)
Theorem verify_frame_find_differences g far suspect_data :
  wf_golden g →
  GoldenBaseline.verify_frame g far suspect_data = true
  ↔ GoldenBaseline.find_differences g far suspect_data = Ok (Some []).
Proof.
  intros [Hframes _].
  unfold GoldenBaseline.verify_frame, GoldenBaseline.find_differences,
    GoldenBaseline.get_frame_data, GoldenBaseline.get_frame.
  destruct (GoldenBaseline._frames g !! far) as [gf|] eqn:Hgf; cbn; [|done].
  destruct (Hframes _ _ Hgf) as [_ Hok].
  case_decide as Heq.
  - by rewrite bool_decide_eq_true.
  - rewrite bool_decide_eq_true. split; [done|].
    rewrite compare_frames_cases.
    case_decide; [done|]. case_decide; [done|].
    cbn. intros Hnil. exfalso. apply Heq.
    assert (diff_positions (AdaptedFrame.frame_data gf) suspect_data = [])
      as Hd by congruence.
    apply diff_positions_nil_iff in Hd; [done|done|].
    unfold frame_ok in *. lia.
Qed.

Lemma verify_frame_find_differences_witness :
  GoldenBaseline.verify_frame Scenario.transient_golden
    Scenario.clb_routing_far Scenario.zeros = true
  ↔ GoldenBaseline.find_differences Scenario.transient_golden
      Scenario.clb_routing_far Scenario.zeros = Ok (Some []).
Proof.
  apply (verify_frame_find_differences Scenario.transient_golden
           Scenario.clb_routing_far Scenario.zeros).
  apply (bool_decide_unpack _). vm_compute. reflexivity.
Defined.

(** The inner loop of [merge_baselines]: a FAR that the merged baseline
    holds keeps its frame, another FAR of the list gets the frame of
    [baseline]. *)
Lemma merge_frame_fold baseline fars merged :
  GoldenBaseline.configured_fars merged = dom (GoldenBaseline._frames merged) →
  map_Forall (λ far f, AdaptedFrame.far_value f = far)
             (GoldenBaseline._frames baseline) →
  let merged' := foldl (GoldenBaselineBuilder.merge_frame baseline)
                       merged fars in
  GoldenBaseline.configured_fars merged'
  = dom (GoldenBaseline._frames merged')
  ∧ GoldenBaseline._write_history merged'
    = GoldenBaseline._write_history merged
  ∧ GoldenBaseline.used_tiles merged' = GoldenBaseline.used_tiles merged
  ∧ ∀ far,
      GoldenBaseline._frames merged' !! far
      = match GoldenBaseline._frames merged !! far with
        | Some f => Some f
        | None => if decide (far ∈ fars)
                  then GoldenBaseline._frames baseline !! far
                  else None
        end.
Proof.
  intros Hdom Hkeys. cbv zeta.
  induction fars as [|x fars IH] using rev_ind.
  - cbn. repeat split; try done. intros far.
    destruct (_ !! far); [done|]. by rewrite decide_False by set_solver.
  - rewrite foldl_snoc.
    destruct IH as (IHdom & IHhist & IHtiles & IHget).
    set (m := foldl (GoldenBaselineBuilder.merge_frame baseline) merged fars)
      in *.
    unfold GoldenBaselineBuilder.merge_frame, GoldenBaseline.has_frame,
      GoldenBaseline.get_frame.
    assert (∀ far, (if decide (far ∈ fars ++ [x])
                    then GoldenBaseline._frames baseline !! far else None)
                   = if decide (far = x)
                     then GoldenBaseline._frames baseline !! x
                     else if decide (far ∈ fars)
                          then GoldenBaseline._frames baseline !! far
                          else None) as Hsplit.
    { intros far. destruct (decide (far = x)) as [->|Hne].
      - rewrite decide_True by set_solver. done.
      - destruct (decide (far ∈ fars)).
        + rewrite decide_True by set_solver. done.
        + rewrite decide_False by set_solver. done. }
    case_bool_decide as Hin; cbn [negb].
    + repeat split; try done. intros far. rewrite IHget.
      destruct (GoldenBaseline._frames merged !! far) eqn:Hm; [done|].
      rewrite Hsplit. destruct (decide (far = x)) as [->|]; [|done].
      rewrite IHget, Hm in Hin. destruct Hin as [f Hf].
      destruct (decide (x ∈ fars)); [congruence|done].
    + destruct (GoldenBaseline._frames baseline !! x) as [f|] eqn:Hb.
      * pose proof (Hkeys _ _ Hb) as Hfar. cbn in Hfar.
        unfold GoldenBaseline.add_frame. rewrite Hfar.
        cbn [GoldenBaseline._frames GoldenBaseline._write_history
             GoldenBaseline.configured_fars GoldenBaseline.used_tiles].
        repeat split; try done.
        { rewrite dom_insert_L, IHdom. set_solver. }
        intros far. rewrite Hsplit.
        destruct (decide (far = x)) as [->|Hne].
        -- rewrite lookup_insert_eq.
           rewrite <-eq_None_not_Some in Hin. rewrite IHget in Hin.
           destruct (GoldenBaseline._frames merged !! x); [done|].
           destruct (decide (x ∈ fars)); congruence.
        -- rewrite lookup_insert_ne by done. apply IHget.
      * repeat split; try done. intros far. rewrite IHget, Hsplit.
        destruct (GoldenBaseline._frames merged !! far); [done|].
        destruct (decide (far = x)) as [->|]; [|done].
        rewrite <-eq_None_not_Some in Hin. rewrite IHget in Hin.
        destruct (GoldenBaseline._frames merged !! x); [done|].
        destruct (decide (x ∈ fars)); congruence.
Qed.

Lemma merge_loop_spec baselines merged :
  GoldenBaseline.configured_fars merged = dom (GoldenBaseline._frames merged) →
  Forall (λ b, map_Forall (λ far f, AdaptedFrame.far_value f = far)
                          (GoldenBaseline._frames b)) baselines →
  let merged' :=
    foldl (λ merged baseline,
             foldl (GoldenBaselineBuilder.merge_frame baseline) merged
                   (elements (GoldenBaseline.get_expected_frames baseline)))
          merged baselines in
  GoldenBaseline.configured_fars merged'
  = dom (GoldenBaseline._frames merged')
  ∧ GoldenBaseline._write_history merged'
    = GoldenBaseline._write_history merged
  ∧ ∀ far,
      GoldenBaseline._frames merged' !! far
      = match GoldenBaseline._frames merged !! far with
        | Some f => Some f
        | None =>
            head (omap (λ b, if bool_decide
                                  (far ∈ GoldenBaseline.get_expected_frames b)
                             then GoldenBaseline.get_frame b far
                             else None) baselines)
        end.
Proof.
  intros Hdom Hall. cbv zeta. revert merged Hdom.
  induction Hall as [|b baselines Hb Hall IH]; intros merged Hdom.
  - cbn. repeat split; try done. intros far. by destruct (_ !! far).
  - cbn [foldl].
    destruct (merge_frame_fold b
                (elements (GoldenBaseline.get_expected_frames b)) merged
                Hdom Hb) as (Hdom1 & Hhist1 & _ & Hget1).
    destruct (IH _ Hdom1) as (Hdom2 & Hhist2 & Hget2).
    repeat split; [done|congruence|].
    intros far. rewrite Hget2, Hget1.
    destruct (GoldenBaseline._frames merged !! far); [done|].
    cbn. unfold GoldenBaseline.get_frame.
    destruct (decide (far ∈ GoldenBaseline.get_expected_frames b)) as [Hin|Hin].
    + rewrite decide_True by by apply elem_of_elements.
      rewrite bool_decide_true by done.
      by destruct (GoldenBaseline._frames b !! far).
    + rewrite decide_False by by rewrite elem_of_elements.
      by rewrite bool_decide_false by done.
Qed.

Lemma merge_tiles_spec baselines (acc : gset string) tile :
  tile ∈ foldl (λ all_used_tiles baseline,
                  all_used_tiles ∪ GoldenBaseline.used_tiles baseline)
               acc baselines
  ↔ tile ∈ acc ∨ ∃ b, b ∈ baselines ∧ tile ∈ GoldenBaseline.used_tiles b.
Proof.
  revert acc. induction baselines as [|b baselines IH]; intros acc; cbn.
  - split; [by left|]. intros [?|(b & Hb & _)]; [done|]. by inversion Hb.
  - rewrite IH, elem_of_union. split.
    + intros [[?|?]|(b' & Hb' & ?)].
      * by left.
      * right. exists b. split; [left|done].
      * right. exists b'. split; [by right|done].
    + intros [?|(b' & Hb' & ?)]; [by left; left|].
      apply elem_of_cons in Hb' as [->|Hb'].
      * left. by right.
      * right. by exists b'.
Qed.

(** X19.  Merging baselines.  For baselines that store
    every frame under its own FAR, the merged baseline holds, for each
    FAR, the frame of the first baseline in the list that expects the FAR
    and holds a frame for it; it expects exactly the FARs it holds a frame
    for; a tile is used when it is used in one of the baselines; and no
    write history is carried over: [get_write_history] is empty for every
    FAR. *)
Theorem merge_baselines_spec baselines :
  Forall (λ b, map_Forall (λ far f, AdaptedFrame.far_value f = far)
                          (GoldenBaseline._frames b)) baselines →
  let merged := GoldenBaselineBuilder.merge_baselines baselines in
  (∀ far,
     GoldenBaseline.get_frame merged far
     = head (omap (λ b, if bool_decide
                             (far ∈ GoldenBaseline.get_expected_frames b)
                        then GoldenBaseline.get_frame b far
                        else None) baselines))
  ∧ (∀ far, far ∈ GoldenBaseline.get_expected_frames merged
            ↔ GoldenBaseline.has_frame merged far = true)
  ∧ (∀ far, GoldenBaseline.get_write_history merged far = [])
  ∧ (∀ tile, GoldenBaseline.is_tile_used merged tile = true
             ↔ ∃ b, b ∈ baselines
                    ∧ GoldenBaseline.is_tile_used b tile = true).
Proof.
  intros Hall. cbv zeta.
  destruct (merge_loop_spec baselines GoldenBaseline.__init__)
    as (Hdom & Hhist & Hget); [by cbn; rewrite dom_empty_L|done|].
  cbv zeta in *.
  unfold GoldenBaselineBuilder.merge_baselines, GoldenBaseline.set_used_tiles,
    GoldenBaseline.get_frame, GoldenBaseline.get_expected_frames,
    GoldenBaseline.has_frame, GoldenBaseline.get_write_history,
    GoldenBaseline.is_tile_used in *.
  cbn [GoldenBaseline._frames GoldenBaseline._write_history
       GoldenBaseline.configured_fars GoldenBaseline.used_tiles].
  split; [|split; [|split]].
  - intros far. rewrite Hget. done.
  - intros far. by rewrite bool_decide_eq_true, Hdom, elem_of_dom.
  - intros far. by rewrite Hhist.
  - intros tile. rewrite bool_decide_eq_true, merge_tiles_spec.
    split.
    + intros [?|(b & ? & ?)]; [set_solver|].
      exists b. by rewrite bool_decide_eq_true.
    + intros (b & ? & Hb). rewrite bool_decide_eq_true in Hb.
      right. by exists b.
Qed.

Lemma merge_baselines_spec_witness :
  let merged :=
    GoldenBaselineBuilder.merge_baselines
      [Scenario.transient_golden; Scenario.removed_golden] in
  GoldenBaseline.get_frame merged Scenario.clb_routing_far
  = Some (Scenario.frame Scenario.clb_routing_far Scenario.zeros 0)
  ∧ GoldenBaseline.get_write_history merged Scenario.clb_routing_far = [].
Proof.
  destruct (merge_baselines_spec
              [Scenario.transient_golden; Scenario.removed_golden])
    as (Hget & _ & Hhist & _).
  - apply (bool_decide_unpack _). vm_compute. reflexivity.
  - split; [|apply Hhist].
    rewrite (Hget Scenario.clb_routing_far). vm_compute. reflexivity.
Defined.

(** A minimal baseline expects exactly the given FARs and holds an
    all-zero frame under each of them. *)
Lemma create_minimal_baseline_spec fars :
  let g := GoldenBaselineBuilder.create_minimal_baseline fars in
  GoldenBaseline.get_expected_frames g = list_to_set fars
  ∧ wf_golden g
  ∧ ∀ far,
      GoldenBaseline.get_frame_data g far
      = if decide (far ∈ fars) then Some (replicate 164 x00) else None.
Proof.
  cbv zeta. unfold GoldenBaselineBuilder.create_minimal_baseline.
  induction fars as [|x fars IH] using rev_ind.
  - cbn. split; [done|]. split; [split; apply map_Forall_empty|].
    intros far. by rewrite decide_False by set_solver.
  - rewrite foldl_snoc. destruct IH as (IHfars & [IHkeys IHhist] & IHget).
    set (g := foldl _ GoldenBaseline.__init__ fars) in *.
    unfold GoldenBaseline.add_frame, GoldenBaseline.get_expected_frames,
      GoldenBaseline.get_frame_data, GoldenBaseline.get_frame in *.
    cbn [GoldenBaseline._frames GoldenBaseline._write_history
         GoldenBaseline.configured_fars GoldenBaseline.used_tiles
         AdaptedFrame.far_value].
    split; [|split; [split|]].
    + rewrite IHfars, list_to_set_app_L. set_solver.
    + apply map_Forall_insert_2; [|done]. by split.
    + done.
    + intros far. destruct (decide (far = x)) as [->|Hne].
      * rewrite lookup_insert_eq. by rewrite decide_True by set_solver.
      * rewrite lookup_insert_ne by done. rewrite IHget.
        destruct (decide (far ∈ fars)).
        -- by rewrite decide_True by set_solver.
        -- by rewrite decide_False by set_solver.
Qed.

(* ===================================================================== *)
(** * The forward mapper and the bit regions                              *)
(* ===================================================================== *)

Lemma properties_unknown block :
  block ∉ [BlockType.CLB; BlockType.IOB; BlockType.BRAM_CONTENT;
           BlockType.BRAM_INT; BlockType.CLK] →
  BlockType.get_properties block = None.
Proof.
  intros Hb. unfold BlockType.get_properties, BlockType.PROPERTIES.
  rewrite !lookup_insert_ne by set_solver. apply lookup_empty.
Qed.

(** The resource categories of a frame are those of its block type: the
    column and the minor do not enter. *)
Lemma classify_resources_cases block column_desc minor :
  FrameMapper._classify_resources block column_desc minor
  = if decide (block = BlockType.CLB)
    then {[FrameMapper.ROUTING; FrameMapper.LOGIC; FrameMapper.CONTROL]}
    else if decide (block = BlockType.IOB)
    then {[FrameMapper.IO; FrameMapper.ROUTING; FrameMapper.CONTROL]}
    else if decide (block = BlockType.BRAM_CONTENT)
    then {[FrameMapper.LOGIC; FrameMapper.MEMORY]}
    else if decide (block = BlockType.BRAM_INT)
    then {[FrameMapper.ROUTING]}
    else if decide (block = BlockType.CLK)
    then {[FrameMapper.CLOCK; FrameMapper.ROUTING; FrameMapper.CONTROL]}
    else {[FrameMapper.UNKNOWN]}.
Proof.
  destruct (decide (block = BlockType.CLB)) as [->|H0];
    [apply classify_resources_clb|].
  destruct (decide (block = BlockType.IOB)) as [->|H1];
    [apply classify_resources_iob|].
  destruct (decide (block = BlockType.BRAM_CONTENT)) as [->|H2];
    [apply classify_resources_bram_content|].
  destruct (decide (block = BlockType.BRAM_INT)) as [->|H3];
    [apply classify_resources_bram_int|].
  destruct (decide (block = BlockType.CLK)) as [->|H5];
    [apply classify_resources_clk|].
  unfold FrameMapper._classify_resources, BlockType.contains_routing,
    BlockType.contains_logic.
  rewrite properties_unknown by set_solver. cbn [from_option].
  rewrite (decide_False (P := block = BlockType.CLB)) by done.
  rewrite (decide_False (P := block = BlockType.IOB)) by done.
  rewrite (decide_False (P := block = BlockType.BRAM_CONTENT)) by done.
  rewrite (decide_False (P := block = BlockType.BRAM_INT)) by done.
  rewrite (decide_False (P := block = BlockType.CLK)) by done.
  rewrite bool_decide_false by set_solver.
  by rewrite decide_True by done.
Qed.

Lemma NoDup_seqZ_keys {A} (f : Z → A) m n :
  NoDup ((λ c, (c, f c)) <$> seqZ m n).*1.
Proof.
  rewrite <-list_fmap_compose.
  replace (fst ∘ (λ c, (c, f c)) <$> seqZ m n) with (seqZ m n);
    [apply NoDup_seqZ|].
  induction (seqZ m n) as [|x l IH]; [done|]. cbn. by rewrite <-IH.
Qed.

Lemma get_column_descriptor_cases column_index :
  ColumnMapper.get_column_descriptor column_index
  = if bool_decide (0 <= column_index < 48)
    then Some (ColumnMapper.build_descriptor column_index)
    else None.
Proof.
  unfold ColumnMapper.get_column_descriptor, ColumnMapper._column_descriptors.
  change DeviceConstants.TOTAL_COLUMNS with 48.
  case_bool_decide as Hc.
  - apply elem_of_list_to_map_1; [apply NoDup_seqZ_keys|].
    apply list_elem_of_fmap. exists column_index. split; [done|].
    apply elem_of_seqZ. lia.
  - apply not_elem_of_list_to_map_1.
    rewrite <-list_fmap_compose.
    intros (c & Hcc & Hin%elem_of_seqZ)%list_elem_of_fmap. cbn in Hcc. lia.
Qed.

Lemma column_map_outside major :
  ¬ 0 <= major < 48 → ColumnClassification.COLUMN_MAP !! major = None.
Proof.
  intros Hm. unfold ColumnClassification.COLUMN_MAP.
  apply not_elem_of_list_to_map_1. rewrite fst_zip by (vm_compute; lia).
  rewrite elem_of_seqZ. lia.
Qed.

(** Every column of the device has two tile types. *)
Lemma tile_types_length major :
  0 <= major < 48 →
  length (ColumnClassification.get_tile_types_in_column major) = 2%nat.
Proof.
  intros Hm.
  assert (Forall (λ major,
            length (ColumnClassification.get_tile_types_in_column major)
            = 2%nat) (seqZ 0 48)) as Hall.
  { apply (bool_decide_unpack _). by vm_compute. }
  rewrite Forall_forall in Hall. apply Hall, elem_of_seqZ. lia.
Qed.

(** X20.  The flags of a coverage follow the block type
    alone.  For every FAR whose column is on the device (major at most
    47), and whatever the column and the minor, [map_frame] flags the
    frame as a routing frame exactly when its block type is CLB, IOB,
    BRAM_INT or CLK, as a logic frame exactly when it is CLB or BRAM
    content, as a memory frame when it is BRAM content, as a clock frame
    when it is CLK and as an IO frame when it is IOB.  A FAR of another
    column carries no flag. *)
Theorem map_frame_flags far_value :
  let coverage := FrameMapper.map_frame far_value in
  let block := FrameAddress.block_type (FrameAddress.decode far_value) in
  let known :=
    bool_decide (FrameAddress.major (FrameAddress.decode far_value) <= 47) in
  FrameMapper.is_routing_frame coverage
  = known && bool_decide (block ∈ [BlockType.CLB; BlockType.IOB;
                                    BlockType.BRAM_INT; BlockType.CLK])
  ∧ FrameMapper.is_logic_frame coverage
    = known && bool_decide (block ∈ [BlockType.CLB; BlockType.BRAM_CONTENT])
  ∧ FrameMapper.is_memory_frame coverage
    = known && bool_decide (block = BlockType.BRAM_CONTENT)
  ∧ FrameMapper.is_clock_frame coverage
    = known && bool_decide (block = BlockType.CLK)
  ∧ FrameMapper.is_io_frame coverage
    = known && bool_decide (block = BlockType.IOB).
Proof.
  cbv zeta. pose proof (decode_bounds far_value) as (_ & _ & Hm & _).
  cbv zeta in Hm. unfold FrameMapper.map_frame. cbv zeta.
  rewrite get_column_descriptor_cases.
  set (block := FrameAddress.block_type _).
  set (major := FrameAddress.major _) in *.
  case_bool_decide as Hcol.
  - rewrite (bool_decide_true (major <= 47)) by lia.
    cbn [FrameMapper.is_routing_frame FrameMapper.is_logic_frame
         FrameMapper.is_memory_frame FrameMapper.is_clock_frame
         FrameMapper.is_io_frame andb].
    rewrite classify_resources_cases.
    destruct (decide (block = BlockType.CLB)) as [->|H0];
      [repeat split; by vm_compute|].
    destruct (decide (block = BlockType.IOB)) as [->|H1];
      [repeat split; by vm_compute|].
    destruct (decide (block = BlockType.BRAM_CONTENT)) as [->|H2];
      [repeat split; by vm_compute|].
    destruct (decide (block = BlockType.BRAM_INT)) as [->|H3];
      [repeat split; by vm_compute|].
    destruct (decide (block = BlockType.CLK)) as [->|H5];
      [repeat split; by vm_compute|].
    rewrite !(bool_decide_false (block ∈ _)) by set_solver.
    rewrite !(bool_decide_false (block = _)) by done.
    repeat split; by vm_compute.
  - rewrite (bool_decide_false (major <= 47)) by lia. done.
Qed.

(** [get_resource_type] answers ROUTING, LOGIC or UNKNOWN: a frame flagged
    as memory is flagged as logic, and a frame flagged as clock is flagged
    as routing, so the branches for MEMORY and CLOCK are never taken. *)
Lemma get_resource_type_range far_value :
  FrameMapper.get_resource_type far_value
  ∈ [FrameMapper.ROUTING; FrameMapper.LOGIC; FrameMapper.UNKNOWN].
Proof.
  unfold FrameMapper.get_resource_type. cbv zeta.
  unfold FrameMapper.map_frame. cbv zeta.
  rewrite get_column_descriptor_cases.
  case_bool_decide as Hcol; [|set_solver].
  cbn [FrameMapper.is_routing_frame FrameMapper.is_logic_frame
       FrameMapper.is_memory_frame FrameMapper.is_clock_frame].
  rewrite classify_resources_cases.
  repeat case_decide; vm_compute; set_solver.
Qed.

Lemma assess_trojan_risk_by_block block column_desc minor :
  (FrameMapper._assess_trojan_risk block column_desc minor
     (FrameMapper._classify_resources block column_desc minor)).1
  = if decide (block = BlockType.CLK) then FrameMapper.RISK_CRITICAL
    else if decide (ColumnMapper.column_type column_desc = ColumnMapper.IOB)
    then FrameMapper.RISK_CRITICAL
    else if bool_decide (block ∈ [BlockType.CLB; BlockType.BRAM_INT])
    then FrameMapper.RISK_HIGH
    else if decide (block = BlockType.BRAM_CONTENT)
    then FrameMapper.RISK_MEDIUM
    else FrameMapper.RISK_LOW.
Proof.
  rewrite classify_resources_cases.
  unfold FrameMapper._assess_trojan_risk.
  destruct (decide (block = BlockType.CLB)) as [->|H0].
  { destruct (decide (ColumnMapper.column_type column_desc
                      = ColumnMapper.IOB)); by vm_compute. }
  destruct (decide (block = BlockType.IOB)) as [->|H1].
  { destruct (decide (ColumnMapper.column_type column_desc
                      = ColumnMapper.IOB)); by vm_compute. }
  destruct (decide (block = BlockType.BRAM_CONTENT)) as [->|H2].
  { destruct (decide (ColumnMapper.column_type column_desc
                      = ColumnMapper.IOB)); by vm_compute. }
  destruct (decide (block = BlockType.BRAM_INT)) as [->|H3].
  { destruct (decide (ColumnMapper.column_type column_desc
                      = ColumnMapper.IOB)); by vm_compute. }
  destruct (decide (block = BlockType.CLK)) as [->|H5]; [by vm_compute|].
  rewrite (bool_decide_false (FrameMapper.CLOCK ∈ _)) by set_solver.
  rewrite (bool_decide_false (FrameMapper.ROUTING ∈ _)) by set_solver.
  rewrite (bool_decide_false (FrameMapper.LOGIC ∈ _)) by set_solver.
  rewrite (bool_decide_false (FrameMapper.MEMORY ∈ _)) by set_solver.
  rewrite (bool_decide_false (block ∈ _)) by set_solver.
  cbn [andb]. by destruct (decide (ColumnMapper.column_type column_desc
                                   = ColumnMapper.IOB)).
Qed.

(** X21.  The risk level that [map_frame] assigns.
    For a FAR whose column is on the device the risk is CRITICAL for a
    clock frame and for every frame of an IOB column, HIGH for CLB and
    BRAM_INT frames, MEDIUM for BRAM content frames and LOW otherwise; it
    is LOW when the column is not on the device.  The minor does not
    enter: a CLB frame is rated HIGH also when its minor makes it a logic
    frame, and the rule for memory frames is never reached. *)
Theorem trojan_risk_by_block far_value :
  let f := FrameAddress.decode far_value in
  let block := FrameAddress.block_type f in
  (FrameMapper.trojan_risk far_value).1
  = if bool_decide (47 < FrameAddress.major f) then FrameMapper.RISK_LOW
    else if decide (block = BlockType.CLK) then FrameMapper.RISK_CRITICAL
    else if decide (ColumnMapper.get_column_type (FrameAddress.major f)
                    = ColumnMapper.IOB)
    then FrameMapper.RISK_CRITICAL
    else if bool_decide (block ∈ [BlockType.CLB; BlockType.BRAM_INT])
    then FrameMapper.RISK_HIGH
    else if decide (block = BlockType.BRAM_CONTENT)
    then FrameMapper.RISK_MEDIUM
    else FrameMapper.RISK_LOW.
Proof.
  cbv zeta. pose proof (decode_bounds far_value) as (_ & _ & Hm & _).
  cbv zeta in Hm. unfold FrameMapper.trojan_risk, ColumnMapper.get_column_type.
  cbv zeta. rewrite get_column_descriptor_cases.
  case_bool_decide as Hcol.
  - rewrite bool_decide_false by lia. cbn [from_option].
    apply assess_trojan_risk_by_block.
  - by rewrite bool_decide_true by lia.
Qed.

(** X22.  [frame_rules.py] and the forward
    mapper name the same tiles: for every FAR,
    [FrameCoverage.get_tiles_configured_by_frame] and
    [FrameMapper.get_tiles_for_frame] return the same list, which is empty
    when the column is not on the device. *)
Theorem frame_coverage_tiles_agree far_value :
  FrameCoverage.get_tiles_configured_by_frame far_value
  = FrameMapper.get_tiles_for_frame far_value.
Proof.
  unfold FrameCoverage.get_tiles_configured_by_frame,
    FrameMapper.get_tiles_for_frame, FrameMapper.map_frame.
  cbv zeta. rewrite get_column_descriptor_cases.
  set (f := FrameAddress.decode far_value).
  case_bool_decide as Hcol.
  - cbn [FrameMapper.tiles_affected].
    unfold FrameMapper._generate_tile_names,
      FrameMapper._calculate_tile_range, FrameMapper.range,
      FrameMapper.tile_name.
    cbn [FrameMapper.tr_tile_types FrameMapper.y_start FrameMapper.y_end
         FrameMapper.x_coordinate ColumnMapper.build_descriptor].
    unfold ColumnMapper.build_descriptor.
    destruct (ColumnMapper.ColumnType_of _);
      cbn [ColumnMapper.tile_types];
      by destruct (ColumnClassification.get_tile_types_in_column _).
  - unfold ColumnClassification.get_tile_types_in_column.
    by rewrite column_map_outside.
Qed.

Lemma length_bind_const {A B} (f : A → list B) (l : list A) (n : nat) :
  (∀ x, length (f x) = n) → length (l ≫= f) = (length l * n)%nat.
Proof.
  intros Hf. induction l as [|x l IH]; [done|].
  cbn. rewrite length_app, Hf, IH. lia.
Qed.

(** X23.  The tiles of a frame.  For a FAR whose
    column is on the device, [map_frame] names two tiles for each row from
    [80 * top_bottom + 20 * minor] up to 20 rows further, cut off at row
    160: 40 tiles at most, and none at all from minor 8 on. *)
Theorem map_frame_tile_count far_value :
  let f := FrameAddress.decode far_value in
  let y_start := 80 * FrameAddress.top_bottom f + 20 * FrameAddress.minor f in
  FrameAddress.major f <= 47 →
  FrameMapper.y_range (FrameMapper.map_frame far_value)
  = (y_start, Z.min (y_start + 20) 160)
  ∧ Z.of_nat (length (FrameMapper.tiles_affected
                        (FrameMapper.map_frame far_value)))
    = 2 * Z.max 0 (Z.min 20 (160 - y_start))
  ∧ (8 <= FrameAddress.minor f →
     FrameMapper.tiles_affected (FrameMapper.map_frame far_value) = []).
Proof.
  cbv zeta. intros Hmajor.
  pose proof (decode_bounds far_value) as (_ & Htb & Hm & Hminor).
  cbv zeta in Htb, Hm, Hminor.
  unfold FrameMapper.map_frame. cbv zeta.
  rewrite get_column_descriptor_cases.
  set (f := FrameAddress.decode far_value) in *.
  rewrite bool_decide_true by lia.
  cbn [FrameMapper.tiles_affected FrameMapper.y_range].
  unfold FrameMapper._generate_tile_names, FrameMapper._calculate_tile_range,
    FrameMapper.range.
  cbn [FrameMapper.tr_tile_types FrameMapper.y_start FrameMapper.y_end
       FrameMapper.x_coordinate].
  change DeviceConstants.TILES_PER_ROW with 20.
  change DeviceConstants.TOTAL_TILE_ROWS with 160.
  assert ((if decide (FrameAddress.top_bottom f = 1) then 80 else 0)
          = 80 * FrameAddress.top_bottom f) as ->.
  { case_decide as Htb1; [by rewrite Htb1|lia]. }
  rewrite (Z.mul_comm (FrameAddress.minor f) 20).
  set (y_start := 80 * FrameAddress.top_bottom f + 20 * FrameAddress.minor f).
  assert (ColumnMapper.tile_types
            (ColumnMapper.build_descriptor (FrameAddress.major f))
          = ColumnClassification.get_tile_types_in_column
              (FrameAddress.major f)) as ->.
  { unfold ColumnMapper.build_descriptor.
    by destruct (ColumnMapper.ColumnType_of _). }
  assert (length (ColumnClassification.get_tile_types_in_column
                    (FrameAddress.major f)
                  ≫= λ tile_type,
                       seqZ y_start (Z.min (y_start + 20) 160 - y_start)
                       ≫= λ y, [FrameMapper.tile_name tile_type
                                  (FrameAddress.major f) y])
          = (2 * Z.to_nat (Z.min (y_start + 20) 160 - y_start))%nat) as Hlen.
  { rewrite (length_bind_const _ _
               (Z.to_nat (Z.min (y_start + 20) 160 - y_start))).
    - rewrite tile_types_length by lia. done.
    - intros tile_type. rewrite (length_bind_const _ _ 1) by done.
      rewrite length_seqZ. lia. }
  split; [done|]. split.
  - rewrite Hlen. lia.
  - intros Hm8. apply length_zero_iff_nil. rewrite Hlen. lia.
Qed.

Lemma map_frame_tile_count_witness :
  FrameAddress.minor (FrameAddress.decode Scenario.clb_logic_far) = 30
  ∧ FrameMapper.tiles_affected (FrameMapper.map_frame Scenario.clb_logic_far)
    = [].
Proof.
  split; [vm_compute; reflexivity|].
  destruct (map_frame_tile_count Scenario.clb_logic_far) as (_ & _ & Hnone).
  - vm_compute. discriminate.
  - apply Hnone. vm_compute. discriminate.
Defined.

(** ** Bit regions *)

Ltac decide_bools :=
  repeat first [ rewrite bool_decide_true by lia
               | rewrite bool_decide_false by lia ].

Ltac split_offset b l :=
  match l with
  | [] => idtac
  | ?x :: ?l' => destruct (decide (b < x)); [|split_offset b l']
  end.

Lemma clb_region_cases bit_offset :
  BitRegions.clb_region_loop BitRegions.CLB_BIT_REGIONS bit_offset
  = if bool_decide (0 <= bit_offset < 832)
    then Some BitRegions.REGION_TYPE_ROUTING
    else if bool_decide (832 <= bit_offset < 1120)
    then Some BitRegions.REGION_TYPE_LOGIC
    else if bool_decide (1120 <= bit_offset < 1312)
    then Some BitRegions.REGION_TYPE_CONTROL
    else None.
Proof.
  unfold BitRegions.CLB_BIT_REGIONS. cbn -[bool_decide].
  split_offset bit_offset [0; 704; 832; 1088; 1120; 1200; 1250; 1312];
    decide_bools; reflexivity.
Qed.

Lemma iob_region_cases bit_offset :
  BitRegions.iob_region_loop BitRegions.IOB_BIT_REGIONS bit_offset
  = if bool_decide (0 <= bit_offset < 800)
    then Some BitRegions.REGION_TYPE_ROUTING
    else if bool_decide (800 <= bit_offset < 1312)
    then Some BitRegions.REGION_TYPE_LOGIC
    else None.
Proof.
  unfold BitRegions.IOB_BIT_REGIONS. cbn -[bool_decide].
  split_offset bit_offset [0; 800; 850; 900; 1100; 1200; 1312];
    decide_bools; reflexivity.
Qed.

(** X24.  The routing bits of a frame.  For every FAR
    and every bit offset from 0 to 1311, [get_bit_region_type] answers
    [routing] exactly when [get_routing_bits_in_frame] lists the
    offset. *)
Theorem routing_bits_agree far_value bit_offset :
  0 <= bit_offset < 1312 →
  BitRegions.get_bit_region_type far_value bit_offset
  = BitRegions.REGION_TYPE_ROUTING
  ↔ bit_offset ∈ BitRegions.get_routing_bits_in_frame far_value.
Proof.
  intros Hoff.
  unfold BitRegions.get_bit_region_type, BitRegions.get_routing_bits_in_frame.
  cbv zeta. rewrite clb_region_cases, iob_region_cases.
  set (block := FrameAddress.block_type _). clearbody block.
  destruct (decide (block = BlockType.CLB)).
  { rewrite elem_of_seqZ.
    split_offset bit_offset [832; 1120]; decide_bools; cbn;
      (split; [done || lia|done || lia]). }
  destruct (decide (block = BlockType.IOB)).
  { rewrite elem_of_seqZ.
    split_offset bit_offset [800]; decide_bools; cbn;
      (split; [done || lia|done || lia]). }
  destruct (decide (block = BlockType.BRAM_CONTENT)).
  { rewrite decide_False by (subst block; discriminate).
    rewrite decide_False by (subst block; discriminate).
    split; [done|]. by intros ?%elem_of_nil. }
  destruct (decide (block = BlockType.BRAM_INT)).
  { rewrite elem_of_seqZ. split; [lia|done]. }
  destruct (decide (block = BlockType.CLK)).
  { rewrite elem_of_seqZ. split; [lia|done]. }
  split; [done|]. by intros ?%elem_of_nil.
Qed.

Lemma routing_bits_agree_witness :
  BitRegions.get_bit_region_type Scenario.clb_routing_far 831
  = BitRegions.REGION_TYPE_ROUTING
  ↔ 831 ∈ BitRegions.get_routing_bits_in_frame Scenario.clb_routing_far.
Proof. apply (routing_bits_agree Scenario.clb_routing_far 831). lia. Defined.

(** Logic bits.  An offset that [get_logic_bits_in_frame] lists is not a
    routing bit of the frame and lies in the frame; [get_bit_region_type]
    calls it [logic], except for the offsets 1120 to 1199 of a CLB frame,
    which it calls [control]. *)
Lemma logic_bits_region far_value bit_offset :
  bit_offset ∈ BitRegions.get_logic_bits_in_frame far_value →
  0 <= bit_offset < 1312
  ∧ bit_offset ∉ BitRegions.get_routing_bits_in_frame far_value
  ∧ BitRegions.get_bit_region_type far_value bit_offset
    = if bool_decide (FrameAddress.block_type (FrameAddress.decode far_value)
                      = BlockType.CLB)
         && bool_decide (1120 <= bit_offset)
      then BitRegions.REGION_TYPE_CONTROL
      else BitRegions.REGION_TYPE_LOGIC.
Proof.
  unfold BitRegions.get_bit_region_type, BitRegions.get_routing_bits_in_frame,
    BitRegions.get_logic_bits_in_frame.
  cbv zeta. rewrite clb_region_cases.
  set (block := FrameAddress.block_type _). clearbody block.
  destruct (decide (block = BlockType.CLB)) as [Hb|Hb].
  - rewrite !elem_of_seqZ. rewrite (bool_decide_true (block = _)) by done.
    intros Hin. split; [lia|]. split; [lia|].
    split_offset bit_offset [1120]; decide_bools; done.
  - rewrite (bool_decide_false (block = _)) by done. cbn [andb].
    destruct (decide (block = BlockType.BRAM_CONTENT)) as [Hb2|Hb2];
      [|by intros ?%elem_of_nil].
    rewrite elem_of_seqZ. intros Hin. split; [lia|].
    rewrite !(decide_False (P := block = BlockType.IOB))
      by (subst block; discriminate).
    rewrite !(decide_False (P := block = BlockType.BRAM_INT))
      by (subst block; discriminate).
    rewrite !(decide_False (P := block = BlockType.CLK))
      by (subst block; discriminate).
    split; [by intros ?%elem_of_nil|done].
Qed.

(** ** [detect_routing_modification] *)

Lemma filter_ext_in {A} (P Q : A → Prop)
    `{∀ x, Decision (P x)} `{∀ x, Decision (Q x)} (l : list A) :
  (∀ x, x ∈ l → P x ↔ Q x) → filter P l = filter Q l.
Proof.
  induction l as [|x l IH]; intros Hl; [done|].
  rewrite !filter_cons.
  rewrite IH by (intros y Hy; apply Hl; by right).
  destruct (decide (P x)) as [HP|HP].
  - by rewrite decide_True by (apply Hl; [left|done]).
  - by rewrite decide_False by (intros HQ; apply HP, Hl; [left|done]).
Qed.

Lemma bits_of_bytes_cons b d :
  ValidationRules.bits_of_bytes (b :: d)
  = ((λ k, Z.testbit (byte_val b) k) <$> [7; 6; 5; 4; 3; 2; 1; 0])
    ++ ValidationRules.bits_of_bytes d.
Proof. reflexivity. Qed.

Lemma length_bits_of_bytes d :
  length (ValidationRules.bits_of_bytes d) = (8 * length d)%nat.
Proof.
  induction d as [|b d IH]; [done|].
  rewrite bits_of_bytes_cons, length_app, IH. cbn [length fmap list_fmap]. lia.
Qed.

Lemma bits_of_bytes_lookup d off :
  0 <= off < 8 * Z.of_nat (length d) →
  ValidationRules.bits_of_bytes d !! Z.to_nat off = Some (bit_of d off).
Proof.
  revert off. induction d as [|b d IH]; intros off Hoff;
    [cbn in Hoff; lia|].
  rewrite bits_of_bytes_cons.
  destruct (decide (off < 8)) as [Hlt|Hge].
  - rewrite lookup_app_l by (cbn; lia).
    unfold bit_of. rewrite Z.div_small by lia. cbn [lookup list_lookup Z.to_nat].
    rewrite Z.mod_small by lia.
    assert (off = 0 ∨ off = 1 ∨ off = 2 ∨ off = 3 ∨ off = 4 ∨ off = 5
            ∨ off = 6 ∨ off = 7) as Hcases by lia.
    destruct Hcases as [->|[->|[->|[->|[->|[->|[->| ->]]]]]]]; reflexivity.
  - rewrite lookup_app_r by (cbn; lia).
    replace (Z.to_nat off - length _)%nat with (Z.to_nat (off - 8))
      by (cbn; lia).
    rewrite IH by (cbn [length] in Hoff; lia).
    f_equal. replace off with (8 + (off - 8)) at 2 by lia.
    by rewrite bit_of_cons by lia.
Qed.

Lemma sort_differences_spec routing_bits logic_bits orig_bits mod_bits :
  let differing :=
    filter (λ i, orig_bits !! Z.to_nat i ≠ mod_bits !! Z.to_nat i)
           (seqZ 0 (Z.of_nat (length orig_bits `min` length mod_bits))) in
  ValidationRules.sort_differences routing_bits logic_bits orig_bits mod_bits
  = (filter (λ i, i ∈ routing_bits) differing,
     filter (λ i, i ∉ routing_bits ∧ i ∈ logic_bits) differing,
     filter (λ i, i ∉ routing_bits ∧ i ∉ logic_bits) differing).
Proof.
  cbv zeta. unfold ValidationRules.sort_differences.
  generalize (length orig_bits `min` length mod_bits)%nat. intros n.
  induction n as [|n IH].
  - reflexivity.
  - rewrite seqZ_S, foldl_snoc, IH. clear IH.
    rewrite Z.add_0_l. rewrite !filter_app.
    rewrite !(filter_cons _ (Z.of_nat n)), !filter_nil.
    case_decide as Hd; [|by rewrite !filter_nil, !app_nil_r].
    rewrite !(filter_cons _ (Z.of_nat n)), !filter_nil.
    case_bool_decide as Hr.
    { rewrite decide_True by done. rewrite !decide_False by tauto.
      by rewrite !app_nil_r. }
    rewrite decide_False by done.
    case_bool_decide as Hl.
    { rewrite decide_True by done. rewrite decide_False by tauto.
      by rewrite !app_nil_r. }
    rewrite decide_False by tauto. rewrite decide_True by done.
    by rewrite !app_nil_r.
Qed.

(** X25.  The counts of
    [detect_routing_modification].  For two 164-byte frames and every FAR
    the function answers with counts, and they count the bit positions
    that [compare_frames] reports for the two frames: all of them for
    [total_bits_modified], those among the routing bits of the FAR for
    [routing_bits_modified], and those among its logic bits for
    [logic_bits_modified]. *)
Theorem detect_routing_modification_counts original_frame modified_frame
    far_value :
  frame_ok original_frame → frame_ok modified_frame →
  ∃ result differences,
    ValidationRules.detect_routing_modification
      original_frame modified_frame far_value = Some result
    ∧ FrameDataExtractor.compare_frames original_frame modified_frame
      = Ok differences
    ∧ ValidationRules.total_bits_modified result
      = Z.of_nat (length differences)
    ∧ ValidationRules.routing_bits_modified result
      = Z.of_nat (length
          (filter (λ i, i ∈ BitRegions.get_routing_bits_in_frame far_value)
                  differences))
    ∧ ValidationRules.logic_bits_modified result
      = Z.of_nat (length
          (filter (λ i, i ∈ BitRegions.get_logic_bits_in_frame far_value)
                  differences)).
Proof.
  intros Ho Hm. unfold ValidationRules.detect_routing_modification.
  unfold frame_ok in Ho, Hm.
  rewrite decide_False by (intros Hne; apply Hne; congruence).
  cbv zeta. rewrite sort_differences_spec. cbv zeta.
  rewrite !length_bits_of_bytes, Ho, Hm.
  change (Z.of_nat ((8 * 164) `min` (8 * 164))%nat) with 1312.
  assert (filter (λ i, ValidationRules.bits_of_bytes original_frame
                         !! Z.to_nat i
                       ≠ ValidationRules.bits_of_bytes modified_frame
                           !! Z.to_nat i) (seqZ 0 1312)
          = diff_positions original_frame modified_frame) as ->.
  { unfold diff_positions. apply filter_ext_in.
    intros i Hi%elem_of_seqZ.
    rewrite !bits_of_bytes_lookup by lia. split; [|congruence].
    intros Hne Heq. apply Hne. by rewrite Heq. }
  eexists _, (diff_positions original_frame modified_frame).
  split; [reflexivity|]. split.
  { rewrite compare_frames_cases.
    rewrite decide_False by (intros Hne; apply Hne; congruence).
    rewrite decide_False by lia. done. }
  cbn [ValidationRules.total_bits_modified
       ValidationRules.routing_bits_modified
       ValidationRules.logic_bits_modified].
  set (D := diff_positions original_frame modified_frame).
  set (R := BitRegions.get_routing_bits_in_frame far_value).
  set (L := BitRegions.get_logic_bits_in_frame far_value).
  assert (∀ i, i ∈ L → i ∉ R) as Hdisj.
  { intros i Hi. by apply logic_bits_region in Hi as (_ & ? & _). }
  assert (filter (λ i, i ∉ R ∧ i ∈ L) D = filter (λ i, i ∈ L) D) as Heq.
  { apply filter_ext_in. intros i _. split; [tauto|]. intros Hi.
    split; [by apply Hdisj|done]. }
  rewrite Heq. split; [|done].
  rewrite <-!Nat2Z.inj_add. f_equal.
  clearbody D R L. clear -Hdisj.
  induction D as [|i D IH]; [done|].
  rewrite !filter_cons.
  destruct (decide (i ∈ R)) as [Hr|Hr]; destruct (decide (i ∈ L)) as [Hl|Hl];
    destruct (decide (i ∉ R ∧ i ∉ L)) as [Ho|Ho];
    cbn [length]; try lia; exfalso; try tauto.
  by eapply Hdisj.
Qed.

Lemma detect_routing_modification_counts_witness :
  ∃ result differences,
    ValidationRules.detect_routing_modification
      Scenario.zeros Scenario.bits8 Scenario.clb_routing_far = Some result
    ∧ FrameDataExtractor.compare_frames Scenario.zeros Scenario.bits8
      = Ok differences
    ∧ ValidationRules.total_bits_modified result
      = Z.of_nat (length differences)
    ∧ ValidationRules.routing_bits_modified result
      = Z.of_nat (length
          (filter (λ i, i ∈ BitRegions.get_routing_bits_in_frame
                              Scenario.clb_routing_far)
                  differences))
    ∧ ValidationRules.logic_bits_modified result
      = Z.of_nat (length
          (filter (λ i, i ∈ BitRegions.get_logic_bits_in_frame
                              Scenario.clb_routing_far)
                  differences)).
Proof.
  apply (detect_routing_modification_counts
           Scenario.zeros Scenario.bits8 Scenario.clb_routing_far);
    reflexivity.
Defined.

(* ===================================================================== *)
(** * What the detector reports                                           *)
(* ===================================================================== *)

Lemma diff_positions_range d1 d2 :
  (length (diff_positions d1 d2) <= 1312)%nat
  ∧ Forall (λ p, 0 <= p < 1312) (diff_positions d1 d2).
Proof.
  unfold diff_positions. split.
  - etransitivity; [apply length_filter|]. by rewrite length_seqZ.
  - apply Forall_forall. intros p [_ Hp%elem_of_seqZ]%list_elem_of_filter.
    lia.
Qed.

Lemma compare_frames_Ok_inv frame1 frame2 l :
  FrameDataExtractor.compare_frames frame1 frame2 = Ok l →
  l = diff_positions frame1 frame2.
Proof.
  rewrite compare_frames_cases.
  case_decide; [done|]. case_decide; [done|]. congruence.
Qed.

(** What [_create_modified_frame_anomaly] builds. *)
Lemma create_modified_shape self gf sf tr ref a :
  FrameDifferentialDetector._create_modified_frame_anomaly self gf sf tr ref
  = Ok (Some a) →
  FrameAnomaly.anomaly_type a
  ∈ [ROUTING_CHANGE; LOGIC_CHANGE; CLOCK_CHANGE; IO_CHANGE; FRAME_MODIFIED]
  ∧ FrameDifferentialDetector.min_bits_for_significance self
    <= FrameAnomaly.bits_changed a <= 1312
  ∧ Z.of_nat (length (FrameAnomaly.changed_bit_positions a))
    = Z.min 100 (FrameAnomaly.bits_changed a)
  ∧ Forall (λ p, 0 <= p < 1312) (FrameAnomaly.changed_bit_positions a).
Proof.
  unfold FrameDifferentialDetector._create_modified_frame_anomaly.
  destruct (FrameDataExtractor.compare_frames _ _) as [diff|] eqn:Hdiff;
    [|discriminate].
  apply compare_frames_Ok_inv in Hdiff.
  destruct (diff_positions_range
              match ref with
              | Some d => d
              | None => AdaptedFrame.frame_data gf
              end (AdaptedFrame.frame_data sf)) as [Hlen Hrange].
  rewrite <-Hdiff in Hlen, Hrange.
  cbn -[FrameMapper.map_frame bool_decide].
  case_bool_decide as Hmin; [discriminate|].
  assert (∀ b1 b2 b3 b4 : bool,
            (if b1 then ROUTING_CHANGE
             else if b2 then LOGIC_CHANGE
             else if b3 then CLOCK_CHANGE
             else if b4 then IO_CHANGE else FRAME_MODIFIED)
            ∈ [ROUTING_CHANGE; LOGIC_CHANGE; CLOCK_CHANGE; IO_CHANGE;
               FRAME_MODIFIED]) as Hty.
  { intros [] [] [] []; set_solver. }
  destruct tr; [case_bool_decide|]; intros Ha; ok_inj Ha; rewrite <-Ha;
    cbn [FrameAnomaly.anomaly_type FrameAnomaly.bits_changed
         FrameAnomaly.changed_bit_positions
         FrameAnomaly.set_attack_vectors].
  all: split; [apply Hty|].
  all: split; [lia|].
  all: split; [rewrite length_take; lia|by apply Forall_take].
Qed.

(** What holds of every anomaly that [_create_modified_frame_anomaly]
    builds holds of every anomaly of Phase 2. *)
Section modified_Forall.
Variable self : FrameDifferentialDetector.t.
Variable P : FrameAnomaly.t → Prop.
Hypothesis HP :
  ∀ gf sf tr ref a,
    FrameDifferentialDetector._create_modified_frame_anomaly
      self gf sf tr ref = Ok (Some a) →
    P a.

Lemma transient_Forall gf sh gh l :
  FrameDifferentialDetector._detect_transient_history_mismatches
    self gf sh gh = Ok l →
  Forall P l.
Proof.
  unfold FrameDifferentialDetector._detect_transient_history_mismatches.
  destruct (collectM _ (zip sh gh)) as [ms|] eqn:Hms; [|discriminate].
  cbn -[collectM].
  destruct (collectM _ (drop _ sh)) as [es|] eqn:Hes; [|discriminate].
  cbn. intros Hq. apply (inj Ok) in Hq. subst l. apply Forall_app. split.
  - eapply collectM_Forall; [|exact Hms].
    intros [w expected] ys _. cbn -[option_list]. case_decide.
    + intros [[_ ->]|(a & Ha & ->)]%fmap_option_list_Ok; [constructor|].
      apply HP in Ha. by repeat constructor.
    + intros Hq. apply (inj Ok) in Hq. subst ys. constructor.
  - eapply collectM_Forall; [|exact Hes].
    intros w ys _.
    intros [[_ ->]|(a & Ha & ->)]%fmap_option_list_Ok; [constructor|].
    apply HP in Ha. by repeat constructor.
Qed.

Lemma compare_common_Forall g s far l :
  FrameDifferentialDetector.compare_common_frame self g s far = Ok l →
  Forall P l.
Proof.
  unfold FrameDifferentialDetector.compare_common_frame.
  destruct (GoldenBaseline.get_frame g far) as [gf|];
    [|intros Hq; apply (inj Ok) in Hq; subst l; constructor].
  destruct (LoadedBitstream.get_frame s far) as [sf|];
    [|intros Hq; apply (inj Ok) in Hq; subst l; constructor].
  case_decide.
  - intros [[_ ->]|(a & Ha & ->)]%fmap_option_list_Ok; [constructor|].
    apply HP in Ha. by repeat constructor.
  - destruct (GoldenBaseline.get_write_history g far) as [|e gh];
      [intros H'; apply (inj Ok) in H'; subst l; constructor|].
    destruct (LoadedBitstream.get_write_history s far) as [|w sh];
      [intros H'; apply (inj Ok) in H'; subst l; constructor|].
    apply transient_Forall.
Qed.

Lemma data_Forall g s da :
  FrameDifferentialDetector._detect_data_differences self g s = Ok da →
  Forall P da.
Proof.
  unfold FrameDifferentialDetector._detect_data_differences.
  apply collectM_Forall. intros far ys _. apply compare_common_Forall.
Qed.
End modified_Forall.

Lemma classify_changed_bit_positions g a :
  FrameAnomaly.changed_bit_positions
    (FrameDifferentialDetector.classify_anomaly g a)
  = FrameAnomaly.changed_bit_positions a.
Proof.
  unfold FrameDifferentialDetector.classify_anomaly.
  case_bool_decide; [case_decide|]; reflexivity.
Qed.

Lemma assess_changed_bit_positions a :
  FrameAnomaly.changed_bit_positions
    (FrameDifferentialDetector.assess_anomaly a)
  = FrameAnomaly.changed_bit_positions a.
Proof.
  unfold FrameDifferentialDetector.assess_anomaly.
  by destruct (FrameDifferentialDetector._calculate_severity a).
Qed.

(** Phase 3 turns [FRAME_MODIFIED] into [UNUSED_REGION_MOD] or leaves the
    type alone. *)
Lemma classify_anomaly_type_cases g a :
  FrameAnomaly.anomaly_type (FrameDifferentialDetector.classify_anomaly g a)
  = FrameAnomaly.anomaly_type a
  ∨ FrameAnomaly.anomaly_type a = FRAME_MODIFIED
    ∧ FrameAnomaly.anomaly_type
        (FrameDifferentialDetector.classify_anomaly g a)
      = UNUSED_REGION_MOD.
Proof.
  unfold FrameDifferentialDetector.classify_anomaly.
  case_bool_decide; [case_decide|]; auto.
Qed.

Lemma report_elem_of g s l a :
  a ∈ AnomalyReport.anomalies (report_of g s l) →
  ∃ a0, a0 ∈ l
        ∧ a = FrameDifferentialDetector.assess_anomaly
                (FrameDifferentialDetector.classify_anomaly g a0).
Proof.
  rewrite report_of_anomalies. rewrite <-list_fmap_compose.
  intros (a0 & -> & Ha0)%list_elem_of_fmap. by exists a0.
Qed.

(** A frame flagged as clock or IO frame is flagged as routing frame. *)
Lemma map_frame_clock_io_routing far_value :
  let coverage := FrameMapper.map_frame far_value in
  (FrameMapper.is_clock_frame coverage = true →
   FrameMapper.is_routing_frame coverage = true)
  ∧ (FrameMapper.is_io_frame coverage = true →
     FrameMapper.is_routing_frame coverage = true).
Proof.
  cbv zeta. unfold FrameMapper.map_frame. cbv zeta.
  rewrite get_column_descriptor_cases.
  case_bool_decide as Hcol; [|done].
  cbn [FrameMapper.is_routing_frame FrameMapper.is_clock_frame
       FrameMapper.is_io_frame].
  rewrite classify_resources_cases.
  repeat case_decide; by vm_compute.
Qed.

Lemma create_modified_type self gf sf tr ref a :
  FrameDifferentialDetector._create_modified_frame_anomaly self gf sf tr ref
  = Ok (Some a) →
  FrameAnomaly.anomaly_type a
  ∈ [ROUTING_CHANGE; LOGIC_CHANGE; FRAME_MODIFIED].
Proof.
  unfold FrameDifferentialDetector._create_modified_frame_anomaly.
  destruct (FrameDataExtractor.compare_frames _ _) as [diff|];
    [|discriminate].
  cbn -[FrameMapper.map_frame bool_decide].
  case_bool_decide as Hmin; [discriminate|].
  destruct (map_frame_clock_io_routing (AdaptedFrame.far_value gf))
    as [Hclk Hio]. cbv zeta in Hclk, Hio.
  assert ((if FrameMapper.is_routing_frame
                (FrameMapper.map_frame (AdaptedFrame.far_value gf))
           then ROUTING_CHANGE
           else if FrameMapper.is_logic_frame
                     (FrameMapper.map_frame (AdaptedFrame.far_value gf))
           then LOGIC_CHANGE
           else if FrameMapper.is_clock_frame
                     (FrameMapper.map_frame (AdaptedFrame.far_value gf))
           then CLOCK_CHANGE
           else if FrameMapper.is_io_frame
                     (FrameMapper.map_frame (AdaptedFrame.far_value gf))
           then IO_CHANGE else FRAME_MODIFIED)
          ∈ [ROUTING_CHANGE; LOGIC_CHANGE; FRAME_MODIFIED]) as Hty.
  { set (c := FrameMapper.map_frame (AdaptedFrame.far_value gf)) in *.
    clearbody c.
    destruct (FrameMapper.is_routing_frame c); [set_solver|].
    destruct (FrameMapper.is_logic_frame c); [set_solver|].
    destruct (FrameMapper.is_clock_frame c); [by specialize (Hclk eq_refl)|].
    destruct (FrameMapper.is_io_frame c); [by specialize (Hio eq_refl)|].
    set_solver. }
  destruct tr; [case_bool_decide|]; intros Ha; ok_inj Ha; rewrite <-Ha;
    exact Hty.
Qed.

(** X26.  The types of the anomalies.  Whatever the
    inputs, the report of a run that returns only holds anomalies of the
    types FRAME_ADDED, ROUTING_CHANGE, LOGIC_CHANGE, FRAME_MODIFIED and
    UNUSED_REGION_MOD.  Clock and IO frames are flagged as routing frames,
    which is tested first, so CLOCK_CHANGE and IO_CHANGE are never
    assigned; and a removed frame stops the run, so no report holds a
    FRAME_REMOVED. *)
Theorem detect_anomaly_types self g s r :
  FrameDifferentialDetector.detect self g s = Ok r →
  Forall (λ a, FrameAnomaly.anomaly_type a
               ∈ [FRAME_ADDED; ROUTING_CHANGE; LOGIC_CHANGE; FRAME_MODIFIED;
                  UNUSED_REGION_MOD])
         (AnomalyReport.anomalies r).
Proof.
  intros (da & _ & Hda & ->)%detect_Ok_inv.
  apply Forall_forall. intros a (a0 & Ha0 & ->)%report_elem_of.
  rewrite assess_anomaly_type.
  apply elem_of_app in Ha0 as [Ha0|Ha0].
  - apply elem_of_added_anomalies in Ha0 as (far & _ & _ & Ha0).
    apply create_added_inv in Ha0 as (_ & Hty & _).
    rewrite classify_anomaly_type by (rewrite Hty; discriminate).
    rewrite Hty. set_solver.
  - pose proof (data_Forall self _ (create_modified_type self) g s da Hda)
      as Hty.
    rewrite Forall_forall in Hty. specialize (Hty _ Ha0).
    destruct (classify_anomaly_type_cases g a0) as [->|[_ ->]]; set_solver.
Qed.

Lemma detect_anomaly_types_witness :
  ∃ r,
    FrameDifferentialDetector.detect Scenario.detector
      Scenario.clock_golden Scenario.clock_suspect = Ok r
    ∧ Forall (λ a, FrameAnomaly.anomaly_type a
                   ∈ [FRAME_ADDED; ROUTING_CHANGE; LOGIC_CHANGE;
                      FRAME_MODIFIED; UNUSED_REGION_MOD])
             (AnomalyReport.anomalies r).
Proof.
  assert (∃ r, FrameDifferentialDetector.detect Scenario.detector
                 Scenario.clock_golden Scenario.clock_suspect = Ok r)
    as [r Hr] by (eexists; vm_compute; reflexivity).
  exists r. split; [exact Hr|].
  apply (detect_anomaly_types Scenario.detector Scenario.clock_golden
           Scenario.clock_suspect r). exact Hr.
Defined.

(** X27.  The anomalies of a report.  On a
    well-formed baseline, every anomaly of a run that returns concerns a
    FAR of the suspect; it has the type FRAME_ADDED exactly when the
    baseline does not expect that FAR, and never the type FRAME_REMOVED;
    its final severity is not INFO, and it is HIGH or CRITICAL when the
    anomaly is transient. *)
Theorem detect_anomalies_sound self g s r :
  wf_golden g →
  FrameDifferentialDetector.detect self g s = Ok r →
  Forall (λ a,
            FrameAnomaly.far_value a ∈ suspect_fars s
            ∧ (FrameAnomaly.anomaly_type a = FRAME_ADDED
               ↔ FrameAnomaly.far_value a ∉ golden_fars g)
            ∧ FrameAnomaly.anomaly_type a ≠ FRAME_REMOVED
            ∧ FrameAnomaly.severity a ≠ INFO
            ∧ (FrameAnomaly.transient a = true →
               FrameAnomaly.severity a = HIGH
               ∨ FrameAnomaly.severity a = CRITICAL))
         (AnomalyReport.anomalies r).
Proof.
  intros Hg (da & _ & Hda & ->)%detect_Ok_inv.
  apply Forall_forall. intros a (a0 & Ha0 & ->)%report_elem_of.
  rewrite assess_far_value, classify_far_value, assess_anomaly_type,
    assess_severity, assess_transient.
  assert (FrameAnomaly.far_value a0 ∈ suspect_fars s
          ∧ (FrameAnomaly.anomaly_type
               (FrameDifferentialDetector.classify_anomaly g a0) = FRAME_ADDED
             ↔ FrameAnomaly.far_value a0 ∉ golden_fars g)
          ∧ FrameAnomaly.anomaly_type
              (FrameDifferentialDetector.classify_anomaly g a0)
            ≠ FRAME_REMOVED) as (? & ? & ?).
  { apply elem_of_app in Ha0 as [Ha0|Ha0].
    - apply elem_of_added_anomalies in Ha0 as (far & Hs & Hng & Ha0).
      apply create_added_inv in Ha0 as (-> & Hty & _).
      rewrite classify_anomaly_type by (rewrite Hty; discriminate).
      rewrite Hty. done.
    - pose proof (data_inv self g s da Hg Hda) as Hinv.
      rewrite Forall_forall in Hinv. destruct (Hinv _ Ha0) as (_ & Hig & His).
      pose proof (data_Forall self _
                    (λ a _ _ _ _ H, proj1 (create_modified_shape _ _ _ _ _ _ H))
                    g s da Hda) as Hty.
      rewrite Forall_forall in Hty. specialize (Hty _ Ha0).
      split; [done|].
      destruct (classify_anomaly_type_cases g a0) as [->|[_ ->]].
      + split; [split; [|done]|]; intros Heq; rewrite Heq in Hty;
          set_solver.
      + split; [split; [discriminate|done]|discriminate]. }
  split; [done|]. split; [done|]. split; [done|]. split.
  - pose proof (calculate_severity_range
                  (FrameDifferentialDetector.classify_anomaly g a0)) as Hr.
    intros Heq. rewrite Heq in Hr. cbn in Hr. lia.
  - rewrite classify_transient.
    intros Ht. apply calculate_severity_transient.
    by rewrite classify_transient.
Qed.

Lemma detect_anomalies_sound_witness :
  ∃ r,
    FrameDifferentialDetector.detect Scenario.detector
      Scenario.transient_golden Scenario.transient_suspect_8bit = Ok r
    ∧ Forall (λ a,
                FrameAnomaly.far_value a
                ∈ suspect_fars Scenario.transient_suspect_8bit
                ∧ (FrameAnomaly.anomaly_type a = FRAME_ADDED
                   ↔ FrameAnomaly.far_value a
                     ∉ golden_fars Scenario.transient_golden)
                ∧ FrameAnomaly.anomaly_type a ≠ FRAME_REMOVED
                ∧ FrameAnomaly.severity a ≠ INFO
                ∧ (FrameAnomaly.transient a = true →
                   FrameAnomaly.severity a = HIGH
                   ∨ FrameAnomaly.severity a = CRITICAL))
             (AnomalyReport.anomalies r).
Proof.
  assert (∃ r, FrameDifferentialDetector.detect Scenario.detector
                 Scenario.transient_golden Scenario.transient_suspect_8bit
               = Ok r) as [r Hr] by (eexists; vm_compute; reflexivity).
  exists r. split; [exact Hr|].
  apply (detect_anomalies_sound Scenario.detector Scenario.transient_golden
           Scenario.transient_suspect_8bit r); [|exact Hr].
  apply (bool_decide_unpack _). vm_compute. reflexivity.
Defined.

(** X28.  Size of the reported modifications.
    Whatever the inputs, in the report of a run that returns every anomaly
    other than an added frame changes at least
    [min_bits_for_significance] and at most 1312 bits, and lists the first
    100 of the changed positions, each of them a bit offset of the frame;
    an added frame lists no position. *)
Theorem detect_modification_bounds self g s r :
  FrameDifferentialDetector.detect self g s = Ok r →
  Forall (λ a,
            if decide (FrameAnomaly.anomaly_type a = FRAME_ADDED)
            then FrameAnomaly.changed_bit_positions a = []
            else FrameDifferentialDetector.min_bits_for_significance self
                 <= FrameAnomaly.bits_changed a <= 1312
                 ∧ Z.of_nat (length (FrameAnomaly.changed_bit_positions a))
                   = Z.min 100 (FrameAnomaly.bits_changed a)
                 ∧ Forall (λ p, 0 <= p < 1312)
                          (FrameAnomaly.changed_bit_positions a))
         (AnomalyReport.anomalies r).
Proof.
  intros (da & _ & Hda & ->)%detect_Ok_inv.
  apply Forall_forall. intros a (a0 & Ha0 & ->)%report_elem_of.
  rewrite assess_anomaly_type, assess_bits_changed,
    assess_changed_bit_positions, classify_bits_changed,
    classify_changed_bit_positions.
  apply elem_of_app in Ha0 as [Ha0|Ha0].
  - apply elem_of_added_anomalies in Ha0 as (far & Hs & Hng & Ha0).
    pose proof Ha0 as Hinv.
    apply create_added_inv in Hinv as (_ & Hty & _).
    rewrite classify_anomaly_type by (rewrite Hty; discriminate).
    rewrite decide_True by done.
    unfold FrameDifferentialDetector._create_added_frame_anomaly in Ha0.
    destruct (LoadedBitstream.get_frame s far); [|done].
    apply (inj Some) in Ha0. by subst a0.
  - pose proof (data_Forall self _
                  (λ a _ _ _ _ H, create_modified_shape _ _ _ _ _ _ H)
                  g s da Hda) as Hshape.
    rewrite Forall_forall in Hshape.
    destruct (Hshape _ Ha0) as (Hty & Hbits & Hlen & Hpos).
    rewrite decide_False; [done|].
    destruct (classify_anomaly_type_cases g a0) as [->|[_ ->]].
    + intros Heq. rewrite Heq in Hty. set_solver.
    + discriminate.
Qed.

Lemma detect_modification_bounds_witness :
  ∃ r,
    FrameDifferentialDetector.detect Scenario.detector
      Scenario.transient_golden Scenario.noise_suspect_5 = Ok r
    ∧ Forall (λ a,
                if decide (FrameAnomaly.anomaly_type a = FRAME_ADDED)
                then FrameAnomaly.changed_bit_positions a = []
                else FrameDifferentialDetector.min_bits_for_significance
                       Scenario.detector
                     <= FrameAnomaly.bits_changed a <= 1312
                     ∧ Z.of_nat
                         (length (FrameAnomaly.changed_bit_positions a))
                       = Z.min 100 (FrameAnomaly.bits_changed a)
                     ∧ Forall (λ p, 0 <= p < 1312)
                              (FrameAnomaly.changed_bit_positions a))
             (AnomalyReport.anomalies r).
Proof.
  assert (∃ r, FrameDifferentialDetector.detect Scenario.detector
                 Scenario.transient_golden Scenario.noise_suspect_5 = Ok r)
    as [r Hr] by (eexists; vm_compute; reflexivity).
  exists r. split; [exact Hr|].
  apply (detect_modification_bounds Scenario.detector
           Scenario.transient_golden Scenario.noise_suspect_5 r). exact Hr.
Defined.

(** The totals of the report are sums over the anomalies added. *)
Lemma tally_totals r l :
  let r' := foldl AnomalyReport.add_anomaly r l in
  AnomalyReport.total_bits_changed r'
  = AnomalyReport.total_bits_changed r
    + foldr Z.add 0 (FrameAnomaly.bits_changed <$> l)
  ∧ AnomalyReport.frames_with_differences r'
    = AnomalyReport.frames_with_differences r
      + Z.of_nat (length (filter (λ a, FrameAnomaly.bits_changed a > 0) l)).
Proof.
  revert r. induction l as [|a l IH]; intros r.
  - cbn. lia.
  - cbn [foldl]. cbv zeta in IH.
    destruct (IH (AnomalyReport.add_anomaly r a)) as [-> ->].
    rewrite filter_cons. cbn.
    case_bool_decide; [rewrite decide_True by done|
                       rewrite decide_False by done]; cbn; lia.
Qed.

Lemma count_severity_all sev l :
  Forall (λ a, FrameAnomaly.severity a = sev) l →
  count_severity sev l = Z.of_nat (length l).
Proof.
  intros H. unfold count_severity. rewrite filter_all; [done|].
  rewrite Forall_forall in H. intros a Ha. by apply H.
Qed.

(** X29.  The counters and the verdict of a report.
    Whatever the inputs, a run that returns counts every anomaly as
    MEDIUM, leaves the counters of CRITICAL, HIGH and LOW anomalies at
    zero and does not set [trojan_detected]; its verdict is
    [NO SIGNIFICANT ANOMALIES] for an empty report and
    [SUSPICIOUS MODIFICATIONS FOUND] otherwise, never [TROJAN DETECTED].
    [total_bits_changed] is the sum of [bits_changed] over the anomalies,
    and [total_frames_compared] the sum of the sizes of the two inputs. *)
Theorem detect_report_totals self g s r :
  FrameDifferentialDetector.detect self g s = Ok r →
  AnomalyReport.critical_count r = 0
  ∧ AnomalyReport.high_count r = 0
  ∧ AnomalyReport.medium_count r
    = Z.of_nat (length (AnomalyReport.anomalies r))
  ∧ AnomalyReport.low_count r = 0
  ∧ AnomalyReport.trojan_detected r = false
  ∧ AnomalyReport.summary_verdict r
    = (if decide (AnomalyReport.anomalies r = [])
       then "NO SIGNIFICANT ANOMALIES"
       else "SUSPICIOUS MODIFICATIONS FOUND")
  ∧ AnomalyReport.total_bits_changed r
    = foldr Z.add 0 (FrameAnomaly.bits_changed <$> AnomalyReport.anomalies r)
  ∧ AnomalyReport.total_frames_compared r
    = GoldenBaseline.__len__ g + LoadedBitstream.__len__ s.
Proof.
  intros (da & _ & Hda & ->)%detect_Ok_inv.
  set (l := added_anomalies g s ++ da).
  assert (Forall (λ a, FrameAnomaly.severity a = MEDIUM) l) as Hall.
  { apply Forall_app. split.
    - apply Forall_forall. intros a Ha.
      apply elem_of_added_anomalies in Ha as (far & _ & _ & Ha).
      by apply create_added_inv in Ha as (_ & _ & ? & _).
    - revert Hda. unfold FrameDifferentialDetector._detect_data_differences.
      apply collectM_Forall. intros far ys _.
      apply compare_common_severity. }
  destruct (report_of_counts g s l) as (Hc & Hh & Hm & Hl & Ht).
  assert (∀ sev, sev ≠ MEDIUM → count_severity sev l = 0) as Hnone.
  { intros sev Hsev. apply count_severity_none.
    eapply Forall_impl; [exact Hall|]. cbn. by intros a ->. }
  rewrite (count_severity_all MEDIUM) in Hm by done.
  pose proof (Hnone CRITICAL ltac:(discriminate)) as Hnc.
  pose proof (Hnone HIGH ltac:(discriminate)) as Hnh.
  pose proof (Hnone LOW ltac:(discriminate)) as Hnl.
  rewrite Hnc in Hc. rewrite Hnh in Hh. rewrite Hnl in Hl.
  rewrite Hnc, Hnh in Ht.
  rewrite Hc, Hh, Hm, Hl, Ht. rewrite report_of_anomalies, !length_fmap.
  destruct (tally_totals AnomalyReport.__init__ l) as [Hbits _].
  split; [done|]. split; [done|]. split; [done|]. split; [done|].
  split; [by vm_compute|]. split; [|split].
  - unfold report_of, AnomalyReport.finalize.
    cbn [AnomalyReport.summary_verdict].
    unfold AnomalyReport._generate_summary.
    cbn [AnomalyReport.trojan_detected AnomalyReport.high_count
         AnomalyReport.medium_count AnomalyReport.critical_count
         AnomalyReport.set_total_frames_compared
         AnomalyReport.update_anomalies AnomalyReport.anomalies
         AnomalyReport.total_bits_changed].
    destruct (tally_counts AnomalyReport.__init__ l) as (Hc' & Hh' & Hm' & _).
    cbv zeta in Hc', Hh', Hm', Hbits.
    rewrite Hc', Hh', Hm', Hbits.
    rewrite (count_severity_all MEDIUM) by done.
    rewrite ?Hnc, ?Hnh.
    rewrite report_anomalies_foldl.
    cbn [AnomalyReport.critical_count AnomalyReport.high_count
         AnomalyReport.medium_count AnomalyReport.__init__
         AnomalyReport.anomalies AnomalyReport.total_bits_changed app].
    destruct l as [|a l'].
    + by vm_compute.
    + rewrite decide_False by done.
      rewrite (bool_decide_false (0 + 0 > 0)) by lia.
      rewrite (bool_decide_false (0 + 0 >= 3)) by lia.
      cbn [orb].
      rewrite (bool_decide_true (0 + _ > 0)) by (cbn [length]; lia).
      done.
  - unfold report_of. cbn [AnomalyReport.finalize
      AnomalyReport.total_bits_changed
      AnomalyReport.set_total_frames_compared AnomalyReport.update_anomalies].
    cbv zeta in Hbits. rewrite Hbits. cbn [AnomalyReport.__init__
      AnomalyReport.total_bits_changed].
    rewrite Z.add_0_l, <-!list_fmap_compose. f_equal. apply list_fmap_ext.
    intros i a _. cbn.
    by rewrite assess_bits_changed, classify_bits_changed.
  - reflexivity.
Qed.

Lemma detect_report_totals_witness :
  ∃ r,
    FrameDifferentialDetector.detect Scenario.detector
      Scenario.clock_golden Scenario.clock_suspect = Ok r
    ∧ AnomalyReport.critical_count r = 0
    ∧ AnomalyReport.high_count r = 0
    ∧ AnomalyReport.medium_count r
      = Z.of_nat (length (AnomalyReport.anomalies r))
    ∧ AnomalyReport.low_count r = 0
    ∧ AnomalyReport.trojan_detected r = false
    ∧ AnomalyReport.summary_verdict r
      = (if decide (AnomalyReport.anomalies r = [])
         then "NO SIGNIFICANT ANOMALIES"
         else "SUSPICIOUS MODIFICATIONS FOUND")
    ∧ AnomalyReport.total_bits_changed r
      = foldr Z.add 0
          (FrameAnomaly.bits_changed <$> AnomalyReport.anomalies r)
    ∧ AnomalyReport.total_frames_compared r
      = GoldenBaseline.__len__ Scenario.clock_golden
        + LoadedBitstream.__len__ Scenario.clock_suspect.
Proof.
  assert (∃ r, FrameDifferentialDetector.detect Scenario.detector
                 Scenario.clock_golden Scenario.clock_suspect = Ok r)
    as [r Hr] by (eexists; vm_compute; reflexivity).
  exists r. split; [exact Hr|].
  apply (detect_report_totals Scenario.detector Scenario.clock_golden
           Scenario.clock_suspect r). exact Hr.
Defined.

(** X30.  When a run returns.  On well-formed inputs [detect]
    returns a report exactly when the suspect holds a frame for every FAR
    that the baseline expects and holds a frame for, and it raises
    [NameError] exactly when there is such a FAR without a frame in the
    suspect. *)
Theorem detect_outcome self g s :
  wf_golden g → wf_suspect s →
  ((∃ r, FrameDifferentialDetector.detect self g s = Ok r)
   ↔ ∀ far, far ∈ GoldenBaseline.get_expected_frames g →
            GoldenBaseline.has_frame g far = true →
            is_Some (LoadedBitstream.get_frame s far))
  ∧ (FrameDifferentialDetector.detect self g s = Raise NameError
     ↔ ∃ far, far ∈ GoldenBaseline.get_expected_frames g
              ∧ GoldenBaseline.has_frame g far = true
              ∧ LoadedBitstream.get_frame s far = None).
Proof.
  intros Hg Hs.
  unfold GoldenBaseline.has_frame, LoadedBitstream.get_frame,
    GoldenBaseline.get_expected_frames.
  fold (golden_fars g).
  destruct (decide (Forall (λ far, GoldenBaseline._frames g !! far = None)
                      (elements (golden_fars g ∖ suspect_fars s))))
    as [Hall|Hex].
  - rewrite Forall_forall in Hall.
    assert (∀ far, far ∈ golden_fars g → far ∉ suspect_fars s →
                   GoldenBaseline._frames g !! far = None) as Hnone.
    { intros far ? ?. apply Hall, elem_of_elements. set_solver. }
    assert (∃ r, FrameDifferentialDetector.detect self g s = Ok r)
      as [r Hr].
    { rewrite detect_unfold, structural_returns by done.
      destruct (data_returns self g s Hg Hs) as [da Hda].
      cbn -[FrameDifferentialDetector._detect_data_differences].
      rewrite Hda. by eexists. }
    rewrite Hr. split; split.
    + intros _ far Hfar Hhas. apply bool_decide_eq_true in Hhas.
      apply suspect_fars_lookup. destruct (decide (far ∈ suspect_fars s));
        [done|].
      rewrite Hnone in Hhas by done. by destruct Hhas.
    + by eexists.
    + done.
    + intros (far & Hfar & Hhas & Hmiss). exfalso.
      apply bool_decide_eq_true in Hhas.
      rewrite Hnone in Hhas; [by destruct Hhas|done|].
      rewrite suspect_fars_lookup, Hmiss. by intros [? ?].
  - apply not_Forall_Exists in Hex; [|apply _].
    apply Exists_exists in Hex as (far & Hfar & Hsome).
    apply elem_of_elements in Hfar.
    destruct (GoldenBaseline._frames g !! far) as [gf|] eqn:Hgf; [|done].
    assert (FrameDifferentialDetector.detect self g s = Raise NameError)
      as Hr.
    { rewrite detect_unfold.
      rewrite (structural_raises g s far gf); [done|set_solver..|done]. }
    rewrite Hr. split; split.
    + by intros [r ?].
    + intros Hall. exfalso. assert (far ∉ suspect_fars s) as Hn by set_solver.
      apply Hn, suspect_fars_lookup, Hall; [set_solver|].
      apply bool_decide_eq_true. by rewrite Hgf.
    + intros _. exists far. split; [set_solver|]. split.
      * apply bool_decide_eq_true. by rewrite Hgf.
      * apply eq_None_not_Some. rewrite <-suspect_fars_lookup. set_solver.
    + done.
Qed.

Lemma detect_outcome_witness :
  FrameDifferentialDetector.detect Scenario.detector
    Scenario.removed_golden Scenario.removed_suspect = Raise NameError
  ↔ ∃ far, far ∈ GoldenBaseline.get_expected_frames Scenario.removed_golden
           ∧ GoldenBaseline.has_frame Scenario.removed_golden far = true
           ∧ LoadedBitstream.get_frame Scenario.removed_suspect far = None.
Proof.
  destruct (detect_outcome Scenario.detector Scenario.removed_golden
              Scenario.removed_suspect) as [_ Hraise].
  - apply (bool_decide_unpack _). vm_compute. reflexivity.
  - apply (bool_decide_unpack _). vm_compute. reflexivity.
  - exact Hraise.
Defined.
